(** * irita-sdk-go, package [modules]: the base client

    A shallow embedding of [modules/base_client.go] (sharded locker,
    [BuildAndSend], [SendBatch], [prepare], [ValidateTxSize]) and of the gRPC
    client with its per-call credential ([NewGRPCClient], [Token]).

    Conventions.  Go integers are [Z] with the wrap-around written out where
    the code relies on it ([uint32] in the locker).  Go strings are
    [String.string] (a sequence of bytes).  A Go [map[string]string] is a
    [gmap string string].  Calls that leave the process (node, key store,
    cache) are fields of the class [Externals]; each call is recorded in a
    trace so that "no call was made" is a statement about the trace. *)

From Stdlib Require Import ZArith String Ascii List Lia Bool PrimFloat.
From stdpp Require Import base tactics option list gmap strings pretty.

Local Open Scope string_scope.
Local Open Scope list_scope.
Local Open Scope Z_scope.

(** ** Sharded locker (base_client.go, [locker]) *)

Module Locker.

Definition concurrency : Z := 16.

(** Conversion to [uint32]: keep the low 32 bits. *)
Definition uint32 (z : Z) : Z := z mod 2 ^ 32.

Definition offset32 : Z := 2166136261.
Definition prime32 : Z := 16777619.

(** [uint32(key[i])] *)
Definition byte_at (key : string) (i : nat) : option Z :=
  match String.get i key with
  | Some c => Some (Z.of_N (N_of_ascii c))
  | None => None
  end.

(** The loop [for i := 0; i < len(key); i++] of [indexFor], started at
    index [i] with [fuel] iterations left to run. *)
Fixpoint indexFor_loop (key : string) (fuel i : nat) (hash : Z) : Z :=
  match fuel with
  | O => hash
  | S fuel' =>
      if (i <? String.length key)%nat then
        match byte_at key i with
        | Some b =>
            let hash := uint32 (hash * prime32) in
            let hash := Z.lxor hash b in
            indexFor_loop key fuel' (S i) hash
        | None => hash
        end
      else hash
  end.

Definition indexFor (key : string) : Z :=
  indexFor_loop key (String.length key) 0 (uint32 offset32).

(** [type locker struct { shards []chan int; size int }]: a shard is a
    channel of capacity one, represented by the number of values it
    holds (0 or 1). *)
Record locker := { shards : list nat; size : Z }.

Definition NewLocker (size : Z) : locker :=
  {| shards := replicate (Z.to_nat size) 0%nat; size := size |}.

(** [uint(l.indexFor(key)) % uint(l.size)], the index used by [getShard]. *)
Definition shardIndex (l : locker) (key : string) : Z :=
  indexFor key mod size l.

(** The hash as the specification words it: over the bytes of the key, left
    to right, [hash = (hash * prime) XOR byte] in 32-bit arithmetic. *)
Definition bytes_of (key : string) : list Z :=
  map (fun c => Z.of_N (N_of_ascii c)) (list_ascii_of_string key).

Definition hash_step (hash b : Z) : Z := Z.lxor ((hash * 16777619) mod 2 ^ 32) b.

Definition hash_spec (key : string) : Z := fold_left hash_step (bytes_of key) 2166136261.

(** [uint(x)] for an [int]: the value modulo 2^64. *)
Definition uint (z : Z) : Z := z mod 2 ^ 64.

(** What a call on a channel does when no other goroutine runs: it goes
    through, it blocks, or it panics before reaching the channel. *)
Inductive outcome :=
| Proceeds (l : locker)
| Blocks
| Panics.

(** [getShard]: the position in [l.shards] of the channel for [key].  The
    remainder panics when [uint(l.size)] is zero, the indexing when the
    position is outside the slice. *)
Definition getShard (l : locker) (key : string) : option nat :=
  if uint (size l) =? 0 then None
  else
    let index := Z.to_nat (indexFor key mod uint (size l)) in
    if (index <? length (shards l))%nat then Some index else None.

(** [ch <- 1] on a channel of capacity one: goes through when the channel is
    empty, blocks when it holds a value. *)
Definition Lock (l : locker) (key : string) : outcome :=
  match getShard l key with
  | None => Panics
  | Some index =>
      match shards l !! index with
      | Some O => Proceeds {| shards := <[index := 1%nat]> (shards l); size := size l |}
      | Some (S _) => Blocks
      | None => Panics
      end
  end.

(** [<-ch]: takes the value out when the channel holds one, blocks when it is
    empty. *)
Definition Unlock (l : locker) (key : string) : outcome :=
  match getShard l key with
  | None => Panics
  | Some index =>
      match shards l !! index with
      | Some (S n) => Proceeds {| shards := <[index := n]> (shards l); size := size l |}
      | Some O => Blocks
      | None => Panics
      end
  end.

(** A locker as [NewLocker] builds them: a positive number of shards that
    fits an [int], one channel per shard, each holding at most one value. *)
Definition wellFormed (l : locker) : Prop :=
  0 < size l < 2 ^ 63
  /\ length (shards l) = Z.to_nat (size l)
  /\ Forall (fun n => (n <= 1)%nat) (shards l).

End Locker.

(** ** gRPC client and per-call credential *)

Module Grpc.

(** [types.BSNProjectInfo], the fields read by [NewBsnToken]. *)
Record BSNProjectInfo := {
  ProjectId : string;
  ProjectKey : string;
  ChainAccountAddress : string
}.

Record Token := {
  projectId : string;
  projectKey : string;
  chainAccountAddr : string
}.

Definition projectIdHeader : string := "projectId".
Definition projectKeyHeader : string := "projectKey".
Definition chainAccountAddressHeader : string := "chainAccountAddress".

(** A Go map literal: the entries are stored one after the other. *)
Definition GetRequestMetadata (t : Token) (uri : list string)
  : gmap string string * option string :=
  (<[chainAccountAddressHeader := chainAccountAddr t]>
     (<[projectKeyHeader := projectKey t]>
        (<[projectIdHeader := projectId t]> ∅)),
   None).

Definition RequireTransportSecurity (t : Token) : bool := false.

Definition NewBsnToken (info : BSNProjectInfo) : Token :=
  {| projectId := ProjectId info;
     projectKey := ProjectKey info;
     chainAccountAddr := ChainAccountAddress info |}.

(** The two dial options [NewGRPCClient] passes to [grpc.Dial]. *)
Inductive DialOption :=
| WithInsecure
| WithPerRPCCredentials (t : Token).

(** A connection remembers what it was dialled with. *)
Record ClientConn := { target : string; dialOpts : list DialOption }.

(** Package state: [clientConnSingleton] and whether [once] has run. *)
Record Globals := { clientConnSingleton : option ClientConn; onceDone : bool }.

Definition initGlobals : Globals := {| clientConnSingleton := None; onceDone := false |}.

Inductive Outcome (A : Type) :=
| Returned (a : A)
| Panicked (msg : string).
Arguments Returned {A} a.
Arguments Panicked {A} msg.

Section Dial.
(** [grpc.Dial]: [None] when the dial succeeds, the error text otherwise. *)
Variable dial : string -> list DialOption -> option string.

(** [once.Do] marks itself done even when the function panics. *)
Definition NewGRPCClient (url : string) (info : BSNProjectInfo) (g : Globals)
  : Outcome unit * Globals :=
  if onceDone g then (Returned tt, g)
  else
    let opts := [WithInsecure; WithPerRPCCredentials (NewBsnToken info)] in
    match dial url opts with
    | Some err =>
        (Panicked err, {| clientConnSingleton := clientConnSingleton g; onceDone := true |})
    | None =>
        (Returned tt,
         {| clientConnSingleton := Some {| target := url; dialOpts := opts |};
            onceDone := true |})
    end.
End Dial.

(** [GenConn] returns the singleton and a nil error. *)
Definition GenConn (g : Globals) : option ClientConn * option string :=
  (clientConnSingleton g, None).

(** The credentials a connection attaches to each call. *)
Definition perRPCCredentials (c : ClientConn) : list Token :=
  omap (fun o => match o with WithPerRPCCredentials t => Some t | WithInsecure => None end)
       (dialOpts c).

Definition insecure (c : ClientConn) : bool :=
  existsb (fun o => match o with WithInsecure => true | _ => false end) (dialOpts c).

End Grpc.

(** ** Base client (base_client.go) *)

Module Base.

(** *** Errors

    A Go [error] value is one of: an [sdk.Error] (it has [Code()] and
    [Codespace()]), a [retry.Error] (the per-attempt log [retry.Do]
    returns), or any other error, of which only the text matters. *)
#[warnings="-register-all"] Inductive error :=
| SdkError (codespace : string) (code : Z) (msg : string)
| PlainError (msg : string)
| RetryError (log : list (option error)).

Definition newline : string := String (ascii_of_nat 10) EmptyString.

Fixpoint join (sep : string) (l : list string) : string :=
  match l with
  | [] => ""
  | [x] => x
  | x :: rest => x ++ sep ++ join sep rest
  end.

(** [err.Error()].  For a [retry.Error] the library prints the entries that
    are not nil, numbered from one by their position:
    [All attempts fail:\n#1: ...\n#2: ...]. *)
Fixpoint Error_text (e : error) : string :=
  match e with
  | SdkError _ _ msg => msg
  | PlainError msg => msg
  | RetryError log =>
      String.append "All attempts fail:"
        (String.append newline
           (join newline
              ((fix lines (i : nat) (l : list (option error)) : list string :=
                  match l with
                  | [] => []
                  | None :: l' => lines (S i) l'
                  | Some e' :: l' =>
                      ("#" ++ pretty (S i) ++ ": " ++ Error_text e')%string
                        :: lines (S i) l'
                  end) O log)))
  end.

(** The type assertion [err.(sdk.Error)] followed by [Code()]. *)
Definition sdkCode (e : error) : option Z :=
  match e with
  | SdkError _ code _ => Some code
  | _ => None
  end.

(** *** Data *)

(** [sdk.Msg]: the two methods the base client calls, and a payload that
    tells messages apart. *)
Record Msg := { Route : string; ValidateBasic : option error; payload : Z }.

Record DecCoin := { dcDenom : string; dcAmount : Z }.
Record Coin := { Denom : string; Amount : Z }.

(** [DecCoins.Empty]: no coin in the list. *)
Definition Empty (coins : list DecCoin) : bool :=
  match coins with [] => true | _ => false end.

Record BaseTx := {
  From : string;
  Password : string;
  Gas : Z;
  Fee : list DecCoin;
  Memo : string;
  Mode : string;
  SimulateAndExecute : bool;
  GasAdjustment : float
}.

(** The fields of [sdk.ClientConfig] that [NewBaseClient] and [prepare]
    read. *)
Record ClientConfig := {
  cfg_ChainID : string;
  cfg_Mode : string;
  cfg_Gas : Z;
  cfg_GasAdjustment : float;
  cfg_Fee : list DecCoin;
  cfg_GRPCAddr : string;
  cfg_BSNProject : Grpc.BSNProjectInfo
}.

(** [clienttx.Factory], the build context.  The key manager, sign mode
    handler, tx config and query function are handles that no decision of
    the base client reads; they are left out. *)
Record Factory := {
  fChainID : string;
  fMode : string;
  fSimulateAndExecute : bool;
  fGas : Z;
  fGasAdjustment : float;
  fAddress : string;
  fAccountNumber : Z;
  fSequence : Z;
  fPassword : string;
  fFee : list Coin;
  fMemo : string
}.

(** [ctx.Address()] and [ctx.Mode()]. *)
Definition Address (f : Factory) : string := fAddress f.
Definition FactoryMode (f : Factory) : string := fMode f.

(** The setters: each stores one field and returns the factory. *)
Definition WithChainID (v : string) (f : Factory) : Factory :=
  {| fChainID := v; fMode := fMode f; fSimulateAndExecute := fSimulateAndExecute f;
     fGas := fGas f; fGasAdjustment := fGasAdjustment f; fAddress := fAddress f;
     fAccountNumber := fAccountNumber f; fSequence := fSequence f;
     fPassword := fPassword f; fFee := fFee f; fMemo := fMemo f |}.
Definition WithMode (v : string) (f : Factory) : Factory :=
  {| fChainID := fChainID f; fMode := v; fSimulateAndExecute := fSimulateAndExecute f;
     fGas := fGas f; fGasAdjustment := fGasAdjustment f; fAddress := fAddress f;
     fAccountNumber := fAccountNumber f; fSequence := fSequence f;
     fPassword := fPassword f; fFee := fFee f; fMemo := fMemo f |}.
Definition WithSimulateAndExecute (v : bool) (f : Factory) : Factory :=
  {| fChainID := fChainID f; fMode := fMode f; fSimulateAndExecute := v; fGas := fGas f;
     fGasAdjustment := fGasAdjustment f; fAddress := fAddress f;
     fAccountNumber := fAccountNumber f; fSequence := fSequence f;
     fPassword := fPassword f; fFee := fFee f; fMemo := fMemo f |}.
Definition WithGas (v : Z) (f : Factory) : Factory :=
  {| fChainID := fChainID f; fMode := fMode f;
     fSimulateAndExecute := fSimulateAndExecute f; fGas := v;
     fGasAdjustment := fGasAdjustment f; fAddress := fAddress f;
     fAccountNumber := fAccountNumber f; fSequence := fSequence f;
     fPassword := fPassword f; fFee := fFee f; fMemo := fMemo f |}.
Definition WithGasAdjustment (v : float) (f : Factory) : Factory :=
  {| fChainID := fChainID f; fMode := fMode f;
     fSimulateAndExecute := fSimulateAndExecute f; fGas := fGas f; fGasAdjustment := v;
     fAddress := fAddress f; fAccountNumber := fAccountNumber f;
     fSequence := fSequence f; fPassword := fPassword f; fFee := fFee f;
     fMemo := fMemo f |}.
Definition WithAddress (v : string) (f : Factory) : Factory :=
  {| fChainID := fChainID f; fMode := fMode f;
     fSimulateAndExecute := fSimulateAndExecute f; fGas := fGas f;
     fGasAdjustment := fGasAdjustment f; fAddress := v;
     fAccountNumber := fAccountNumber f; fSequence := fSequence f;
     fPassword := fPassword f; fFee := fFee f; fMemo := fMemo f |}.
Definition WithAccountNumber (v : Z) (f : Factory) : Factory :=
  {| fChainID := fChainID f; fMode := fMode f;
     fSimulateAndExecute := fSimulateAndExecute f; fGas := fGas f;
     fGasAdjustment := fGasAdjustment f; fAddress := fAddress f; fAccountNumber := v;
     fSequence := fSequence f; fPassword := fPassword f; fFee := fFee f;
     fMemo := fMemo f |}.
Definition WithSequence (v : Z) (f : Factory) : Factory :=
  {| fChainID := fChainID f; fMode := fMode f;
     fSimulateAndExecute := fSimulateAndExecute f; fGas := fGas f;
     fGasAdjustment := fGasAdjustment f; fAddress := fAddress f;
     fAccountNumber := fAccountNumber f; fSequence := v; fPassword := fPassword f;
     fFee := fFee f; fMemo := fMemo f |}.
Definition WithPassword (v : string) (f : Factory) : Factory :=
  {| fChainID := fChainID f; fMode := fMode f;
     fSimulateAndExecute := fSimulateAndExecute f; fGas := fGas f;
     fGasAdjustment := fGasAdjustment f; fAddress := fAddress f;
     fAccountNumber := fAccountNumber f; fSequence := fSequence f; fPassword := v;
     fFee := fFee f; fMemo := fMemo f |}.
Definition WithFee (v : list Coin) (f : Factory) : Factory :=
  {| fChainID := fChainID f; fMode := fMode f;
     fSimulateAndExecute := fSimulateAndExecute f; fGas := fGas f;
     fGasAdjustment := fGasAdjustment f; fAddress := fAddress f;
     fAccountNumber := fAccountNumber f; fSequence := fSequence f;
     fPassword := fPassword f; fFee := v; fMemo := fMemo f |}.
Definition WithMemo (v : string) (f : Factory) : Factory :=
  {| fChainID := fChainID f; fMode := fMode f;
     fSimulateAndExecute := fSimulateAndExecute f; fGas := fGas f;
     fGasAdjustment := fGasAdjustment f; fAddress := fAddress f;
     fAccountNumber := fAccountNumber f; fSequence := fSequence f;
     fPassword := fPassword f; fFee := fFee f; fMemo := v |}.

(** Modelled from the spec: [sdk.ResultTx] (package types, not under src/),
    "a single broadcast result (hash, code, log, height)". *)
Record ResultTx := { Hash : string; Code : Z; Log : string; Height : Z }.

(** The zero value of [var res sdk.ResultTx]. *)
Definition zeroResultTx : ResultTx := {| Hash := ""; Code := 0; Log := ""; Height := 0 |}.

Record BaseAccount := { AccountNumber : Z; Sequence : Z }.

(** What a call of [buildTx] does: return the signed bytes and the build
    context, return an error, or panic ([prepare] panics when the
    configured fee cannot be converted). *)
Inductive BuildOutcome :=
| Built (txByte : list Byte.byte) (ctx : Factory)
| BuildFailed (e : error)
| BuildPanicked (v : error).

(** *** Trace of calls *)
Inductive Event :=
| EvLock (shard : Z)
| EvUnlock (shard : Z)
| EvSubArray (subLen : Z) (groups : list (list Msg))
| EvBuildTx (msgs : list Msg) (out : BuildOutcome)
| EvTxSizeLimit (r : Z + error)
| EvBroadcastTx (txByte : list Byte.byte) (mode : string) (res : ResultTx) (err : option error)
| EvRemoveCache (address : string)
| EvQueryAddress (name : string)
| EvQueryAccount (address : string)
| EvToMinCoin (coins : list DecCoin).

(** *** Results and the state-and-panic monad *)
Inductive Res (A : Type) :=
| Val (a : A)
| Panic (v : error).
Arguments Val {A} a.
Arguments Panic {A} v.

Definition M (S A : Type) : Type := S -> Res A * S.

Definition mret {S A} (a : A) : M S A := fun s => (Val a, s).

Definition mbind {S A B} (m : M S A) (k : A -> M S B) : M S B :=
  fun s =>
    match m s with
    | (Val a, s') => k a s'
    | (Panic v, s') => (Panic v, s')
    end.

Definition mpanic {S A} (v : error) : M S A := fun s => (Panic v, s).

Declare Scope go_scope.
Delimit Scope go_scope with go.
Notation "'let*' x ':=' c1 'in' c2" := (mbind c1 (fun x => c2))
  (at level 10, x pattern, c1 at level 100, c2 at level 200) : go_scope.
Local Open Scope go_scope.

(** A closure's captured variables [L] next to the rest of the state. *)
Definition lift {L S A} (m : M S A) : M (L * S) A :=
  fun ls =>
    match m (snd ls) with
    | (r, s') => (r, (fst ls, s'))
    end.

Definition getL {L S} : M (L * S) L := fun ls => (Val (fst ls), ls).
Definition putL {L S} (l : L) : M (L * S) unit := fun ls => (Val tt, (l, snd ls)).

(** *** github.com/avast/retry-go

    [retry.Do] with the options the base client passes ([Attempts],
    [RetryIf], [OnRetry]); [lastErrorOnly] is the library's option of that
    name, false unless [retry.LastErrorOnly(true)] is passed.  The library
    is an external dependency; the loop below follows its [Do]: call the
    function; on an error store it in the log, stop if [retryIf] refuses
    it, call [onRetry], stop if this was the last attempt, sleep, and go
    on.  Sleeping is not modelled. *)
Record Config (S : Type) := {
  attempts : nat;
  retryIf : error -> bool;
  onRetry : nat -> error -> M S unit;
  lastErrorOnly : bool
}.
Arguments attempts {S} _.
Arguments retryIf {S} _ _.
Arguments onRetry {S} _ _ _.
Arguments lastErrorOnly {S} _.

Definition retry_result {S} (cfg : Config S) (errorLog : list (option error))
           (lastErrIndex : nat) : option error :=
  if lastErrorOnly cfg then
    match errorLog !! lastErrIndex with
    | Some o => o
    | None => None
    end
  else Some (RetryError errorLog).

(** [for n < config.attempts { ... }], with [fuel] iterations left. *)
Fixpoint retry_loop {S} (cfg : Config S) (retryableFunc : M S (option error))
         (fuel n lastErrIndex : nat) (errorLog : list (option error))
  : M S (option error) :=
  match fuel with
  | O => mret (retry_result cfg errorLog lastErrIndex)
  | Datatypes.S fuel' =>
      if (n <? attempts cfg)%nat then
        let* err := retryableFunc in
        match err with
        | Some e =>
            let errorLog := <[lastErrIndex := Some e]> errorLog in
            if negb (retryIf cfg e) then mret (retry_result cfg errorLog lastErrIndex)
            else
              let* _ := onRetry cfg n e in
              if (n =? attempts cfg - 1)%nat
              then mret (retry_result cfg errorLog lastErrIndex)
              else
                retry_loop cfg retryableFunc fuel' (Datatypes.S n)
                  (if lastErrorOnly cfg then lastErrIndex else Datatypes.S n) errorLog
        | None => mret None
        end
      else mret (retry_result cfg errorLog lastErrIndex)
  end.

Definition retry_Do {S} (cfg : Config S) (retryableFunc : M S (option error))
  : M S (option error) :=
  retry_loop cfg retryableFunc (attempts cfg) 0 0
    (replicate (if lastErrorOnly cfg then 1%nat else attempts cfg) None).

Definition tryThreshold : nat := 3.
Definition maxBatch : Z := 100.

(** *** What lies outside base_client.go

    The node, the key store, the account cache and the token service, as
    functions over an abstract [World]; and the constants and tables of the
    packages [types] and [service], whose values base_client.go only names. *)
Class Externals := {
  World : Type;
  (** [sdk.RootCodespace] and the codes [sdk.WrongSequence],
      [sdk.InvalidSequence], [sdk.TxTooLarge] *)
  RootCodespace : string;
  WrongSequence : Z;
  InvalidSequence : Z;
  TxTooLarge : Z;
  (** the code [sdk.Wrap] gives to the errors it builds *)
  wrapCode : Z;
  (** the text [sdk.GetError] attaches to a codespace and code *)
  codeText : string -> Z -> string;
  (** [service.ModuleName] *)
  serviceModuleName : string;
  (** [clienttx.NewFactory()] *)
  NewFactory : Factory;
  (** [DecCoins.IsValid] *)
  IsValid : list DecCoin -> bool;
  (** [base.buildTx(msgs, baseTx)] *)
  ext_buildTx : list Msg -> BaseTx -> World -> BuildOutcome * World;
  (** [base.broadcastTx(txByte, mode)] *)
  ext_broadcastTx : list Byte.byte -> string -> World -> (ResultTx * option error) * World;
  (** [base.removeCache(address)]; its result is discarded by the callers *)
  ext_removeCache : string -> World -> World;
  (** [service.NewQueryClient(conn).Params(...)], reduced to
      [res.Params.TxSizeLimit] *)
  ext_serviceParams : option Grpc.ClientConn -> World -> (Z + error) * World;
  (** [base.QueryAddress(name, password)], reduced to [addr.String()] *)
  ext_QueryAddress : string -> string -> World -> (string + error) * World;
  (** [base.QueryAndRefreshAccount(address)] *)
  ext_QueryAndRefreshAccount : string -> World -> (BaseAccount + error) * World;
  (** [base.ToMinCoin(coins...)] *)
  ext_ToMinCoin : list DecCoin -> World -> (list Coin + error) * World
}.

Section WithExternals.
Context `{X : Externals}.

(** The state a call runs in: the world and the calls made so far, oldest
    first. *)
Record St := { world : World; trace : list Event }.

Definition record (ev : Event) (w : World) (s : St) : St :=
  {| world := w; trace := trace s ++ [ev] |}.

(** [baseClient]: the configuration, the locker, and the connection
    [GenConn] hands out (the package variable [clientConnSingleton]). *)
Record baseClient := {
  cfg : ClientConfig;
  l : Locker.locker;
  conn : Grpc.Globals
}.

(** [NewBaseClient], as far as the fields above go: the gRPC client is
    created first (a failed dial panics), the locker has [concurrency]
    shards. *)
Definition NewBaseClient (dial : string -> list Grpc.DialOption -> option string)
           (cfg : ClientConfig) (g : Grpc.Globals) : Grpc.Outcome baseClient :=
  match Grpc.NewGRPCClient dial (cfg_GRPCAddr cfg) (cfg_BSNProject cfg) g with
  | (Grpc.Returned _, g') =>
      Grpc.Returned {| cfg := cfg; l := Locker.NewLocker Locker.concurrency; conn := g' |}
  | (Grpc.Panicked msg, _) => Grpc.Panicked msg
  end.

(** Modelled from the spec: [sdk.Wrap] (package types, not under src/), "the
    last error ... wrapped with a stable error code"; "every propagated error
    carries a stable machine-readable code plus human-readable text". *)
Definition Wrap (err : error) : error := SdkError RootCodespace wrapCode (Error_text err).

(** Modelled from the spec: [sdk.Wrapf] (package types, not under src/): the
    formatted text, wrapped as [Wrap] does. *)
Definition Wrapf (desc : string) : error := Wrap (PlainError desc).

(** Modelled from the spec: [sdk.GetError] (package types, not under src/):
    the [sdk.Error] of a codespace and code ("TxTooLargeError (retryable
    subtype, triggers batch shrink)"). *)
Definition GetError (codespace : string) (code : Z) : error :=
  SdkError codespace code (codeText codespace code).

(** Modelled from the spec: [utils.SubArray] (package utils, not under src/):
    "Partition messages into consecutive groups of size batchSize
    (preserving original order; the last group may be smaller)". *)
Fixpoint chunks {A} (fuel n : nat) (array : list A) : list (list A) :=
  match fuel with
  | O => []
  | Datatypes.S fuel' =>
      match array with
      | [] => []
      | _ => take n array :: chunks fuel' n (drop n array)
      end
  end.

(** The spec gives no meaning to a group size below one; the whole array is
    then one group. *)
Definition SubArray {A} (subLen : Z) (array : list A) : list (list A) :=
  if subLen <=? 0 then [array]
  else chunks (length array) (Z.to_nat subLen) array.

(** **** Calls, each recorded in the trace *)

(** [Lock] and [Unlock] send to and receive from the shard's channel.  One
    call running alone is described: the channel is free when [Lock] is
    reached, so neither blocks. *)
Definition Lock (lk : Locker.locker) (key : string) (s : St) : St :=
  record (EvLock (Locker.shardIndex lk key)) (world s) s.

Definition Unlock (lk : Locker.locker) (key : string) (s : St) : St :=
  record (EvUnlock (Locker.shardIndex lk key)) (world s) s.

Definition buildTx (msgs : list Msg) (baseTx : BaseTx)
  : M St (list Byte.byte * Factory + error) :=
  fun s =>
    match ext_buildTx msgs baseTx (world s) with
    | (out, w) =>
        let s' := record (EvBuildTx msgs out) w s in
        match out with
        | Built txByte ctx => (Val (inl (txByte, ctx)), s')
        | BuildFailed e => (Val (inr e), s')
        | BuildPanicked v => (Panic v, s')
        end
    end.

Definition broadcastTx (txByte : list Byte.byte) (mode : string)
  : M St (ResultTx * option error) :=
  fun s =>
    match ext_broadcastTx txByte mode (world s) with
    | ((res, err), w) => (Val (res, err), record (EvBroadcastTx txByte mode res err) w s)
    end.

Definition removeCache (address : string) : M St unit :=
  fun s => (Val tt, record (EvRemoveCache address) (ext_removeCache address (world s)) s).

Definition serviceParams (c : option Grpc.ClientConn) : M St (Z + error) :=
  fun s =>
    match ext_serviceParams c (world s) with
    | (r, w) => (Val r, record (EvTxSizeLimit r) w s)
    end.

Definition QueryAddress (name password : string) : M St (string + error) :=
  fun s =>
    match ext_QueryAddress name password (world s) with
    | (r, w) => (Val r, record (EvQueryAddress name) w s)
    end.

Definition QueryAndRefreshAccount (address : string) : M St (BaseAccount + error) :=
  fun s =>
    match ext_QueryAndRefreshAccount address (world s) with
    | (r, w) => (Val r, record (EvQueryAccount address) w s)
    end.

Definition ToMinCoin (coins : list DecCoin) : M St (list Coin + error) :=
  fun s =>
    match ext_ToMinCoin coins (world s) with
    | (r, w) => (Val r, record (EvToMinCoin coins) w s)
    end.

(** **** [ValidateTxSize] *)

Definition uint64 (z : Z) : Z := z mod 2 ^ 64.

Definition ValidateTxSize (base : baseClient) (txSize : Z) (msgs : list Msg)
  : M St (bool * option error) :=
  let isServiceTx := existsb (fun msg => String.eqb (Route msg) serviceModuleName) msgs in
  if isServiceTx then
    match Grpc.GenConn (conn base) with
    | (_, Some err) => mret (false, Some (Wrap (PlainError err)))
    | (c, None) =>
        let* res := serviceParams c in
        match res with
        | inr err => mret (false, Some (Wrap err))
        | inl TxSizeLimit =>
            if uint64 txSize >? TxSizeLimit then mret (false, None)
            else mret (true, None)
        end
    end
  else mret (true, None).

(** **** [BuildAndSend] *)

(** The variables the closures of [BuildAndSend] capture. *)
Record SendVars := { res : ResultTx; address : string }.

Definition send_retryableFunc (msg : list Msg) (baseTx : BaseTx)
  : M (SendVars * St) (option error) :=
  let* b := lift (buildTx msg baseTx) in
  match b with
  | inr e => mret (Some e)
  | inl (txByte, ctx) =>
      let* r := lift (broadcastTx txByte (FactoryMode ctx)) in
      let* v := getL in
      match r with
      | (res', Some e) =>
          let* _ := putL {| res := res'; address := Address ctx |} in
          mret (Some e)
      | (res', None) =>
          let* _ := putL {| res := res'; address := address v |} in
          mret None
      end
  end.

Definition send_retryIfFunc (err : error) : bool :=
  match sdkCode err with
  | Some code => code =? WrongSequence
  | None => false
  end.

Definition send_onRetryFunc (n : nat) (err : error) : M (SendVars * St) unit :=
  let* v := getL in
  lift (removeCache (address v)).

(** The options of the call: [retry.Attempts(tryThreshold)],
    [retry.RetryIf(retryIfFunc)], [retry.OnRetry(onRetryFunc)]. *)
Definition send_config : Config (SendVars * St) :=
  {| attempts := tryThreshold; retryIf := send_retryIfFunc;
     onRetry := send_onRetryFunc; lastErrorOnly := false |}.

Definition BuildAndSend (base : baseClient) (msg : list Msg) (baseTx : BaseTx)
  : M St (ResultTx * option error) :=
  fun s =>
    let s1 := Lock (l base) (From baseTx) s in
    let vars := {| res := zeroResultTx; address := "" |} in
    match retry_Do send_config (send_retryableFunc msg baseTx) (vars, s1) with
    | (out, (vars', s2)) =>
        (* defer base.l.Unlock(baseTx.From) *)
        let s3 := Unlock (l base) (From baseTx) s2 in
        match out with
        | Panic v => (Panic v, s3)
        | Val (Some err) => (Val (res vars', Some (Wrap err)), s3)
        | Val None => (Val (res vars', None), s3)
        end
    end.

(** **** [SendBatch] *)

(** The variables the closures of [SendBatch] capture; [msgs] and [rs] are
    the parameter and the named result. *)
Record BatchVars := {
  msgs : list Msg;
  batch : Z;
  batchAddress : string;
  rs : list ResultTx
}.

(** [for _, m := range msgs { if err := m.ValidateBasic(); err != nil ... }] *)
Fixpoint validateMsgs (msgs : list Msg) : option error :=
  match msgs with
  | [] => None
  | m :: rest =>
      match ValidateBasic m with
      | Some err => Some err
      | None => validateMsgs rest
      end
  end.

(** [msgs[low:]]; Go panics when [low] is outside [0 .. len(msgs)]. *)
Definition sliceFrom {S} (msgs : list Msg) (low : Z) : M S (list Msg) :=
  if (low <? 0) || (Z.of_nat (length msgs) <? low)
  then mpanic (PlainError "runtime error: slice bounds out of range")
  else mret (drop (Z.to_nat low) msgs).

(** The body of [for i, ms := range utils.SubArray(batch, msgs)], from group
    [i] on. *)
Fixpoint sendGroups (base : baseClient) (baseTx : BaseTx)
         (groups : list (list Msg)) (i : Z) : M (BatchVars * St) (option error) :=
  match groups with
  | [] => mret None
  | mss :: rest =>
      let* b := lift (buildTx mss baseTx) in
      match b with
      | inr err => mret (Some err)
      | inl (txByte, ctx) =>
          let* v := lift (ValidateTxSize base (Z.of_nat (length txByte)) mss) in
          match v with
          | (_, Some err) => mret (Some err)
          | (false, None) =>
              let* v := getL in
              let* msgs' := sliceFrom (msgs v) (i * batch v) in
              let* _ := putL {| msgs := msgs'; batch := Z.quot (batch v) 2;
                                batchAddress := batchAddress v; rs := rs v |} in
              mret (Some (GetError RootCodespace TxTooLarge))
          | (true, None) =>
              let* r := lift (broadcastTx txByte (FactoryMode ctx)) in
              let* v := getL in
              match r with
              | (_, Some err) =>
                  let* _ := putL {| msgs := msgs v; batch := batch v;
                                    batchAddress := Address ctx; rs := rs v |} in
                  mret (Some err)
              | (res, None) =>
                  let* _ := putL {| msgs := msgs v; batch := batch v;
                                    batchAddress := batchAddress v; rs := rs v ++ [res] |} in
                  sendGroups base baseTx rest (i + 1)
              end
          end
      end
  end.

Definition batch_retryableFunc (base : baseClient) (baseTx : BaseTx)
  : M (BatchVars * St) (option error) :=
  let* v := getL in
  let groups := SubArray (batch v) (msgs v) in
  let* _ := lift (fun s => (Val tt, record (EvSubArray (batch v) groups) (world s) s)) in
  sendGroups base baseTx groups 0.

Definition batch_retryIf (err : error) : bool :=
  match sdkCode err with
  | Some code => (code =? InvalidSequence) || (code =? TxTooLarge)
  | None => false
  end.

Definition batch_onRetry (n : nat) (err : error) : M (BatchVars * St) unit :=
  let* v := getL in
  lift (removeCache (batchAddress v)).

(** The options of the call: [retry.Attempts(tryThreshold)],
    [retry.RetryIf(retryIf)], [retry.OnRetry(onRetry)]. *)
Definition batch_config : Config (BatchVars * St) :=
  {| attempts := tryThreshold; retryIf := batch_retryIf;
     onRetry := batch_onRetry; lastErrorOnly := false |}.

(** [var address string; var batch = maxBatch], next to [msgs] and [rs]. *)
Definition batch_vars (msgs0 : list Msg) : BatchVars :=
  {| msgs := msgs0; batch := maxBatch; batchAddress := ""; rs := [] |}.

Definition SendBatch (base : baseClient) (msgs0 : list Msg) (baseTx : BaseTx)
  : M St (list ResultTx * option error) :=
  fun s =>
    if (length msgs0 =? 0)%nat then
      (Val ([], Some (Wrapf "must have at least one message in list")), s)
    else
      match validateMsgs msgs0 with
      | Some err => (Val ([], Some (Wrap err)), s)
      | None =>
          let s1 := Lock (l base) (From baseTx) s in
          match retry_Do batch_config (batch_retryableFunc base baseTx)
                         (batch_vars msgs0, s1) with
          | (out, (vars', s2)) =>
              (* defer base.l.Unlock(baseTx.From) *)
              let s3 := Unlock (l base) (From baseTx) s2 in
              match out with
              | Panic _ =>
                  (* recovered by the deferred sdk.CatchPanic: the named
                     results are returned as they stand, err being nil *)
                  (Val (rs vars', None), s3)
              | Val _ =>
                  (* _ = retry.Do(...); return rs, nil *)
                  (Val (rs vars', None), s3)
              end
          end
      end.

(** **** [prepare] *)

Definition prepare (base : baseClient) (baseTx : BaseTx) : M St (Factory + error) :=
  let factory :=
    WithGasAdjustment (cfg_GasAdjustment (cfg base))
      (WithGas (cfg_Gas (cfg base))
         (WithSimulateAndExecute (SimulateAndExecute baseTx)
            (WithMode (cfg_Mode (cfg base))
               (WithChainID (cfg_ChainID (cfg base)) NewFactory)))) in
  let* a := QueryAddress (From baseTx) (Password baseTx) in
  match a with
  | inr err => mret (inr err)
  | inl addr =>
      let factory := WithAddress addr factory in
      let* acc := QueryAndRefreshAccount addr in
      match acc with
      | inr err => mret (inr err)
      | inl account =>
          let factory :=
            WithPassword (Password baseTx)
              (WithSequence (Sequence account)
                 (WithAccountNumber (AccountNumber account) factory)) in
          let* withFee :=
            if negb (Empty (Fee baseTx)) && IsValid (Fee baseTx) then
              let* fees := ToMinCoin (Fee baseTx) in
              match fees with
              | inr err => mret (inr err)
              | inl fees => mret (inl (WithFee fees factory))
              end
            else
              let* fees := ToMinCoin (cfg_Fee (cfg base)) in
              match fees with
              | inr err => mpanic err
              | inl fees => mret (inl (WithFee fees factory))
              end in
          match withFee with
          | inr err => mret (inr err)
          | inl factory =>
              let factory :=
                if (0 <? Z.of_nat (String.length (Mode baseTx)))
                then WithMode (Mode baseTx) factory else factory in
              let factory :=
                if (0 <? Gas baseTx) then WithGas (Gas baseTx) factory else factory in
              let factory :=
                if PrimFloat.ltb 0%float (GasAdjustment baseTx)
                then WithGasAdjustment (GasAdjustment baseTx) factory else factory in
              let factory :=
                if (0 <? Z.of_nat (String.length (Memo baseTx)))
                then WithMemo (Memo baseTx) factory else factory in
              mret (inl factory)
          end
      end
  end.

(** **** Reading a trace *)

(** The calls a run has added to the trace. *)
Definition newEvents (s s' : St) : list Event := drop (length (trace s)) (trace s').

(** An attempt of either retry loop begins with one call of [buildTx] in
    [BuildAndSend], and with one call of [utils.SubArray] in [SendBatch]. *)
Definition isBuild (ev : Event) : bool :=
  match ev with EvBuildTx _ _ => true | _ => false end.

Definition buildCount (evs : list Event) : nat := length (List.filter isBuild evs).

(** The error a call returned, for the calls whose error ends an attempt. *)
Definition failureOf (ev : Event) : option error :=
  match ev with
  | EvBuildTx _ (BuildFailed e) => Some e
  | EvBroadcastTx _ _ _ (Some e) => Some e
  | _ => None
  end.

Definition failures (evs : list Event) : list error := omap failureOf evs.

(** The group size of each call of [utils.SubArray], in order. *)
Definition partitionSizes (evs : list Event) : list Z :=
  omap (fun ev => match ev with EvSubArray subLen _ => Some subLen | _ => None end) evs.

(** The groups of each call of [utils.SubArray], in order. *)
Definition partitions (evs : list Event) : list (list (list Msg)) :=
  omap (fun ev => match ev with EvSubArray _ groups => Some groups | _ => None end) evs.

(** Each size is the one before it, or half of it (Go's integer division). *)
Fixpoint halving (sizes : list Z) : Prop :=
  match sizes with
  | a :: (b :: _) as rest => (b = a \/ b = Z.quot a 2) /\ halving rest
  | _ => True
  end.


(** What a pass over the groups leaves behind: calls other than
    [utils.SubArray]; a group size that is the old one or half of it; the
    results so far, with more at the end. *)
Definition pass_ok (v : BatchVars) (s : St) (v' : BatchVars) (s' : St) : Prop :=
  (exists evs, trace s' = trace s ++ evs /\ partitionSizes evs = [])
  /\ (batch v' = batch v \/ batch v' = Z.quot (batch v) 2)
  /\ (exists more, rs v' = rs v ++ more).

(** The state [vs'] comes after [vs]: more calls in the trace, more results
    at the end of [rs]. *)
Definition extends (vs vs' : BatchVars * St) : Prop :=
  (exists evs, trace (snd vs') = trace (snd vs) ++ evs)
  /\ (exists more, rs (fst vs') = rs (fst vs) ++ more).

(** What one run of the closure [BuildAndSend] retries can do, given the
    captured variables and the state it starts in. *)
Inductive send_attempt_spec (msg : list Msg) (v : SendVars) (s : St)
  : Res (option error) -> SendVars -> St -> Prop :=
| sa_panic e w :
    send_attempt_spec msg v s (Panic e) v
      {| world := w; trace := trace s ++ [EvBuildTx msg (BuildPanicked e)] |}
| sa_build_failed e w :
    send_attempt_spec msg v s (Val (Some e)) v
      {| world := w; trace := trace s ++ [EvBuildTx msg (BuildFailed e)] |}
| sa_broadcast_failed txByte ctx r e w :
    send_attempt_spec msg v s (Val (Some e)) {| res := r; address := Address ctx |}
      {| world := w;
         trace := trace s ++ [EvBuildTx msg (Built txByte ctx);
                              EvBroadcastTx txByte (FactoryMode ctx) r (Some e)] |}
| sa_sent txByte ctx r w :
    send_attempt_spec msg v s (Val None) {| res := r; address := address v |}
      {| world := w;
         trace := trace s ++ [EvBuildTx msg (Built txByte ctx);
                              EvBroadcastTx txByte (FactoryMode ctx) r None] |}.

(** A failed run of that closure: the calls it made, its error, and the
    captured variables after it. *)
Inductive send_failed (msg : list Msg) (v : SendVars)
  : list Event -> error -> SendVars -> Prop :=
| failed_build e :
    send_failed msg v [EvBuildTx msg (BuildFailed e)] e v
| failed_broadcast txByte ctx r e :
    send_failed msg v
      [EvBuildTx msg (Built txByte ctx); EvBroadcastTx txByte (FactoryMode ctx) r (Some e)]
      e {| res := r; address := Address ctx |}.

(** The retry loop of [BuildAndSend] from attempt [n] on (counted from 0),
    [log] being the errors stored so far: the calls made, what [retry.Do]
    returns, and the captured variables at the end. *)
Inductive send_run (msg : list Msg)
  : nat -> list (option error) -> SendVars -> list Event ->
    Res (option error) -> SendVars -> Prop :=
| run_panic n log v e :
    send_run msg n log v [EvBuildTx msg (BuildPanicked e)] (Panic e) v
| run_sent n log v txByte ctx r :
    send_run msg n log v
      [EvBuildTx msg (Built txByte ctx); EvBroadcastTx txByte (FactoryMode ctx) r None]
      (Val None) {| res := r; address := address v |}
| run_refused n log v evs e v' :
    send_failed msg v evs e v' ->
    send_retryIfFunc e = false ->
    send_run msg n log v evs (Val (Some (RetryError (<[n := Some e]> log)))) v'
| run_last n log v evs e v' :
    n = 2%nat ->
    send_failed msg v evs e v' ->
    send_retryIfFunc e = true ->
    send_run msg n log v (evs ++ [EvRemoveCache (address v')])
      (Val (Some (RetryError (<[n := Some e]> log)))) v'
| run_retry n log v evs e v' evs' out v'' :
    (n < 2)%nat ->
    send_failed msg v evs e v' ->
    send_retryIfFunc e = true ->
    send_run msg (Datatypes.S n) (<[n := Some e]> log) v' evs' out v'' ->
    send_run msg n log v (evs ++ EvRemoveCache (address v') :: evs') out v''.

(** **** [BuildAndSign] *)

(** [builder.BuildAndSign] is a method of the factory [prepare] returns
    (package clienttx, not under src/): [sign] stands for it, the signed
    bytes or an error together with what the call does to the world. *)
Definition BuildAndSign
           (sign : Factory -> string -> list Msg -> World -> (list Byte.byte + error) * World)
           (base : baseClient) (msg : list Msg) (baseTx : BaseTx)
  : M St (list Byte.byte * option error) :=
  let* p := prepare base baseTx in
  match p with
  | inr err => mret ([], Some (Wrap err))
  | inl builder =>
      let* signed :=
        (fun s => match sign builder (From baseTx) msg (world s) with
                  | (r, w) => (Val r, {| world := w; trace := trace s |})
                  end) in
      match signed with
      | inr err => mret ([], Some (Wrap err))
      | inl txByte => mret (txByte, None)
      end
  end.

(** The results of the broadcasts that went through, in order. *)
Definition successes (evs : list Event) : list ResultTx :=
  omap (fun ev => match ev with EvBroadcastTx _ _ r None => Some r | _ => None end) evs.

(** The value a call panicked with: a build panics when [prepare] does. *)
Definition panicOf (ev : Event) : option error :=
  match ev with
  | EvBuildTx _ (BuildPanicked v) => Some v
  | _ => None
  end.

Definition panics (evs : list Event) : list error := omap panicOf evs.

(** A pass over the groups, or a run of the loop: no build panics, but
    possibly the last call made, and the pass then ends with that panic. *)
Definition pass_panics (r : Res (option error)) (evs : list Event) : Prop :=
  panics evs = []
  \/ exists pre g p,
      evs = pre ++ [EvBuildTx g (BuildPanicked p)] /\ panics pre = [] /\ r = Panic p.

(** The address a run has noted for [onRetry] after the calls [evs]: that
    of the factory of the latest build, taken when a broadcast fails.  The
    scan keeps the factory of the latest build and the address noted. *)
Definition note (st : option Factory * string) (ev : Event) : option Factory * string :=
  match ev with
  | EvBuildTx _ (Built _ ctx) => (Some ctx, snd st)
  | EvBroadcastTx _ _ _ (Some _) =>
      (fst st, match fst st with Some ctx => Address ctx | None => snd st end)
  | _ => st
  end.

Definition noted (evs : list Event) : string := snd (fold_left note evs (None, "")).

(** The group size in force after the calls [evs] of a run of [SendBatch]:
    [maxBatch], halved once for each size query that answered with a limit
    below the size of the transaction built just before it.  The scan keeps
    the bytes of the latest build and the size. *)
Definition resize (st : list Byte.byte * Z) (ev : Event) : list Byte.byte * Z :=
  match ev with
  | EvBuildTx _ (Built txByte _) => (txByte, snd st)
  | EvTxSizeLimit (inl TxSizeLimit) =>
      if uint64 (Z.of_nat (length (fst st))) >? TxSizeLimit
      then (fst st, Z.quot (snd st) 2) else st
  | _ => st
  end.

Definition sized (evs : list Event) : Z := snd (fold_left resize evs ([], maxBatch)).

(** The calls made inside the retry loop of [BuildAndSend]: building,
    broadcasting, invalidating a cached account. *)
Definition sendCall (ev : Event) : Prop :=
  match ev with
  | EvBuildTx _ _ | EvBroadcastTx _ _ _ _ | EvRemoveCache _ => True
  | _ => False
  end.

(** The calls made inside a retry loop: partitioning, building, the size
    query, broadcasting, invalidating the cache.  Locking and the queries of
    [prepare] are not among them. *)
Definition loopCall (ev : Event) : Prop :=
  match ev with
  | EvSubArray _ _ | EvBuildTx _ _ | EvTxSizeLimit _ | EvBroadcastTx _ _ _ _
  | EvRemoveCache _ => True
  | _ => False
  end.

(** Every failed call in [evs] is followed at once by the invalidation of a
    cached account, and its error is one the batch loop retries. *)
Definition settled (evs : list Event) : Prop :=
  forall pre failed e post,
    evs = pre ++ failed :: post -> failureOf failed = Some e ->
    batch_retryIf e = true /\ exists a post', post = EvRemoveCache a :: post'.

(** The calls of one pass over the groups, [r] being what the pass returns:
    they are loop calls, and at most the last of them failed, in which case
    its error is what the pass returns. *)
Definition pass_trace (r : Res (option error)) (evs : list Event) : Prop :=
  Forall loopCall evs
  /\ (failures evs = []
      \/ exists pre failed e,
          evs = pre ++ [failed] /\ failureOf failed = Some e
          /\ failures pre = [] /\ r = Val (Some e)).

(** Whether [retry.Do] stops after a run of the retried function that
    returned [r]. *)
Definition stops {S} (cfg : Config S) (r : Res (option error)) : Prop :=
  match r with
  | Val (Some e) => retryIf cfg e = false
  | _ => True
  end.

End WithExternals.

End Base.

(** ** A scripted world, to run the base client on concrete inputs *)

Module Scenario.
Import Base.

(** The node answers from scripts: the next [buildTx] fails with the head of
    [builds] when that is an error, the next [broadcastTx] with the head of
    [broadcasts]; an empty script means success.  Once signed, a message
    whose payload is [heavyFrom] or more takes two bytes, any other one. *)
Record Sim := {
  builds : list (option error);
  broadcasts : list (option error);
  limit : Z;
  heavyFrom : Z;
  sent : Z;
  invalidated : list string;
  knownDenoms : list string
}.

Definition signer : string := "iaa1signer".

Definition simFactory : Factory :=
  {| fChainID := "irita"; fMode := "commit"; fSimulateAndExecute := false;
     fGas := 200000; fGasAdjustment := 1%float; fAddress := signer;
     fAccountNumber := 7; fSequence := 1; fPassword := ""; fFee := []; fMemo := "" |}.

Definition txBytes (w : Sim) (msgs : list Msg) : list Byte.byte :=
  flat_map (fun m => if heavyFrom w <=? payload m then [Byte.x00; Byte.x00] else [Byte.x00])
           msgs.

Definition sim_buildTx (msgs : list Msg) (baseTx : BaseTx) (w : Sim) : BuildOutcome * Sim :=
  let w' := {| builds := tail (builds w); broadcasts := broadcasts w; limit := limit w;
               heavyFrom := heavyFrom w; sent := sent w; invalidated := invalidated w;
               knownDenoms := knownDenoms w |} in
  match builds w with
  | Some e :: _ => (BuildFailed e, w')
  | _ => (Built (txBytes w msgs) simFactory, w')
  end.

Definition sim_broadcastTx (txByte : list Byte.byte) (mode : string) (w : Sim)
  : (ResultTx * option error) * Sim :=
  match broadcasts w with
  | Some e :: rest =>
      ((zeroResultTx, Some e),
       {| builds := builds w; broadcasts := rest; limit := limit w;
          heavyFrom := heavyFrom w; sent := sent w; invalidated := invalidated w;
          knownDenoms := knownDenoms w |})
  | _ =>
      (({| Hash := "tx"; Code := 0; Log := ""; Height := sent w + 1 |}, None),
       {| builds := builds w; broadcasts := tail (broadcasts w); limit := limit w;
          heavyFrom := heavyFrom w; sent := sent w + 1; invalidated := invalidated w;
          knownDenoms := knownDenoms w |})
  end.

Definition sim_removeCache (address : string) (w : Sim) : Sim :=
  {| builds := builds w; broadcasts := broadcasts w; limit := limit w;
     heavyFrom := heavyFrom w; sent := sent w; invalidated := invalidated w ++ [address];
     knownDenoms := knownDenoms w |}.

Definition sim_ToMinCoin (coins : list DecCoin) (w : Sim) : (list Coin + error) * Sim :=
  if forallb (fun c => existsb (String.eqb (dcDenom c)) (knownDenoms w)) coins
  then (inl (map (fun c => {| Denom := dcDenom c; Amount := dcAmount c |}) coins), w)
  else (inr (SdkError "sdk" 10 "invalid coins"), w).

Definition simX : Externals :=
  {| World := Sim;
     RootCodespace := "sdk";
     WrongSequence := 32;
     InvalidSequence := 3;
     TxTooLarge := 21;
     wrapCode := 1;
     codeText := fun _ code => if code =? 21 then "tx too large" else "unknown";
     serviceModuleName := "service";
     NewFactory := simFactory;
     IsValid := forallb (fun c => 0 <? dcAmount c);
     ext_buildTx := sim_buildTx;
     ext_broadcastTx := sim_broadcastTx;
     ext_removeCache := sim_removeCache;
     ext_serviceParams := fun _ w => (inl (limit w), w);
     ext_QueryAddress := fun _ _ w => (inl signer, w);
     ext_QueryAndRefreshAccount := fun _ w => (inl {| AccountNumber := 7; Sequence := 1 |}, w);
     ext_ToMinCoin := sim_ToMinCoin |}.

Definition sim (bs cs : list (option error)) (lim heavy : Z) : @St simX :=
  {| world := ({| builds := bs; broadcasts := cs; limit := lim; heavyFrom := heavy;
                 sent := 0; invalidated := []; knownDenoms := ["uirita"] |} : @World simX);
     trace := [] |}.

Definition project : Grpc.BSNProjectInfo :=
  {| Grpc.ProjectId := "p-1"; Grpc.ProjectKey := "k-1"; Grpc.ChainAccountAddress := signer |}.

Definition simConfig : ClientConfig :=
  {| cfg_ChainID := "irita"; cfg_Mode := "commit"; cfg_Gas := 200000;
     cfg_GasAdjustment := 1%float; cfg_Fee := [{| dcDenom := "uirita"; dcAmount := 4 |}];
     cfg_GRPCAddr := "localhost:9090"; cfg_BSNProject := project |}.

Definition simBase (c : ClientConfig) : baseClient :=
  {| cfg := c;
     l := Locker.NewLocker Locker.concurrency;
     conn := {| Grpc.clientConnSingleton :=
                  Some {| Grpc.target := cfg_GRPCAddr c;
                          Grpc.dialOpts :=
                            [Grpc.WithInsecure;
                             Grpc.WithPerRPCCredentials (Grpc.NewBsnToken (cfg_BSNProject c))] |};
                Grpc.onceDone := true |} |}.

Definition simTx : BaseTx :=
  {| From := "alice"; Password := "secret"; Gas := 0; Fee := []; Memo := "";
     Mode := ""; SimulateAndExecute := false; GasAdjustment := 0%float |}.

Definition invalidMsg (text : string) (i : Z) : Msg :=
  {| Route := "service"; ValidateBasic := Some (PlainError text); payload := i |}.

(** [n] valid messages with payloads [from], [from + 1], ... *)
Definition numbered (route : string) (from : Z) (n : nat) : list Msg :=
  map (fun i => {| Route := route; ValidateBasic := None; payload := from + Z.of_nat i |})
      (seq 0 n).

Definition staleSequence (text : string) : error := SdkError "sdk" 32 text.
Definition unauthorized : error := SdkError "sdk" 4 "unauthorized".

(** A batch of 150 messages of the bank module: the first group of 100 is
    broadcast, the broadcast of the second group of 50 is refused by the
    node with the code 4, which is neither [InvalidSequence] nor
    [TxTooLarge]. *)
Definition refusedBatch : Res (list ResultTx * option error) * @St simX :=
  @SendBatch simX (simBase simConfig) (numbered "bank" 1 150) simTx
             (sim [] [None; Some unauthorized] 150 101).

(** Five messages of which the third fails its self-check. *)
Definition fiveMsgs : list Msg :=
  numbered "service" 1 2 ++ invalidMsg "invalid request" 3 :: numbered "service" 4 2.

(** A single send whose three broadcasts are all refused for a stale
    sequence number. *)
Definition stale1 : error := staleSequence "account sequence mismatch, expected 5, got 4".
Definition stale2 : error := staleSequence "account sequence mismatch, expected 6, got 4".
Definition stale3 : error := staleSequence "account sequence mismatch, expected 7, got 4".

Definition staleWorld : @St simX := sim [] [Some stale1; Some stale2; Some stale3] 150 101.

Definition exhaustedSend : Res (ResultTx * option error) * @St simX :=
  @BuildAndSend simX (simBase simConfig) (numbered "bank" 1 1) simTx staleWorld.


(** A configuration whose default fee cannot be converted, and a request
    whose own fee is not valid (its amount is zero). *)
Definition badFeeConfig : ClientConfig :=
  {| cfg_ChainID := "irita"; cfg_Mode := "commit"; cfg_Gas := 200000;
     cfg_GasAdjustment := 1%float; cfg_Fee := [{| dcDenom := "nosuchcoin"; dcAmount := 4 |}];
     cfg_GRPCAddr := "localhost:9090"; cfg_BSNProject := project |}.

Definition zeroFeeTx : BaseTx :=
  {| From := "alice"; Password := "secret"; Gas := 0;
     Fee := [{| dcDenom := "uirita"; dcAmount := 0 |}]; Memo := "";
     Mode := ""; SimulateAndExecute := false; GasAdjustment := 0%float |}.

(** 250 messages of the service module, numbered 1 to 250.  Signed, the
    first hundred take a byte each and the others two, and the node accepts
    150 bytes: the first group of 100 passes, the second is too large, the
    groups of 50 pass. *)
Definition batch250 : list Msg := numbered "service" 1 250.
Definition batchWorld : @St simX := sim [] [] 150 101.
Definition batchBase : baseClient := simBase simConfig.

Definition batchRun : Res (list ResultTx * option error) * @St simX :=
  @SendBatch simX batchBase batch250 simTx batchWorld.

(** The states the first attempt goes through. *)
Definition batch_s2 : @St simX :=
  let s1 := Lock (l batchBase) (From simTx) batchWorld in
  record (EvSubArray maxBatch
            [take 100 batch250; take 100 (drop 100 batch250); drop 200 batch250])
         (world s1) s1.
Definition batch_tx1 : list Byte.byte := txBytes (world batch_s2) (take 100 batch250).
Definition batch_tx2 : list Byte.byte :=
  txBytes (world batch_s2) (take 100 (drop 100 batch250)).
Definition batch_s3 : @St simX := snd (buildTx (take 100 batch250) simTx batch_s2).
Definition batch_s4 : @St simX :=
  snd (ValidateTxSize batchBase (Z.of_nat (length batch_tx1)) (take 100 batch250) batch_s3).
Definition batch_s5 : @St simX := snd (broadcastTx batch_tx1 "commit" batch_s4).
Definition batch_s6 : @St simX :=
  snd (buildTx (take 100 (drop 100 batch250)) simTx batch_s5).
Definition batch_s7 : @St simX :=
  snd (ValidateTxSize batchBase (Z.of_nat (length batch_tx2))
                      (take 100 (drop 100 batch250)) batch_s6).
Definition batch_res1 : ResultTx := {| Hash := "tx"; Code := 0; Log := ""; Height := 1 |}.

(** A batch of 150 messages of the bank module, sent in two groups.  The
    first group is broadcast; the broadcast of the second is refused for
    the sequence number; the second attempt goes through. *)
Definition invalidSequence : error := SdkError "sdk" 3 "invalid sequence".
Definition resendMsgs : list Msg := numbered "bank" 1 150.
Definition resendWorld : @St simX := sim [] [None; Some invalidSequence] 150 101.

Definition resendRun : Res (list ResultTx * option error) * @St simX :=
  @SendBatch simX batchBase resendMsgs simTx resendWorld.

(** The states the two attempts go through; no size is asked for, the
    messages being of the bank module. *)
Definition resend_tx1 : list Byte.byte := txBytes (world resendWorld) (take 100 resendMsgs).
Definition resend_tx2 : list Byte.byte := txBytes (world resendWorld) (drop 100 resendMsgs).
Definition resend_s2 : @St simX :=
  let s1 := Lock (l batchBase) (From simTx) resendWorld in
  record (EvSubArray maxBatch [take 100 resendMsgs; drop 100 resendMsgs]) (world s1) s1.
Definition resend_s3 : @St simX := snd (buildTx (take 100 resendMsgs) simTx resend_s2).
Definition resend_s5 : @St simX := snd (broadcastTx resend_tx1 "commit" resend_s3).
Definition resend_s6 : @St simX := snd (buildTx (drop 100 resendMsgs) simTx resend_s5).
Definition resend_s8 : @St simX := snd (broadcastTx resend_tx2 "commit" resend_s6).
Definition resend_s9 : @St simX :=
  let s := snd (removeCache signer resend_s8) in
  record (EvSubArray maxBatch [take 100 resendMsgs; drop 100 resendMsgs]) (world s) s.
Definition resend_s10 : @St simX := snd (buildTx (take 100 resendMsgs) simTx resend_s9).
Definition resend_s12 : @St simX := snd (broadcastTx resend_tx1 "commit" resend_s10).
Definition resend_res1 : ResultTx := {| Hash := "tx"; Code := 0; Log := ""; Height := 1 |}.
Definition resend_res2 : ResultTx := {| Hash := "tx"; Code := 0; Log := ""; Height := 2 |}.

(** A request that sets everything it can, with a fee that is valid. *)
Definition customTx : BaseTx :=
  {| From := "alice"; Password := "secret"; Gas := 50;
     Fee := [{| dcDenom := "uirita"; dcAmount := 9 |}]; Memo := "rent";
     Mode := "async"; SimulateAndExecute := true; GasAdjustment := 1.5%float |}.

Definition customFactory : Factory :=
  {| fChainID := "irita"; fMode := "async"; fSimulateAndExecute := true;
     fGas := 50; fGasAdjustment := 1.5%float; fAddress := signer;
     fAccountNumber := 7; fSequence := 1; fPassword := "secret";
     fFee := [{| Denom := "uirita"; Amount := 9 |}]; fMemo := "rent" |}.

(** A network on which one address cannot be reached. *)
Definition simDial (url : string) (opts : list Grpc.DialOption) : option string :=
  if String.eqb url "down:9090" then Some "connection refused" else None.

Definition otherConfig : ClientConfig :=
  {| cfg_ChainID := "irita"; cfg_Mode := "sync"; cfg_Gas := 100000;
     cfg_GasAdjustment := 1%float; cfg_Fee := [{| dcDenom := "uirita"; dcAmount := 2 |}];
     cfg_GRPCAddr := "down:9090";
     cfg_BSNProject := {| Grpc.ProjectId := "p-2"; Grpc.ProjectKey := "k-2";
                          Grpc.ChainAccountAddress := "iaa1other" |} |}.

(** A node on which a scripted build error is a panic of the build instead,
    as when [prepare] cannot convert the configured fee. *)
Definition sim_buildTx_panics (msgs : list Msg) (baseTx : BaseTx) (w : Sim)
  : BuildOutcome * Sim :=
  match sim_buildTx msgs baseTx w with
  | (BuildFailed e, w') => (BuildPanicked e, w')
  | r => r
  end.

Definition simPanicX : Externals :=
  {| World := Sim;
     RootCodespace := "sdk";
     WrongSequence := 32;
     InvalidSequence := 3;
     TxTooLarge := 21;
     wrapCode := 1;
     codeText := fun _ code => if code =? 21 then "tx too large" else "unknown";
     serviceModuleName := "service";
     NewFactory := simFactory;
     IsValid := forallb (fun c => 0 <? dcAmount c);
     ext_buildTx := sim_buildTx_panics;
     ext_broadcastTx := sim_broadcastTx;
     ext_removeCache := sim_removeCache;
     ext_serviceParams := fun _ w => (inl (limit w), w);
     ext_QueryAddress := fun _ _ w => (inl signer, w);
     ext_QueryAndRefreshAccount := fun _ w => (inl {| AccountNumber := 7; Sequence := 1 |}, w);
     ext_ToMinCoin := sim_ToMinCoin |}.

Definition invalidCoins : error := SdkError "sdk" 10 "invalid coins".

(** 150 messages of the bank module: the first group is built and
    broadcast, the build of the second panics. *)
Definition panicWorld : @St simPanicX :=
  {| world := ({| builds := [None; Some invalidCoins]; broadcasts := []; limit := 150;
                 heavyFrom := 101; sent := 0; invalidated := [];
                 knownDenoms := ["uirita"] |} : @World simPanicX);
     trace := [] |}.

Definition panicRun : Res (list ResultTx * option error) * @St simPanicX :=
  @SendBatch simPanicX batchBase (numbered "bank" 1 150) simTx panicWorld.

End Scenario.

(** * Properties *)

Module LockerFacts.
Import Locker.

Lemma uint32_range z : 0 <= uint32 z < 2 ^ 32.
Proof. unfold uint32. apply Z.mod_pos_bound. lia. Qed.

Lemma lxor_range a b : 0 <= a < 2 ^ 32 -> 0 <= b < 2 ^ 32 -> 0 <= Z.lxor a b < 2 ^ 32.
Proof.
  intros Ha Hb.
  assert (Hnn : 0 <= Z.lxor a b) by (apply Z.lxor_nonneg; lia).
  split; [exact Hnn|].
  destruct (Z.eq_dec (Z.lxor a b) 0) as [->|Hne]; [lia|].
  apply Z.log2_lt_pow2; [lia|].
  eapply Z.le_lt_trans; [apply Z.log2_lxor; lia|].
  apply Z.max_lub_lt.
  - destruct (Z.eq_dec a 0) as [->|]; [simpl; lia|]. apply Z.log2_lt_pow2; lia.
  - destruct (Z.eq_dec b 0) as [->|]; [simpl; lia|]. apply Z.log2_lt_pow2; lia.
Qed.

Lemma ascii_range c : 0 <= Z.of_N (N_of_ascii c) < 2 ^ 32.
Proof.
  pose proof (N_ascii_bounded c) as H.
  split; [lia|]. change (2 ^ 32) with 4294967296. lia.
Qed.

Lemma hash_step_range h b : 0 <= b < 2 ^ 32 -> 0 <= hash_step h b < 2 ^ 32.
Proof.
  intros Hb. unfold hash_step. apply lxor_range; [|exact Hb].
  apply Z.mod_pos_bound. lia.
Qed.

Lemma get_lookup (key : string) (i : nat) :
  String.get i key = list_ascii_of_string key !! i.
Proof.
  revert i. induction key as [|c key IH]; intros [|i]; simpl; auto.
Qed.

Lemma length_bytes key : length (list_ascii_of_string key) = String.length key.
Proof. induction key; simpl; auto. Qed.

(** The index loop, started at [i], folds [hash_step] over the bytes from
    position [i] on. *)
Lemma indexFor_loop_fold key fuel i hash :
  (i + fuel = String.length key)%nat ->
  indexFor_loop key fuel i hash = fold_left hash_step (drop i (bytes_of key)) hash.
Proof.
  revert i hash. induction fuel as [|fuel IH]; intros i hash Hlen.
  - simpl. rewrite drop_ge; [reflexivity|].
    unfold bytes_of. rewrite length_map, length_bytes. lia.
  - simpl. destruct (Nat.ltb_spec i (String.length key)) as [Hlt|Hge]; [|lia].
    unfold byte_at. rewrite get_lookup.
    destruct (list_ascii_of_string key !! i) as [c|] eqn:Hc.
    + rewrite IH by lia.
      assert (Hb : bytes_of key !! i = Some (Z.of_N (N_of_ascii c))).
      { unfold bytes_of. change (map ?f ?l) with (f <$> l).
        rewrite list_lookup_fmap, Hc. reflexivity. }
      rewrite (drop_S _ _ _ Hb). reflexivity.
    + apply lookup_ge_None in Hc. rewrite length_bytes in Hc. lia.
Qed.

Lemma fold_hash_range bs h :
  0 <= h < 2 ^ 32 -> Forall (fun b => 0 <= b < 2 ^ 32) bs ->
  0 <= fold_left hash_step bs h < 2 ^ 32.
Proof.
  intros Hh Hbs. revert h Hh. induction Hbs as [|b bs Hb _ IH]; intros h Hh; simpl.
  - exact Hh.
  - apply IH. apply hash_step_range. exact Hb.
Qed.

Lemma bytes_of_range key : Forall (fun b => 0 <= b < 2 ^ 32) (bytes_of key).
Proof.
  unfold bytes_of. induction (list_ascii_of_string key) as [|c l IH]; simpl.
  - constructor.
  - constructor; [apply ascii_range | exact IH].
Qed.

Lemma indexFor_spec key : indexFor key = hash_spec key.
Proof.
  unfold indexFor, hash_spec. rewrite indexFor_loop_fold by lia.
  rewrite drop_0. reflexivity.
Qed.

Lemma shardIndex_concurrency key :
  shardIndex (NewLocker concurrency) key = indexFor key mod 16.
Proof. reflexivity. Qed.

Example indexFor_foo : indexFor "foo" = 1083137555 /\ shardIndex (NewLocker concurrency) "foo" = 3.
Proof. split; vm_compute; reflexivity. Qed.

(** C6.  For every key, [indexFor] starts from 2166136261 and, for each byte of
    the key from left to right, multiplies the hash by 16777619 and then XORs
    the byte in, in 32-bit arithmetic (the result is a 32-bit value); the
    shard a base client's locker picks is that hash modulo 16, an index
    below 16; and equal keys get equal shard indices. *)
Theorem indexFor_multiply_xor_shard (key : string) :
  indexFor key =
    fold_left (fun hash b => Z.lxor ((hash * 16777619) mod 2 ^ 32) b) (bytes_of key) 2166136261
  /\ 0 <= indexFor key < 2 ^ 32
  /\ size (NewLocker concurrency) = 16
  /\ shardIndex (NewLocker concurrency) key = indexFor key mod 16
  /\ 0 <= shardIndex (NewLocker concurrency) key < 16
  /\ (forall key', key' = key ->
        shardIndex (NewLocker concurrency) key' = shardIndex (NewLocker concurrency) key).
Proof.
  assert (Hr : 0 <= indexFor key < 2 ^ 32).
  { rewrite indexFor_spec. unfold hash_spec.
    apply fold_hash_range; [lia | apply bytes_of_range]. }
  repeat split; try apply Hr.
  - rewrite indexFor_spec. reflexivity.
  - rewrite shardIndex_concurrency. apply Z.mod_pos_bound. lia.
  - rewrite shardIndex_concurrency. apply Z.mod_pos_bound. lia.
  - intros key' ->. reflexivity.
Qed.

Lemma indexFor_multiply_xor_shard_witness :
  shardIndex (NewLocker concurrency) "foo" = shardIndex (NewLocker concurrency) "foo".
Proof.
  exact (proj2 (proj2 (proj2 (proj2 (proj2 (indexFor_multiply_xor_shard "foo")))))
           "foo" eq_refl).
Defined.

End LockerFacts.

Module GrpcFacts.
Import Grpc.

Lemma metadata_lookups (t : Token) (uri : list string) :
  let m := fst (GetRequestMetadata t uri) in
  m !! "projectId" = Some (projectId t)
  /\ m !! "projectKey" = Some (projectKey t)
  /\ m !! "chainAccountAddress" = Some (chainAccountAddr t)
  /\ (forall k, k <> "projectId" -> k <> "projectKey" -> k <> "chainAccountAddress" ->
        m !! k = None).
Proof.
  unfold GetRequestMetadata, projectIdHeader, projectKeyHeader, chainAccountAddressHeader.
  cbv [fst]. split; [|split; [|split]].
  - rewrite lookup_insert_ne by done. rewrite lookup_insert_ne by done.
    apply lookup_insert_eq.
  - rewrite lookup_insert_ne by done. apply lookup_insert_eq.
  - apply lookup_insert_eq.
  - intros k H1 H2 H3. rewrite !lookup_insert_ne by congruence. apply lookup_empty.
Qed.

Lemma metadata_size (t : Token) (uri : list string) :
  size (fst (GetRequestMetadata t uri)) = 3%nat.
Proof.
  unfold GetRequestMetadata, projectIdHeader, projectKeyHeader, chainAccountAddressHeader.
  cbv [fst].
  rewrite map_size_insert_None.
  2:{ rewrite !lookup_insert_ne by done. apply lookup_empty. }
  rewrite map_size_insert_None.
  2:{ rewrite lookup_insert_ne by done. apply lookup_empty. }
  rewrite map_size_insert_None by apply lookup_empty.
  rewrite map_size_empty. reflexivity.
Qed.

(** C9.  The credential built from a project configuration answers
    [GetRequestMetadata] with a nil error and a map of exactly three entries:
    project id, project key and chain account address, each as the
    configuration has it; [RequireTransportSecurity] answers false; and the
    connection [NewGRPCClient] dials carries that credential as its only
    per-call credential, on an insecure transport. *)
Theorem token_metadata_three_fields (info : BSNProjectInfo) (uri : list string)
        (dial : string -> list DialOption -> option string) (url : string) :
  let t := NewBsnToken info in
  let m := fst (GetRequestMetadata t uri) in
  snd (GetRequestMetadata t uri) = None
  /\ m !! "projectId" = Some (ProjectId info)
  /\ m !! "projectKey" = Some (ProjectKey info)
  /\ m !! "chainAccountAddress" = Some (ChainAccountAddress info)
  /\ size m = 3%nat
  /\ RequireTransportSecurity t = false
  /\ match NewGRPCClient dial url info initGlobals with
     | (Returned _, g) =>
         exists c, fst (GenConn g) = Some c /\ perRPCCredentials c = [t] /\ insecure c = true
     | (Panicked _, g) => fst (GenConn g) = None
     end.
Proof.
  intros t m.
  destruct (metadata_lookups t uri) as (H1 & H2 & H3 & _).
  split; [reflexivity|].
  split; [exact H1|]. split; [exact H2|]. split; [exact H3|].
  split; [apply metadata_size|]. split; [reflexivity|].
  unfold NewGRPCClient. cbn [onceDone initGlobals].
  destruct (dial url _) as [err|]; cbn [GenConn clientConnSingleton fst].
  - reflexivity.
  - eexists. split; [reflexivity|]. split; reflexivity.
Qed.

End GrpcFacts.

Module BaseFacts.
Import Base.
Local Open Scope go_scope.

Section Facts.
Context `{X : Externals}.

(** A base client comes with a locker of [concurrency] shards and with the
    connection dialled for its project. *)
Lemma NewBaseClient_parts (dial : string -> list Grpc.DialOption -> option string)
      (c : ClientConfig) (base : baseClient) :
  NewBaseClient dial c Grpc.initGlobals = Grpc.Returned base ->
  cfg base = c
  /\ l base = Locker.NewLocker Locker.concurrency
  /\ exists cc,
      fst (Grpc.GenConn (conn base)) = Some cc
      /\ Grpc.perRPCCredentials cc = [Grpc.NewBsnToken (cfg_BSNProject c)]
      /\ Grpc.insecure cc = true.
Proof.
  unfold NewBaseClient, Grpc.NewGRPCClient. cbn [Grpc.onceDone Grpc.initGlobals].
  destruct (dial _ _) as [err|]; [discriminate|].
  intros [= <-]. split; [reflexivity|]. split; [reflexivity|].
  eexists. split; [reflexivity|]. split; reflexivity.
Qed.

Lemma validateMsgs_all_valid (ms : list Msg) :
  Forall (fun m => ValidateBasic m = None) ms -> validateMsgs ms = None.
Proof.
  induction 1 as [|m ms Hm _ IH]; simpl; [reflexivity|].
  rewrite Hm. exact IH.
Qed.

Lemma validateMsgs_first_invalid (pre post : list Msg) (m : Msg) (e : error) :
  Forall (fun m => ValidateBasic m = None) pre -> ValidateBasic m = Some e ->
  validateMsgs (pre ++ m :: post) = Some e.
Proof.
  intros Hpre Hm. induction Hpre as [|m' pre Hm' _ IH]; simpl.
  - rewrite Hm. reflexivity.
  - rewrite Hm'. exact IH.
Qed.

(** C4.  [SendBatch] on an empty message list returns no result and the
    error whose text is "must have at least one message in list", and
    leaves the state as it was: no call is made, so no build, no size query
    and no broadcast. *)
Theorem SendBatch_empty_list (base : baseClient) (baseTx : BaseTx) (s : St) :
  SendBatch base [] baseTx s
    = (Val ([], Some (Wrapf "must have at least one message in list")), s)
  /\ Error_text (Wrapf "must have at least one message in list")
     = "must have at least one message in list"
  /\ newEvents s (snd (SendBatch base [] baseTx s)) = [].
Proof.
  split; [reflexivity|]. split; [reflexivity|].
  cbn. unfold newEvents. apply drop_all.
Qed.

(** C5.  When some message of the list fails [ValidateBasic], [SendBatch]
    returns the error of the first such message, wrapped, and leaves the
    state as it was: no call is made for any message of the list, those
    before the invalid one included. *)
Theorem SendBatch_first_invalid (base : baseClient) (baseTx : BaseTx) (s : St)
        (pre post : list Msg) (m : Msg) (e : error) :
  Forall (fun m => ValidateBasic m = None) pre ->
  ValidateBasic m = Some e ->
  SendBatch base (pre ++ m :: post) baseTx s = (Val ([], Some (Wrap e)), s).
Proof.
  intros Hpre Hm. unfold SendBatch.
  rewrite length_app. cbn [length].
  replace (length pre + S (length post) =? 0)%nat with false
    by (symmetry; apply Nat.eqb_neq; lia).
  rewrite (validateMsgs_first_invalid pre post m e Hpre Hm). reflexivity.
Qed.

(** C10.  In [prepare], once the address and the account have been obtained,
    a caller-supplied fee that is empty or not valid is never converted: the
    configured default fee is converted in its place.  If that conversion
    fails, [prepare] panics with the conversion error, returning nothing to
    its caller; if it succeeds, [prepare] returns a build context carrying
    the converted default fee, and no error. *)
Theorem prepare_default_fee (base : baseClient) (baseTx : BaseTx) (s : St)
        (addr : string) (account : BaseAccount) (w1 w2 : World) :
  ext_QueryAddress (From baseTx) (Password baseTx) (world s) = (inl addr, w1) ->
  ext_QueryAndRefreshAccount addr w1 = (inl account, w2) ->
  Empty (Fee baseTx) = true \/ IsValid (Fee baseTx) = false ->
  newEvents s (snd (prepare base baseTx s))
    = [EvQueryAddress (From baseTx); EvQueryAccount addr; EvToMinCoin (cfg_Fee (cfg base))]
  /\ (forall err w3,
        ext_ToMinCoin (cfg_Fee (cfg base)) w2 = (inr err, w3) ->
        fst (prepare base baseTx s) = Panic err)
  /\ (forall fees w3,
        ext_ToMinCoin (cfg_Fee (cfg base)) w2 = (inl fees, w3) ->
        exists factory,
          fst (prepare base baseTx s) = Val (inl factory) /\ fFee factory = fees).
Proof.
  intros Ha Hacc Hfee.
  assert (Hcond : negb (Empty (Fee baseTx)) && IsValid (Fee baseTx) = false).
  { destruct Hfee as [-> | ->]; [reflexivity | apply andb_false_r]. }
  unfold prepare, mbind, QueryAddress, QueryAndRefreshAccount, ToMinCoin, mret, mpanic, record.
  rewrite Ha. simpl. rewrite Hacc. simpl. rewrite Hcond.
  destruct (ext_ToMinCoin (cfg_Fee (cfg base)) w2) as [[fees|err] w3] eqn:Hmin;
    simpl; rewrite ?Hmin; simpl.
  - split; [|split].
    + unfold newEvents. rewrite <- !app_assoc. apply drop_app_length.
    + intros err w3' [=].
    + intros fees' w3' [= <- <-]. eexists. split; [reflexivity|].
      repeat match goal with |- context [if ?c then _ else _] => destruct c end;
        reflexivity.
  - split; [|split].
    + unfold newEvents. rewrite <- !app_assoc. apply drop_app_length.
    + intros err' w3' [= <- <-]. reflexivity.
    + intros fees' w3' [=].
Qed.

(** *** The retry loop *)

Lemma retry_loop_unfold {S} (cfg : Config S) (f : M S (option error))
      (fuel n idx : nat) (log : list (option error)) (s : S) :
  retry_loop cfg f (Datatypes.S fuel) n idx log s =
    if (n <? attempts cfg)%nat then
      match f s with
      | (Panic v, s1) => (Panic v, s1)
      | (Val None, s1) => (Val None, s1)
      | (Val (Some e), s1) =>
          if negb (retryIf cfg e)
          then (Val (retry_result cfg (<[idx := Some e]> log) idx), s1)
          else
            match onRetry cfg n e s1 with
            | (Panic v, s2) => (Panic v, s2)
            | (Val _, s2) =>
                if (n =? attempts cfg - 1)%nat
                then (Val (retry_result cfg (<[idx := Some e]> log) idx), s2)
                else retry_loop cfg f fuel (Datatypes.S n)
                       (if lastErrorOnly cfg then idx else Datatypes.S n)
                       (<[idx := Some e]> log) s2
            end
      end
    else (Val (retry_result cfg log idx), s).
Proof.
  cbn [retry_loop]. destruct (n <? attempts cfg)%nat; [|reflexivity].
  unfold mbind, mret. destruct (f s) as [[[e|]|v] s1]; try reflexivity.
  destruct (negb (retryIf cfg e)); [reflexivity|].
  destruct (onRetry cfg n e s1) as [[[]|v] s2]; try reflexivity.
  destruct (n =? attempts cfg - 1)%nat; reflexivity.
Qed.

(** A rule for the loop of [retry.Do]: [P n] holds when attempt [n] starts,
    [Q n] when the retried function has run for the [n]-th time.  The loop
    ends in a state satisfying one of them, for an attempt number within the
    limit. *)
Lemma retry_loop_rule {S} (cfg : Config S) (f : M S (option error))
      (P Q : nat -> S -> Prop) :
  (forall n s, (n < attempts cfg)%nat -> P n s -> Q n (snd (f s))) ->
  (forall n e s, (n < attempts cfg)%nat -> Q n s ->
                 P (Datatypes.S n) (snd (onRetry cfg n e s))) ->
  forall fuel n idx log s,
    (n <= attempts cfg)%nat -> P n s ->
    exists m, ((m < attempts cfg)%nat /\ Q m (snd (retry_loop cfg f fuel n idx log s)))
              \/ ((m <= attempts cfg)%nat /\ P m (snd (retry_loop cfg f fuel n idx log s))).
Proof.
  intros Hf Hretry. induction fuel as [|fuel IH]; intros n idx log s Hn HP.
  - exists n. right. split; assumption.
  - rewrite retry_loop_unfold.
    destruct (Nat.ltb_spec n (attempts cfg)) as [Hlt|Hge].
    2:{ exists n. right. split; assumption. }
    pose proof (Hf n s Hlt HP) as HQ.
    destruct (f s) as [[[e|]|v] s1]; cbn [snd] in HQ |- *.
    + destruct (negb (retryIf cfg e)).
      * exists n. left. split; assumption.
      * pose proof (Hretry n e s1 Hlt HQ) as HP'.
        destruct (onRetry cfg n e s1) as [[[]|v] s2]; cbn [snd] in HP' |- *.
        -- destruct (n =? attempts cfg - 1)%nat.
           ++ exists (Datatypes.S n). right. split; [lia | exact HP'].
           ++ apply IH; [lia | exact HP'].
        -- exists (Datatypes.S n). right. split; [lia | exact HP'].
    + exists n. left. split; assumption.
    + exists n. left. split; assumption.
Qed.

(** The rule, for [retry.Do] itself. *)
Lemma retry_Do_rule {S} (cfg : Config S) (f : M S (option error))
      (P Q : nat -> S -> Prop) (s : S) :
  (forall n s, (n < attempts cfg)%nat -> P n s -> Q n (snd (f s))) ->
  (forall n e s, (n < attempts cfg)%nat -> Q n s ->
                 P (Datatypes.S n) (snd (onRetry cfg n e s))) ->
  P O s ->
  exists m, ((m < attempts cfg)%nat /\ Q m (snd (retry_Do cfg f s)))
            \/ ((m <= attempts cfg)%nat /\ P m (snd (retry_Do cfg f s))).
Proof.
  intros Hf Hretry HP. unfold retry_Do.
  apply (retry_loop_rule cfg f P Q Hf Hretry); [lia | exact HP].
Qed.

(** *** Traces *)

Lemma partitionSizes_app (a b : list Event) :
  partitionSizes (a ++ b) = partitionSizes a ++ partitionSizes b.
Proof. unfold partitionSizes. apply omap_app. Qed.

Lemma newEvents_app (s s' : St) (evs : list Event) :
  trace s' = trace s ++ evs -> newEvents s s' = evs.
Proof. intros H. unfold newEvents. rewrite H. apply drop_app_length. Qed.

(** [ValidateTxSize] adds at most the size query to the trace. *)
Lemma ValidateTxSize_trace (base : baseClient) (txSize : Z) (mss : list Msg) (s : St) :
  exists evs,
    trace (snd (ValidateTxSize base txSize mss s)) = trace s ++ evs
    /\ partitionSizes evs = [] /\ failures evs = [].
Proof.
  unfold ValidateTxSize.
  destruct (existsb _ mss).
  - unfold Grpc.GenConn, mbind, serviceParams, mret, record.
    destruct (ext_serviceParams _ (world s)) as [[lim|e] w]; cbn.
    + destruct (uint64 txSize >? lim); cbn; eexists; (split; [reflexivity|]); split; reflexivity.
    + eexists; (split; [reflexivity|]); split; reflexivity.
  - exists []. cbn. rewrite app_nil_r. repeat split.
Qed.

Lemma pass_ok_refl v s : pass_ok v s v s.
Proof.
  split; [|split].
  - exists []. rewrite app_nil_r. split; reflexivity.
  - left. reflexivity.
  - exists []. rewrite app_nil_r. reflexivity.
Qed.

Lemma pass_ok_quiet v s v' s' evs :
  trace s' = trace s ++ evs -> partitionSizes evs = [] ->
  (batch v' = batch v \/ batch v' = Z.quot (batch v) 2) ->
  (exists more, rs v' = rs v ++ more) ->
  pass_ok v s v' s'.
Proof. intros H1 H2 H3 H4. split; [eauto|]. split; assumption. Qed.

Lemma sendGroups_pass (base : baseClient) (baseTx : BaseTx) (groups : list (list Msg)) :
  forall i v s r v' s',
    sendGroups base baseTx groups i (v, s) = (r, (v', s')) -> pass_ok v s v' s'.
Proof.
  induction groups as [|mss rest IH]; intros i v s r v' s' H.
  - injection H as <- <- <-. apply pass_ok_refl.
  - cbn [sendGroups] in H. unfold mbind, lift, buildTx, getL, putL, mret in H.
    simpl in H.
    destruct (ext_buildTx mss baseTx (world s)) as [[txByte ctx|e|e] w].
    2,3: (injection H as <- <- <-;
          eapply pass_ok_quiet;
          [reflexivity | reflexivity | left; reflexivity
          | exists []; rewrite app_nil_r; reflexivity]).
    set (s1 := record (EvBuildTx mss (Built txByte ctx)) w s) in H.
    destruct (ValidateTxSize_trace base (Z.of_nat (length txByte)) mss s1)
      as (evs & Htr & Hq & _).
    assert (Htr1 : trace s1 = trace s ++ [EvBuildTx mss (Built txByte ctx)]) by reflexivity.
    clearbody s1. rewrite Htr1 in Htr. clear Htr1.
    destruct (ValidateTxSize base (Z.of_nat (length txByte)) mss s1)
      as [[[valid [e|]]|e] s2] eqn:EV; simpl in Htr, H.
    all: try rewrite EV in H.
    + assert (H' : (Val (Some e), (v, s2)) = (r, (v', s'))) by (destruct valid; exact H).
      clear H. injection H' as <- <- <-.
      eapply pass_ok_quiet; [rewrite Htr, <- app_assoc; reflexivity | | left; reflexivity
                            | exists []; rewrite app_nil_r; reflexivity].
      rewrite partitionSizes_app, Hq. reflexivity.
    + destruct valid.
      * unfold broadcastTx in H. cbn [fst snd] in H.
        destruct (ext_broadcastTx txByte (FactoryMode ctx) (world s2))
          as [[r0 [e|]] w'] eqn:EB.
        all: try rewrite EB in H.
        all: simpl in H.
        -- injection H as <- <- <-.
           eapply pass_ok_quiet;
             [cbn [trace record]; rewrite Htr, <- !app_assoc; reflexivity | | left; reflexivity
             | exists []; rewrite app_nil_r; reflexivity].
           rewrite !partitionSizes_app, Hq. reflexivity.
        -- apply IH in H. destruct H as ((evs' & Htr' & Hq') & Hb & (more & Hrs)).
           cbn [batch rs trace record] in *.
           eapply pass_ok_quiet;
             [rewrite Htr', Htr, <- !app_assoc; reflexivity | | exact Hb
             | exists ([r0] ++ more); rewrite Hrs, <- app_assoc; reflexivity].
           rewrite !partitionSizes_app, Hq, Hq'. reflexivity.
      * unfold sliceFrom, mpanic, mret in H. cbn [fst snd] in H.
        destruct ((i * batch v <? 0) || (Z.of_nat (length (msgs v)) <? i * batch v))
          eqn:ES.
        all: try rewrite ES in H.
        all: simpl in H; injection H as <- <- <-.
        -- eapply pass_ok_quiet; [rewrite Htr, <- app_assoc; reflexivity | | left; reflexivity
                                 | exists []; rewrite app_nil_r; reflexivity].
           rewrite partitionSizes_app, Hq. reflexivity.
        -- eapply pass_ok_quiet; [rewrite Htr, <- app_assoc; reflexivity | | right; reflexivity
                                 | exists []; rewrite app_nil_r; reflexivity].
           rewrite partitionSizes_app, Hq. reflexivity.
    + injection H as <- <- <-.
      eapply pass_ok_quiet; [rewrite Htr, <- app_assoc; reflexivity | | left; reflexivity
                            | exists []; rewrite app_nil_r; reflexivity].
      rewrite partitionSizes_app, Hq. reflexivity.
Qed.

(** *** Group sizes of [SendBatch] *)

Lemma halving_snoc (l : list Z) (a b : Z) :
  halving (l ++ [a]) -> (b = a \/ b = Z.quot a 2) -> halving ((l ++ [a]) ++ [b]).
Proof.
  intros Hl Hb. induction l as [|x l IH].
  - cbn. split; [exact Hb | exact I].
  - destruct l as [|y l].
    + cbn in Hl |- *. destruct Hl as [Hxa _]. repeat split; assumption.
    + cbn [app halving] in Hl |- *. destruct Hl as [Hxy Hl].
      split; [exact Hxy | apply IH; exact Hl].
Qed.

Lemma halving_prefix (l : list Z) (a : Z) : halving (l ++ [a]) -> halving l.
Proof.
  induction l as [|x l IH]; intros H; [exact I|].
  destruct l as [|y l]; [exact I|].
  cbn [app halving] in H |- *. destruct H as [Hxy H].
  split; [exact Hxy | apply IH; exact H].
Qed.

Lemma head_snoc_snoc (l : list Z) (a b : Z) : head ((l ++ [a]) ++ [b]) = head (l ++ [a]).
Proof. destruct l; reflexivity. Qed.

(** The group sizes of the attempts made so far ([sizes]) and the value of
    [batch]: they start at [maxBatch], and each is the one before it or half
    of it. *)
Lemma sizes_floor (sizes : list Z) (b : Z) :
  (length sizes <= 3)%nat -> halving (sizes ++ [b]) -> head (sizes ++ [b]) = Some maxBatch ->
  Forall (fun x => 25 <= x <= 100) sizes /\ 12 <= b <= 100.
Proof.
  intros Hlen Hh Hhead. unfold maxBatch in Hhead.
  destruct sizes as [|x1 [|x2 [|x3 [|x4 rest]]]]; cbn in Hlen, Hh, Hhead; try lia.
  - injection Hhead as ->. split; [constructor | lia].
  - injection Hhead as ->. destruct Hh as [Hb _].
    split; [repeat constructor; lia|].
    destruct Hb as [-> | ->]; vm_compute; split; discriminate.
  - injection Hhead as ->. destruct Hh as (H2 & Hb & _).
    destruct H2 as [-> | ->]; destruct Hb as [-> | ->];
      (split; [repeat constructor; vm_compute; discriminate
              | vm_compute; split; discriminate]).
  - injection Hhead as ->. destruct Hh as (H2 & H3 & Hb & _).
    destruct H2 as [-> | ->]; destruct H3 as [-> | ->]; destruct Hb as [-> | ->];
      (split; [repeat constructor; vm_compute; discriminate
              | vm_compute; split; discriminate]).
Qed.

Lemma batch_retryableFunc_pass (base : baseClient) (baseTx : BaseTx) v s r v' s' :
  batch_retryableFunc base baseTx (v, s) = (r, (v', s')) ->
  exists evs,
    trace s' = trace s ++ EvSubArray (batch v) (SubArray (batch v) (msgs v)) :: evs
    /\ partitionSizes evs = []
    /\ (batch v' = batch v \/ batch v' = Z.quot (batch v) 2)
    /\ (exists more, rs v' = rs v ++ more).
Proof.
  intros H. unfold batch_retryableFunc, mbind, getL, lift in H. cbn [fst snd] in H.
  apply sendGroups_pass in H. destruct H as ((evs & Htr & Hq) & Hb & Hrs).
  exists evs. cbn [trace record] in Htr. rewrite <- app_assoc in Htr.
  split; [exact Htr|]. split; [exact Hq|]. split; assumption.
Qed.

Lemma partitionSizes_SubArray (b : Z) (g : list (list Msg)) (evs : list Event) :
  partitionSizes (EvSubArray b g :: evs) = b :: partitionSizes evs.
Proof. reflexivity. Qed.

(** The state of the batch loop after [n] attempts, seen from the state [s]
    in which [SendBatch] was called. *)
Lemma batch_run_sizes (base : baseClient) (msgs0 : list Msg) (baseTx : BaseTx) (s : St) :
  let run := retry_Do batch_config (batch_retryableFunc base baseTx)
                      (batch_vars msgs0, Lock (l base) (From baseTx) s) in
  exists evs,
    trace (snd (snd run)) = trace s ++ evs
    /\ (length (partitionSizes evs) <= 3)%nat
    /\ halving (partitionSizes evs ++ [batch (fst (snd run))])
    /\ head (partitionSizes evs ++ [batch (fst (snd run))]) = Some maxBatch.
Proof.
  intros run.
  set (inv := fun (k : nat) (vs : BatchVars * St) =>
                exists evs,
                  trace (snd vs) = trace s ++ evs
                  /\ length (partitionSizes evs) = k
                  /\ halving (partitionSizes evs ++ [batch (fst vs)])
                  /\ head (partitionSizes evs ++ [batch (fst vs)]) = Some maxBatch).
  destruct (retry_Do_rule batch_config (batch_retryableFunc base baseTx)
              inv (fun n => inv (Datatypes.S n))
              (batch_vars msgs0, Lock (l base) (From baseTx) s)) as (m & Hfin).
  - intros n [v st] _ (evs & Htr & Hlen & Hh & Hhd). cbn [fst snd] in *.
    destruct (batch_retryableFunc base baseTx (v, st)) as [r [v' st']] eqn:E.
    apply batch_retryableFunc_pass in E.
    destruct E as (evs' & Htr' & Hq & Hb & _).
    exists (evs ++ EvSubArray (batch v) (SubArray (batch v) (msgs v)) :: evs').
    cbn [fst snd].
    split; [rewrite Htr', Htr, <- app_assoc; reflexivity|].
    rewrite partitionSizes_app, partitionSizes_SubArray, Hq.
    rewrite length_app. cbn [length]. split; [lia|].
    split.
    + apply halving_snoc; [exact Hh|]. destruct Hb as [-> | ->]; auto.
    + rewrite head_snoc_snoc. exact Hhd.
  - intros n e [v st] _ (evs & Htr & Hlen & Hh & Hhd). cbn [fst snd] in *.
    exists (evs ++ [EvRemoveCache (batchAddress v)]).
    cbn. split; [rewrite Htr, <- app_assoc; reflexivity|].
    rewrite partitionSizes_app. cbn. rewrite app_nil_r.
    split; [exact Hlen|]. split; assumption.
  - exists [EvLock (Locker.shardIndex (l base) (From baseTx))].
    cbn. repeat split.
  - fold run in Hfin.
    destruct Hfin as [(Hm & evs & Htr & Hlen & Hh & Hhd) | (Hm & evs & Htr & Hlen & Hh & Hhd)];
      exists evs; change (attempts batch_config) with 3%nat in Hm;
      (split; [exact Htr|]); (split; [lia|]); split; assumption.
Qed.

Lemma app_cut {A} (a b pre post : list A) (x : A) :
  a ++ b = pre ++ x :: post ->
  (exists post1, a = pre ++ x :: post1 /\ post = post1 ++ b)
  \/ (exists pre2, pre = a ++ pre2 /\ b = pre2 ++ x :: post).
Proof.
  revert pre. induction a as [|y a IH]; intros pre H.
  - right. exists pre. split; [reflexivity | exact H].
  - destruct pre as [|z pre]; cbn in H; injection H as -> H.
    + left. exists a. split; [reflexivity | symmetry; exact H].
    + destruct (IH pre H) as [(post1 & -> & ->) | (pre2 & -> & ->)].
      * left. exists post1. split; reflexivity.
      * right. exists pre2. split; reflexivity.
Qed.

(** A rule for the loop of [retry.Do] that sees what the retried function
    returned: [P n] holds when attempt [n] starts, [Q n r] when it has
    returned [r].  The loop ends after an attempt whose result stops it, or
    after [onRetry], or without having run. *)
Lemma retry_loop_rule_result {S} (cfg : Config S) (f : M S (option error))
      (P : nat -> S -> Prop) (Q : nat -> Res (option error) -> S -> Prop) :
  (forall n s, (n < attempts cfg)%nat -> P n s -> Q n (fst (f s)) (snd (f s))) ->
  (forall n e s, (n < attempts cfg)%nat -> Q n (Val (Some e)) s -> retryIf cfg e = true ->
                 P (Datatypes.S n) (snd (onRetry cfg n e s))) ->
  forall fuel n idx log s,
    (n <= attempts cfg)%nat -> P n s ->
    (exists m r, (m < attempts cfg)%nat
                 /\ Q m r (snd (retry_loop cfg f fuel n idx log s)) /\ stops cfg r)
    \/ (exists m, (m <= attempts cfg)%nat /\ P m (snd (retry_loop cfg f fuel n idx log s))).
Proof.
  intros Hf Hretry. induction fuel as [|fuel IH]; intros n idx log s Hn HP.
  - right. exists n. split; assumption.
  - rewrite retry_loop_unfold.
    destruct (Nat.ltb_spec n (attempts cfg)) as [Hlt|Hge].
    2:{ right. exists n. split; assumption. }
    pose proof (Hf n s Hlt HP) as HQ.
    destruct (f s) as [[[e|]|v] s1]; cbn [fst snd] in HQ |- *.
    + destruct (retryIf cfg e) eqn:Hif; cbn [negb].
      * pose proof (Hretry n e s1 Hlt HQ Hif) as HP'.
        destruct (onRetry cfg n e s1) as [[[]|v] s2]; cbn [snd] in HP' |- *.
        -- destruct (n =? attempts cfg - 1)%nat.
           ++ right. exists (Datatypes.S n). split; [lia | exact HP'].
           ++ apply IH; [lia | exact HP'].
        -- right. exists (Datatypes.S n). split; [lia | exact HP'].
      * left. exists n, (Val (Some e)). split; [exact Hlt|]. split; [exact HQ | exact Hif].
    + left. exists n, (Val None). split; [exact Hlt|]. split; [exact HQ | exact I].
    + left. exists n, (Panic v). split; [exact Hlt|]. split; [exact HQ | exact I].
Qed.

(** [ValidateTxSize] on the bytes just built: what it adds to the trace is
    no partition, and the scan of it halves the size exactly when the
    verdict is that the transaction is too large. *)
Lemma ValidateTxSize_resize (base : baseClient) (txByte : list Byte.byte) (mss : list Msg)
      (s : St) :
  exists evs,
    trace (snd (ValidateTxSize base (Z.of_nat (length txByte)) mss s)) = trace s ++ evs
    /\ partitionSizes evs = []
    /\ forall b,
        fold_left resize evs (txByte, b)
        = (txByte,
           match fst (ValidateTxSize base (Z.of_nat (length txByte)) mss s) with
           | Val (false, None) => Z.quot b 2
           | _ => b
           end).
Proof.
  unfold ValidateTxSize.
  destruct (existsb _ mss).
  - unfold Grpc.GenConn, mbind, serviceParams, mret, record.
    destruct (ext_serviceParams _ (world s)) as [[lim|e] w]; cbn.
    + destruct (uint64 (Z.of_nat (length txByte)) >? lim) eqn:E; cbn;
        exists [EvTxSizeLimit (inl lim)];
        (split; [reflexivity|]); (split; [reflexivity|]);
        intros b; cbn; rewrite E; reflexivity.
    + exists [EvTxSizeLimit (inr e)].
      split; [reflexivity|]. split; [reflexivity|]. intros b. reflexivity.
  - exists []. cbn. rewrite app_nil_r.
    split; [reflexivity|]. split; [reflexivity|]. intros b. reflexivity.
Qed.

(** A pass over the groups makes no partition, and unless it panics it
    leaves in [batch] what the scan of its calls gives: half the size when
    it ended on a group found too large, the size as it was otherwise. *)
Lemma sendGroups_sized (base : baseClient) (baseTx : BaseTx) (groups : list (list Msg)) :
  forall i v s r v' s',
    sendGroups base baseTx groups i (v, s) = (r, (v', s')) ->
    exists evs,
      trace s' = trace s ++ evs
      /\ partitionSizes evs = []
      /\ ((exists p, r = Panic p)
          \/ forall t0, snd (fold_left resize evs (t0, batch v)) = batch v').
Proof.
  induction groups as [|mss rest IH]; intros i v s r v' s' H.
  - injection H as <- <- <-. exists []. rewrite !app_nil_r.
    split; [reflexivity|]. split; [reflexivity|]. right. reflexivity.
  - cbn [sendGroups] in H. unfold mbind, lift, buildTx, getL, putL, mret in H.
    cbn [fst snd] in H.
    destruct (ext_buildTx mss baseTx (world s)) as [[txByte ctx|e|e] w].
    + set (s1 := record (EvBuildTx mss (Built txByte ctx)) w s) in H.
      destruct (ValidateTxSize_resize base txByte mss s1) as (evs & Htr & Hps & Hfold).
      assert (Htr1 : trace s1 = trace s ++ [EvBuildTx mss (Built txByte ctx)])
        by reflexivity.
      clearbody s1. rewrite Htr1, <- app_assoc in Htr. clear Htr1.
      assert (Hq : partitionSizes ([EvBuildTx mss (Built txByte ctx)] ++ evs) = [])
        by exact Hps.
      assert (Hscan : forall t0 b,
                 fold_left resize ([EvBuildTx mss (Built txByte ctx)] ++ evs) (t0, b)
                 = fold_left resize evs (txByte, b)) by reflexivity.
      set (pfx := [EvBuildTx mss (Built txByte ctx)] ++ evs) in *. clearbody pfx.
      destruct (ValidateTxSize base (Z.of_nat (length txByte)) mss s1)
        as [[[valid [e|]]|e] s2] eqn:EV; cbn [fst snd] in Htr, Hfold, H.
      all: try rewrite EV in H.
      * assert (H' : (Val (Some e), (v, s2)) = (r, (v', s'))) by (destruct valid; exact H).
        clear H. injection H' as <- <- <-.
        exists pfx. split; [exact Htr|]. split; [exact Hq|]. right.
        intros t0. rewrite Hscan, Hfold. destruct valid; reflexivity.
      * destruct valid.
        -- unfold broadcastTx in H. cbn [fst snd] in H.
           destruct (ext_broadcastTx txByte (FactoryMode ctx) (world s2))
             as [[r0 [e|]] w'] eqn:EB.
           all: try rewrite EB in H.
           all: simpl in H.
           ++ injection H as <- <- <-.
              exists (pfx ++ [EvBroadcastTx txByte (FactoryMode ctx) r0 (Some e)]).
              split; [cbn [trace record]; rewrite Htr, <- !app_assoc; reflexivity|].
              split; [rewrite partitionSizes_app, Hq; reflexivity|]. right.
              intros t0. rewrite fold_left_app, Hscan, Hfold. reflexivity.
           ++ apply IH in H. destruct H as (evs' & Htr' & Hps' & Hcase).
              cbn [batch rs trace record] in *.
              exists ((pfx ++ [EvBroadcastTx txByte (FactoryMode ctx) r0 None]) ++ evs').
              split; [rewrite Htr', Htr, <- !app_assoc; reflexivity|].
              split; [rewrite !partitionSizes_app, Hq, Hps'; reflexivity|].
              destruct Hcase as [Hp | Hb]; [left; exact Hp | right].
              intros t0. rewrite !fold_left_app, Hscan, Hfold. cbn. apply Hb.
        -- unfold sliceFrom, mpanic, mret in H. cbn [fst snd] in H.
           destruct ((i * batch v <? 0) || (Z.of_nat (length (msgs v)) <? i * batch v))
             eqn:ES.
           all: try rewrite ES in H.
           all: simpl in H; injection H as <- <- <-.
           ++ exists pfx. split; [exact Htr|]. split; [exact Hq|].
              left. eexists. reflexivity.
           ++ exists pfx. split; [exact Htr|]. split; [exact Hq|]. right.
              intros t0. rewrite Hscan, Hfold. reflexivity.
      * injection H as <- <- <-.
        exists pfx. split; [exact Htr|]. split; [exact Hq|].
        left. eexists. reflexivity.
    + injection H as <- <- <-.
      exists [EvBuildTx mss (BuildFailed e)].
      split; [reflexivity|]. split; [reflexivity|]. right. reflexivity.
    + injection H as <- <- <-.
      exists [EvBuildTx mss (BuildPanicked e)].
      split; [reflexivity|]. split; [reflexivity|]. left. eexists. reflexivity.
Qed.

Lemma no_partition (evs pre post : list Event) (b : Z) (g : list (list Msg)) :
  partitionSizes evs = [] -> evs = pre ++ EvSubArray b g :: post -> False.
Proof.
  intros Hnone ->. rewrite partitionSizes_app in Hnone. cbn in Hnone.
  destruct (partitionSizes pre); discriminate.
Qed.

(** The loop of [SendBatch]: every partition is made with the size the scan
    of the calls before it gives. *)
Lemma batch_run_sized (base : baseClient) (msgs0 : list Msg) (baseTx : BaseTx) (s : St) :
  let fin := retry_Do batch_config (batch_retryableFunc base baseTx)
                      (batch_vars msgs0, Lock (l base) (From baseTx) s) in
  exists evs,
    trace (snd (snd fin))
    = trace s ++ EvLock (Locker.shardIndex (l base) (From baseTx)) :: evs
    /\ forall pre b g post, evs = pre ++ EvSubArray b g :: post -> b = sized pre.
Proof.
  intros fin.
  set (k := Locker.shardIndex (l base) (From baseTx)) in *.
  set (ok := fun evs : list Event =>
               forall pre b g post, evs = pre ++ EvSubArray b g :: post -> b = sized pre).
  set (P := fun (n : nat) (vs : BatchVars * St) =>
              exists evs,
                trace (snd vs) = trace s ++ EvLock k :: evs
                /\ batch (fst vs) = sized evs /\ ok evs).
  set (Q := fun (n : nat) (r : Res (option error)) (vs : BatchVars * St) =>
              exists evs,
                trace (snd vs) = trace s ++ EvLock k :: evs
                /\ ok evs /\ ((exists p, r = Panic p) \/ batch (fst vs) = sized evs)).
  destruct (retry_loop_rule_result batch_config (batch_retryableFunc base baseTx) P Q)
    with (fuel := attempts batch_config) (n := 0%nat) (idx := 0%nat)
         (log := replicate (if lastErrorOnly batch_config then 1%nat
                            else attempts batch_config) (@None error))
         (s := (batch_vars msgs0, Lock (l base) (From baseTx) s))
    as [(m & r & _ & HQ & _) | (m & _ & HP)].
  - intros n [v st] _ (evs & Htr & Hb & Hok). cbn [fst snd] in *.
    destruct (batch_retryableFunc base baseTx (v, st)) as [r [v' st']] eqn:E.
    unfold batch_retryableFunc, mbind, getL, lift in E. cbn [fst snd] in E.
    apply sendGroups_sized in E. destruct E as (evs' & Htr' & Hps & Hcase).
    cbn [trace record] in Htr'. rewrite <- app_assoc in Htr'.
    set (sub := EvSubArray (batch v) (SubArray (batch v) (msgs v))) in *.
    exists (evs ++ [sub] ++ evs'). cbn [fst snd].
    split; [rewrite Htr', Htr, <- app_assoc; reflexivity|]. split.
    + intros pre b g post Hcut.
      destruct (app_cut _ _ _ _ _ Hcut) as [(post1 & Heq & _) | (pre2 & Hpre & Heq)].
      * exact (Hok _ _ _ _ Heq).
      * destruct pre2 as [|y pre2]; cbn [app] in Heq.
        -- subst sub. injection Heq as <- _ _. rewrite app_nil_r in Hpre. subst pre.
           exact Hb.
        -- exfalso. injection Heq as _ Heq. exact (no_partition _ _ _ _ _ Hps Heq).
    + destruct Hcase as [Hp | Hscan]; [left; exact Hp | right].
      unfold sized. rewrite !fold_left_app. cbn [fold_left].
      unfold sized in Hb.
      destruct (fold_left resize evs ([], maxBatch)) as [t0 b0] eqn:Ef. cbn [snd] in Hb.
      subst b0. subst sub. cbn [resize]. symmetry. apply Hscan.
  - intros n e [v st] _ (evs & Htr & Hok & Hcase) _. cbn [fst snd] in *.
    destruct Hcase as [(p & [=]) | Hb].
    exists (evs ++ [EvRemoveCache (batchAddress v)]). cbn.
    split; [rewrite Htr, <- app_assoc; reflexivity|]. split.
    + unfold sized. rewrite fold_left_app. cbn. exact Hb.
    + intros pre b g post Hcut.
      destruct (app_cut _ _ _ _ _ Hcut) as [(post1 & Heq & _) | (pre2 & _ & Heq)].
      * exact (Hok _ _ _ _ Heq).
      * destruct pre2 as [|y pre2]; cbn in Heq; [discriminate Heq|].
        injection Heq as _ Heq. destruct pre2; discriminate Heq.
  - lia.
  - exists []. cbn. split; [reflexivity|]. split; [reflexivity|].
    intros pre b g post Hcut. destruct pre; discriminate Hcut.
  - destruct HQ as (evs & Htr & Hok & _). exists evs. split; assumption.
  - destruct HP as (evs & Htr & _ & Hok). exists evs. split; assumption.
Qed.

(** C7.  In every run of [SendBatch], the group sizes with which the
    messages are partitioned start at [maxBatch], each later one is the one
    before it or half of it, there are at most three of them, and none is
    below 1 (none is below 25); the variable [batch] itself ends at 12 or
    more.  The size of each partition is [maxBatch] halved once for each
    group found too large before it; in particular the partition that
    follows a group found too large is made with half the size that was in
    force. *)
Theorem SendBatch_group_size_at_least_one
        (base : baseClient) (msgs0 : list Msg) (baseTx : BaseTx) (s : St) :
  let evs := newEvents s (snd (SendBatch base msgs0 baseTx s)) in
  let sizes := partitionSizes evs in
  let run := retry_Do batch_config (batch_retryableFunc base baseTx)
                      (batch_vars msgs0, Lock (l base) (From baseTx) s) in
  Forall (fun b => 1 <= b) sizes
  /\ halving sizes
  /\ (sizes = [] \/ head sizes = Some maxBatch)
  /\ (length sizes <= 3)%nat
  /\ 1 <= batch (fst (snd run))
  /\ (forall pre b g post, evs = pre ++ EvSubArray b g :: post -> b = sized pre)
  /\ (forall pre m txByte ctx TxSizeLimit a b g post,
        evs = pre ++ EvBuildTx m (Built txByte ctx) :: EvTxSizeLimit (inl TxSizeLimit)
                  :: EvRemoveCache a :: EvSubArray b g :: post ->
        uint64 (Z.of_nat (length txByte)) > TxSizeLimit ->
        b = Z.quot (sized pre) 2).
Proof.
  intros evs sizes run.
  assert (Hsized : forall pre b g post, evs = pre ++ EvSubArray b g :: post -> b = sized pre).
  { subst evs. intros pre b g post Hcut.
    destruct (batch_run_sized base msgs0 baseTx s) as (evs & Htr & Hok).
    revert Hcut. unfold SendBatch.
    destruct (length msgs0 =? 0)%nat.
    { cbn [snd]. unfold newEvents. rewrite drop_all. destruct pre; discriminate. }
    destruct (validateMsgs msgs0).
    { cbn [snd]. unfold newEvents. rewrite drop_all. destruct pre; discriminate. }
    destruct (retry_Do batch_config (batch_retryableFunc base baseTx) _) as [out [v' s2]].
    cbn [fst snd] in Htr. intros Hcut.
    assert (Hnew : newEvents s (Unlock (l base) (From baseTx) s2)
                   = EvLock (Locker.shardIndex (l base) (From baseTx))
                       :: evs ++ [EvUnlock (Locker.shardIndex (l base) (From baseTx))]).
    { apply newEvents_app. cbn. rewrite Htr, <- app_assoc. reflexivity. }
    assert (Hcut' : EvLock (Locker.shardIndex (l base) (From baseTx))
                      :: evs ++ [EvUnlock (Locker.shardIndex (l base) (From baseTx))]
                    = pre ++ EvSubArray b g :: post).
    { rewrite <- Hnew. destruct out; exact Hcut. }
    clear Hcut Hnew.
    destruct pre as [|x pre]; cbn in Hcut'; [discriminate Hcut'|].
    injection Hcut' as <- Hcut'.
    destruct (app_cut _ _ _ _ _ Hcut') as [(post1 & Heq & _) | (pre2 & _ & Heq)].
    - rewrite (Hok _ _ _ _ Heq). reflexivity.
    - destruct pre2 as [|y pre2]; cbn in Heq; [discriminate Heq|].
      injection Heq as _ Heq. destruct pre2; discriminate Heq. }
  destruct (batch_run_sizes base msgs0 baseTx s) as (evs0 & Htr & Hlen & Hh & Hhd).
  fold run in Htr, Hh, Hhd.
  destruct (sizes_floor _ _ Hlen Hh Hhd) as [Hall Hb].
  assert (Hsizes : sizes = [] \/ sizes = partitionSizes evs0).
  { subst sizes evs. unfold SendBatch.
    destruct (length msgs0 =? 0)%nat.
    { left. cbn [snd]. unfold newEvents. rewrite drop_all. reflexivity. }
    destruct (validateMsgs msgs0).
    { left. cbn [snd]. unfold newEvents. rewrite drop_all. reflexivity. }
    right. fold run. destruct run as [out [v' s2]]. cbn [fst snd] in Htr.
    assert (Hnew : newEvents s (Unlock (l base) (From baseTx) s2)
                   = evs0 ++ [EvUnlock (Locker.shardIndex (l base) (From baseTx))]).
    { apply newEvents_app. cbn. rewrite Htr, <- app_assoc. reflexivity. }
    destruct out; cbn [snd]; rewrite Hnew, partitionSizes_app; cbn; apply app_nil_r. }
  assert (Hhalf : forall pre m txByte ctx TxSizeLimit a b g post,
             evs = pre ++ EvBuildTx m (Built txByte ctx) :: EvTxSizeLimit (inl TxSizeLimit)
                       :: EvRemoveCache a :: EvSubArray b g :: post ->
             uint64 (Z.of_nat (length txByte)) > TxSizeLimit ->
             b = Z.quot (sized pre) 2).
  { intros pre m txByte ctx lim a b g post Hcut Hgt.
    rewrite (Hsized (pre ++ [EvBuildTx m (Built txByte ctx); EvTxSizeLimit (inl lim);
                             EvRemoveCache a]) b g post)
      by (rewrite <- app_assoc; exact Hcut).
    unfold sized. rewrite fold_left_app. cbn.
    replace (uint64 (Z.of_nat (length txByte)) >? lim) with true
      by (symmetry; apply Z.gtb_lt; lia).
    reflexivity. }
  destruct Hsizes as [-> | ->].
  - split; [constructor|]. split; [exact I|]. split; [left; reflexivity|].
    split; [cbn; lia|]. split; [lia|]. split; [exact Hsized | exact Hhalf].
  - split; [eapply Forall_impl; [exact Hall | cbn; intros; lia]|].
    split; [eapply halving_prefix; exact Hh|].
    split.
    + destruct (partitionSizes evs0) as [|x l']; [left; reflexivity | right; exact Hhd].
    + split; [exact Hlen|]. split; [lia|]. split; [exact Hsized | exact Hhalf].
Qed.

(** *** The retry loop of [BuildAndSend] *)

Lemma send_retryableFunc_spec (msg : list Msg) (baseTx : BaseTx) (v : SendVars) (s : St) :
  match send_retryableFunc msg baseTx (v, s) with
  | (r, (v', s')) => send_attempt_spec msg v s r v' s'
  end.
Proof.
  unfold send_retryableFunc, mbind, lift, buildTx, broadcastTx, getL, putL, mret, record.
  cbn [fst snd].
  destruct (ext_buildTx msg baseTx (world s)) as [[txByte ctx|e|e] w]; cbn.
  - destruct (ext_broadcastTx txByte (FactoryMode ctx) w) as [[r [e|]] w']; cbn.
    + rewrite <- app_assoc. apply sa_broadcast_failed.
    + rewrite <- app_assoc. apply sa_sent.
  - apply sa_build_failed.
  - apply sa_panic.
Qed.

Lemma send_loop_run (msg : list Msg) (baseTx : BaseTx) :
  forall fuel n log v s,
    (n + fuel = 3)%nat -> (n < 3)%nat ->
    match retry_loop send_config (send_retryableFunc msg baseTx) fuel n n log (v, s) with
    | (out, (v', s')) =>
        exists evs, trace s' = trace s ++ evs /\ send_run msg n log v evs out v'
    end.
Proof.
  induction fuel as [|fuel IH]; intros n log v s Hsum Hn; [lia|].
  rewrite retry_loop_unfold.
  change (attempts send_config) with 3%nat.
  destruct (Nat.ltb_spec n 3) as [_|]; [|lia].
  pose proof (send_retryableFunc_spec msg baseTx v s) as Hatt.
  destruct (send_retryableFunc msg baseTx (v, s)) as [r [v1 s1]].
  inversion Hatt as [e w | e w | txByte ctx r0 e w | txByte ctx r0 w]; subst; clear Hatt.
  - eexists. split; [reflexivity | apply run_panic].
  - change (retryIf send_config e) with (send_retryIfFunc e).
    destruct (send_retryIfFunc e) eqn:Hif; cbn [negb].
    + unfold onRetry, send_config, send_onRetryFunc, mbind, getL, lift, removeCache.
      cbn [fst snd].
      destruct (Nat.eqb_spec n (3 - 1)) as [Heq|Hne].
      * eexists. split; [cbn; rewrite <- app_assoc; reflexivity|].
        apply (run_last msg n log v1 _ e v1); [lia | constructor | exact Hif].
      * match goal with
        | |- context [retry_loop _ _ fuel _ _ _ (?v2, ?s2)] =>
            specialize (IH (Datatypes.S n) (<[n := Some e]> log) v2 s2
                           ltac:(lia) ltac:(lia))
        end.
        cbn [lastErrorOnly].
        destruct (retry_loop _ _ fuel _ _ _ _) as [out [v' s']].
        destruct IH as (evs' & Htr & Hrun).
        eexists. split.
        -- rewrite Htr. cbn [trace record]. rewrite <- !app_assoc. reflexivity.
        -- apply (run_retry msg n log v1 _ e v1); [lia | constructor | exact Hif | exact Hrun].
    + eexists. split; [reflexivity|].
      apply run_refused; [constructor | exact Hif].
  - change (retryIf send_config e) with (send_retryIfFunc e).
    destruct (send_retryIfFunc e) eqn:Hif; cbn [negb].
    + unfold onRetry, send_config, send_onRetryFunc, mbind, getL, lift, removeCache.
      cbn [fst snd].
      destruct (Nat.eqb_spec n (3 - 1)) as [Heq|Hne].
      * eexists. split; [cbn; rewrite <- !app_assoc; reflexivity|].
        apply (run_last msg n log v
                 [EvBuildTx msg (Built txByte ctx);
                  EvBroadcastTx txByte (FactoryMode ctx) r0 (Some e)]
                 e {| res := r0; address := Address ctx |});
          [lia | constructor | exact Hif].
      * match goal with
        | |- context [retry_loop _ _ fuel _ _ _ (?v1, ?s1)] =>
            specialize (IH (Datatypes.S n) (<[n := Some e]> log) v1 s1
                           ltac:(lia) ltac:(lia))
        end.
        cbn [lastErrorOnly].
        destruct (retry_loop _ _ fuel _ _ _ _) as [out [v' s']].
        destruct IH as (evs' & Htr & Hrun).
        eexists. split.
        -- rewrite Htr. cbn [trace record address]. rewrite <- !app_assoc. reflexivity.
        -- apply (run_retry msg n log v
                    [EvBuildTx msg (Built txByte ctx);
                     EvBroadcastTx txByte (FactoryMode ctx) r0 (Some e)]
                    e {| res := r0; address := Address ctx |});
             [lia | constructor | exact Hif | exact Hrun].
    + eexists. split; [reflexivity|].
      apply run_refused; [constructor | exact Hif].
  - eexists. split; [reflexivity | apply run_sent].
Qed.

(** [BuildAndSend] is: lock, the retry loop, unlock; its error is the
    wrapped result of [retry.Do]. *)
Lemma BuildAndSend_run (base : baseClient) (msg : list Msg) (baseTx : BaseTx) (s : St) :
  exists evs out v',
    send_run msg 0 [None; None; None] {| res := zeroResultTx; address := "" |} evs out v'
    /\ newEvents s (snd (BuildAndSend base msg baseTx s))
       = EvLock (Locker.shardIndex (l base) (From baseTx))
           :: evs ++ [EvUnlock (Locker.shardIndex (l base) (From baseTx))]
    /\ fst (BuildAndSend base msg baseTx s)
       = match out with
         | Panic v => Panic v
         | Val (Some err) => Val (res v', Some (Wrap err))
         | Val None => Val (res v', None)
         end.
Proof.
  unfold BuildAndSend, retry_Do.
  pose proof (send_loop_run msg baseTx 3 0 [None; None; None]
                {| res := zeroResultTx; address := "" |}
                (Lock (l base) (From baseTx) s) eq_refl ltac:(lia)) as H.
  change (attempts send_config) with 3%nat.
  change (replicate (if lastErrorOnly send_config then 1%nat else 3%nat) None)
    with [@None error; None; None].
  destruct (retry_loop _ _ _ _ _ _ _) as [out [v' s']].
  destruct H as (evs & Htr & Hrun).
  exists evs, out, v'. split; [exact Hrun|]. split.
  - assert (Hnew : newEvents s (Unlock (l base) (From baseTx) s')
                   = EvLock (Locker.shardIndex (l base) (From baseTx))
                       :: evs ++ [EvUnlock (Locker.shardIndex (l base) (From baseTx))]).
    { apply newEvents_app. cbn. rewrite Htr. cbn. rewrite <- !app_assoc. reflexivity. }
    destruct out as [[e|]|e]; exact Hnew.
  - destruct out as [[e|]|e]; reflexivity.
Qed.

Lemma send_retryIfFunc_true (e : error) :
  send_retryIfFunc e = true <-> sdkCode e = Some WrongSequence.
Proof.
  unfold send_retryIfFunc. destruct (sdkCode e) as [code|].
  - rewrite Z.eqb_eq. split; [intros ->; reflexivity | intros [= ->]; reflexivity].
  - split; discriminate.
Qed.

Lemma send_retryIfFunc_false (e : error) :
  send_retryIfFunc e = false <-> sdkCode e <> Some WrongSequence.
Proof.
  rewrite <- send_retryIfFunc_true. destruct (send_retryIfFunc e); split; congruence.
Qed.


(** Every way the retry loop of [BuildAndSend] can go, as explicit traces. *)
Ltac send_run_cases H :=
  inversion H; subst; clear H;
  repeat match goal with
         | Hf : send_failed _ _ _ _ _ |- _ => inversion Hf; subst; clear Hf
         | Hlt : (_ < _)%nat |- _ => first [ exfalso; clear -Hlt; lia | clear Hlt ]
         | Heq : @eq nat _ _ |- _ => first [ exfalso; clear -Heq; lia | clear Heq ]
         | Hr : send_run _ _ _ _ _ _ _ |- _ => inversion Hr; subst; clear Hr
         | Hif : send_retryIfFunc _ = true |- _ => apply send_retryIfFunc_true in Hif
         | Hif : send_retryIfFunc _ = false |- _ => apply send_retryIfFunc_false in Hif
         end.


(** With no failed broadcast among the calls, the address noted is the
    empty one the run starts with. *)
Lemma noted_quiet (evs : list Event) :
  Forall (fun ev => forall txByte mode r e, ev <> EvBroadcastTx txByte mode r (Some e)) evs ->
  noted evs = "".
Proof.
  intros Hnone. unfold noted.
  assert (Hgen : forall c, snd (fold_left note evs (c, "")) = "").
  { induction Hnone as [|ev evs Hev _ IH]; intros c; [reflexivity|].
    cbn [fold_left]. destruct ev as [| | |? [| |]| |? ? ? [e|]| | | |]; cbn [note fst snd];
      try apply IH.
    exfalso. exact (Hev _ _ _ _ eq_refl). }
  apply Hgen.
Qed.


Lemma retry_log_text (e1 e2 e3 : error) :
  Error_text (RetryError [Some e1; Some e2; Some e3])
  = ("All attempts fail:" ++ newline ++ "#1: " ++ Error_text e1 ++ newline
       ++ "#2: " ++ Error_text e2 ++ newline ++ "#3: " ++ Error_text e3)%string.
Proof. reflexivity. Qed.

(** C8, as the code has it.  When the three attempts of [BuildAndSend] fail
    with errors [e1], [e2], [e3] that carry the code [WrongSequence], the
    error returned is the log of the three errors, in the order of the
    attempts, wrapped by [sdk.Wrap]: an [sdk.Error] with the code of
    [sdk.Wrap] whose text lists the three errors. *)
Theorem BuildAndSend_exhausted_returns_log (base : baseClient) (msg : list Msg)
        (baseTx : BaseTx) (s : St) (e1 e2 e3 : error) :
  failures (newEvents s (snd (BuildAndSend base msg baseTx s))) = [e1; e2; e3] ->
  sdkCode e1 = Some WrongSequence ->
  sdkCode e2 = Some WrongSequence ->
  sdkCode e3 = Some WrongSequence ->
  exists r,
    fst (BuildAndSend base msg baseTx s)
    = Val (r, Some (Wrap (RetryError [Some e1; Some e2; Some e3])))
    /\ sdkCode (Wrap (RetryError [Some e1; Some e2; Some e3])) = Some wrapCode
    /\ Error_text (Wrap (RetryError [Some e1; Some e2; Some e3]))
       = ("All attempts fail:" ++ newline ++ "#1: " ++ Error_text e1 ++ newline
            ++ "#2: " ++ Error_text e2 ++ newline ++ "#3: " ++ Error_text e3)%string.
Proof.
  intros Hfail H1 H2 H3.
  destruct (BuildAndSend_run base msg baseTx s) as (evs' & out' & v' & Hrun & Hev & Hout).
  rewrite Hev in Hfail. rewrite Hout. clear Hev Hout.
  send_run_cases Hrun; cbn in Hfail; try discriminate Hfail; simplify_eq;
    try contradiction;
    (eexists; split; [reflexivity|]; split; [reflexivity | apply retry_log_text]).
Qed.

(** *** What [SendBatch] returns *)

(** Once the messages are validated, the error [SendBatch] returns is nil,
    whatever happened in the retry loop. *)
Lemma SendBatch_returns_nil_error (base : baseClient) (msgs0 : list Msg) (baseTx : BaseTx)
      (s : St) :
  msgs0 <> [] -> Forall (fun m => ValidateBasic m = None) msgs0 ->
  exists results, fst (SendBatch base msgs0 baseTx s) = Val (results, None).
Proof.
  intros Hne Hvalid. unfold SendBatch.
  destruct msgs0 as [|m ms]; [contradiction|]. cbn [length Nat.eqb].
  rewrite (validateMsgs_all_valid _ Hvalid).
  destruct (retry_Do _ _ _) as [[o|v] [vars' s2]]; eexists; reflexivity.
Qed.

(** *** Partitioning *)

Lemma chunks_nil {A} (fuel n : nat) : @chunks A fuel n [] = [].
Proof. destruct fuel; reflexivity. Qed.

Lemma chunks_step {A} (fuel n : nat) (array : list A) :
  array <> [] -> chunks (Datatypes.S fuel) n array = take n array :: chunks fuel n (drop n array).
Proof. destruct array; [contradiction | reflexivity]. Qed.

Lemma nonempty_length {A} (array : list A) : (0 < length array)%nat -> array <> [].
Proof. destruct array; cbn; [lia | discriminate]. Qed.

(** A list longer than two groups and not longer than three is cut into the
    first [n] elements, the next [n], and the rest. *)
Lemma SubArray_three_groups {A} (n : nat) (array : list A) :
  (0 < n)%nat -> (2 * n < length array <= 3 * n)%nat ->
  SubArray (Z.of_nat n) array
  = [take n array; take n (drop n array); drop (2 * n) array].
Proof.
  intros Hn Hlen. unfold SubArray.
  destruct (Z.leb_spec (Z.of_nat n) 0) as [|_]; [lia|].
  rewrite Nat2Z.id.
  destruct (length array) as [|[|[|fuel]]] eqn:Hl; try lia.
  rewrite chunks_step by (apply nonempty_length; lia).
  rewrite chunks_step by (apply nonempty_length; rewrite length_drop; lia).
  rewrite chunks_step by (apply nonempty_length; rewrite !length_drop; lia).
  rewrite (nil_length_inv (drop n (drop n (drop n array))))
    by (rewrite !length_drop; lia).
  rewrite chunks_nil, drop_drop.
  replace (n + n)%nat with (2 * n)%nat by lia.
  rewrite (take_ge (drop (2 * n) array)) by (rewrite length_drop; lia).
  reflexivity.
Qed.

(** *** The batch loop only adds to the trace and to the results *)

Lemma extends_refl (vs : BatchVars * St) : extends vs vs.
Proof. split; exists []; rewrite app_nil_r; reflexivity. Qed.

Lemma extends_trans (a b c : BatchVars * St) : extends a b -> extends b c -> extends a c.
Proof.
  intros [(e1 & H1) (m1 & R1)] [(e2 & H2) (m2 & R2)]. split.
  - exists (e1 ++ e2). rewrite H2, H1, app_assoc. reflexivity.
  - exists (m1 ++ m2). rewrite R2, R1, app_assoc. reflexivity.
Qed.

Lemma batch_attempt_extends (base : baseClient) (baseTx : BaseTx) (vs : BatchVars * St) :
  extends vs (snd (batch_retryableFunc base baseTx vs)).
Proof.
  destruct vs as [v s].
  destruct (batch_retryableFunc base baseTx (v, s)) as [r [v' s']] eqn:E.
  apply batch_retryableFunc_pass in E. destruct E as (evs & Htr & _ & _ & Hrs).
  split; cbn [fst snd]; [eexists; exact Htr | exact Hrs].
Qed.

Lemma batch_onRetry_extends (n : nat) (e : error) (vs : BatchVars * St) :
  extends vs (snd (batch_onRetry n e vs)).
Proof.
  destruct vs as [v s]. cbn. split; cbn.
  - eexists. reflexivity.
  - exists []. rewrite app_nil_r. reflexivity.
Qed.

Lemma batch_loop_extends (base : baseClient) (baseTx : BaseTx) :
  forall fuel n idx log vs,
    extends vs (snd (retry_loop batch_config (batch_retryableFunc base baseTx)
                                fuel n idx log vs)).
Proof.
  induction fuel as [|fuel IH]; intros n idx log vs; [apply extends_refl|].
  rewrite retry_loop_unfold.
  destruct (n <? attempts batch_config)%nat; [|apply extends_refl].
  pose proof (batch_attempt_extends base baseTx vs) as H1.
  destruct (batch_retryableFunc base baseTx vs) as [[[e|]|v] vs1]; cbn [snd] in H1 |- *;
    try exact H1.
  destruct (negb (retryIf batch_config e)); [exact H1|].
  pose proof (batch_onRetry_extends n e vs1) as H2.
  change (onRetry batch_config n e vs1) with (batch_onRetry n e vs1).
  destruct (batch_onRetry n e vs1) as [[[]|v] vs2]; cbn [snd] in H2 |- *.
  - destruct (n =? attempts batch_config - 1)%nat.
    + exact (extends_trans _ _ _ H1 H2).
    + eapply extends_trans; [exact H1|]. eapply extends_trans; [exact H2 | apply IH].
  - exact (extends_trans _ _ _ H1 H2).
Qed.

(** A loop that has attempts left starts by partitioning [msgs] into groups
    of size [batch]. *)
Lemma batch_loop_starts (base : baseClient) (baseTx : BaseTx) (fuel n idx : nat)
      (log : list (option error)) (v : BatchVars) (s : St) :
  (n < 3)%nat ->
  let fin := retry_loop batch_config (batch_retryableFunc base baseTx)
                        (Datatypes.S fuel) n idx log (v, s) in
  exists evs more,
    trace (snd (snd fin))
    = trace s ++ EvSubArray (batch v) (SubArray (batch v) (msgs v)) :: evs
    /\ rs (fst (snd fin)) = rs v ++ more.
Proof.
  intros Hn fin. subst fin. rewrite retry_loop_unfold.
  change (attempts batch_config) with 3%nat.
  destruct (Nat.ltb_spec n 3) as [_|]; [|lia].
  destruct (batch_retryableFunc base baseTx (v, s)) as [r [v1 s1]] eqn:E.
  apply batch_retryableFunc_pass in E. destruct E as (evs & Htr & _ & _ & (more & Hrs)).
  assert (Hext : forall vs', extends (v1, s1) vs' ->
             exists evs' more',
               trace (snd vs')
               = trace s ++ EvSubArray (batch v) (SubArray (batch v) (msgs v)) :: evs'
               /\ rs (fst vs') = rs v ++ more').
  { intros vs' [(e' & He') (m' & Hm')]. cbn [fst snd] in He', Hm'.
    exists (evs ++ e'), (more ++ m'). split.
    - rewrite He', Htr, <- app_assoc. reflexivity.
    - rewrite Hm', Hrs, <- app_assoc. reflexivity. }
  destruct r as [[e|]|e]; cbn [snd]; try (apply (Hext (v1, s1)), extends_refl).
  destruct (negb (retryIf batch_config e)); [apply (Hext (v1, s1)), extends_refl|].
  pose proof (batch_onRetry_extends n e (v1, s1)) as H2.
  change (onRetry batch_config n e (v1, s1)) with (batch_onRetry n e (v1, s1)).
  destruct (batch_onRetry n e (v1, s1)) as [[[]|e'] vs2]; cbn [snd] in H2 |- *.
  - destruct (n =? 3 - 1)%nat.
    + apply (Hext vs2). exact H2.
    + match goal with
      | |- context [retry_loop ?c ?f ?fu ?k ?i ?lg vs2] =>
          apply (Hext (snd (retry_loop c f fu k i lg vs2)))
      end.
      eapply extends_trans; [exact H2 | apply batch_loop_extends].
  - apply (Hext vs2). exact H2.
Qed.

Lemma batch_retryIf_too_large : batch_retryIf (GetError RootCodespace TxTooLarge) = true.
Proof. unfold batch_retryIf, GetError. cbn. rewrite Z.eqb_refl. apply orb_true_r. Qed.

(** C2, as the code has it.  [SendBatch] on 250 valid messages partitions
    them, in order, into groups of 100, 100 and 50.  When the first group is
    broadcast and the second is found too large, the closure ends with the
    too-large error, [batch] is 50, [msgs] is what follows the first group
    (messages 101 to 250: the rejected group is still to be sent), and [rs]
    holds the result of the first group.  The next attempt partitions these
    150 messages, in order, into three groups of 50, and the result of the
    first group stays at the head of the results [SendBatch] returns. *)
Theorem SendBatch_too_large_regroups (base : baseClient) (msgs0 : list Msg) (baseTx : BaseTx)
        (s s3 s4 s5 s6 s7 : St) (tx1 tx2 : list Byte.byte) (ctx1 ctx2 : Factory)
        (res1 : ResultTx) :
  let g1 := take 100 msgs0 in
  let g2 := take 100 (drop 100 msgs0) in
  let g3 := drop 200 msgs0 in
  let h1 := take 50 (drop 100 msgs0) in
  let h2 := take 50 (drop 150 msgs0) in
  let h3 := drop 200 msgs0 in
  let s1 := Lock (l base) (From baseTx) s in
  let s2 := record (EvSubArray maxBatch [g1; g2; g3]) (world s1) s1 in
  length msgs0 = 250%nat ->
  Forall (fun m => ValidateBasic m = None) msgs0 ->
  buildTx g1 baseTx s2 = (Val (inl (tx1, ctx1)), s3) ->
  ValidateTxSize base (Z.of_nat (length tx1)) g1 s3 = (Val (true, None), s4) ->
  broadcastTx tx1 (FactoryMode ctx1) s4 = (Val (res1, None), s5) ->
  buildTx g2 baseTx s5 = (Val (inl (tx2, ctx2)), s6) ->
  ValidateTxSize base (Z.of_nat (length tx2)) g2 s6 = (Val (false, None), s7) ->
  (SubArray maxBatch msgs0 = [g1; g2; g3]
   /\ map length [g1; g2; g3] = [100; 100; 50]%nat
   /\ g1 ++ g2 ++ g3 = msgs0)
  /\ batch_retryableFunc base baseTx (batch_vars msgs0, s1)
     = (Val (Some (GetError RootCodespace TxTooLarge)),
        ({| msgs := drop 100 msgs0; batch := 50; batchAddress := ""; rs := [res1] |}, s7))
  /\ (SubArray 50 (drop 100 msgs0) = [h1; h2; h3]
      /\ map length [h1; h2; h3] = [50; 50; 50]%nat
      /\ h1 ++ h2 ++ h3 = drop 100 msgs0)
  /\ exists evs more,
      trace (snd (SendBatch base msgs0 baseTx s))
      = trace s7 ++ EvRemoveCache "" :: EvSubArray 50 [h1; h2; h3] :: evs
      /\ fst (SendBatch base msgs0 baseTx s) = Val (res1 :: more, None).
Proof.
  intros g1 g2 g3 h1 h2 h3 s1 s2 Hlen Hvalid Hb1 Hv1 Hs1 Hb2 Hv2.
  assert (Hp1 : SubArray maxBatch msgs0 = [g1; g2; g3]).
  { apply (SubArray_three_groups 100 msgs0); lia. }
  assert (Hp2 : SubArray 50 (drop 100 msgs0) = [h1; h2; h3]).
  { subst h1 h2 h3.
    etransitivity;
      [apply (SubArray_three_groups 50 (drop 100 msgs0)); [lia | rewrite length_drop; lia]|].
    rewrite !drop_drop. reflexivity. }
  assert (Hfirst : batch_retryableFunc base baseTx (batch_vars msgs0, s1)
     = (Val (Some (GetError RootCodespace TxTooLarge)),
        ({| msgs := drop 100 msgs0; batch := 50; batchAddress := ""; rs := [res1] |}, s7))).
  { unfold batch_vars, batch_retryableFunc, mbind at 1, getL at 1. cbn [fst snd batch msgs].
    rewrite Hp1. unfold mbind at 1, lift at 1. cbn [fst snd]. fold s2.
    cbn [sendGroups]. unfold mbind at 1, lift at 1. cbn [fst snd]. rewrite Hb1.
    unfold mbind at 1, lift at 1. cbn [fst snd]. rewrite Hv1.
    unfold mbind at 1, lift at 1. cbn [fst snd]. rewrite Hs1.
    unfold mbind at 1, getL at 1. cbn [fst snd].
    unfold mbind at 1, putL at 1. cbn [fst snd batch msgs rs batchAddress].
    unfold mbind at 1, lift at 1. cbn [fst snd]. rewrite Hb2.
    unfold mbind at 1, lift at 1. cbn [fst snd]. rewrite Hv2.
    unfold mbind at 1, getL at 1. cbn [fst snd batch msgs rs batchAddress].
    unfold mbind at 1, sliceFrom. rewrite Hlen.
    change (((0 + 1) * maxBatch <? 0) || (Z.of_nat 250 <? (0 + 1) * maxBatch)) with false.
    cbv iota. unfold mret at 1. unfold mbind at 1, putL at 1. cbn [fst snd].
    reflexivity. }
  split; [|split; [exact Hfirst | split]].
  - split; [exact Hp1|]. split.
    + subst g1 g2 g3. cbn [map]. rewrite !length_take, !length_drop, Hlen. reflexivity.
    + subst g1 g2 g3.
      replace (drop 200 msgs0) with (drop 100 (drop 100 msgs0))
        by (rewrite drop_drop; reflexivity).
      rewrite !take_drop. reflexivity.
  - split; [exact Hp2|]. split.
    + subst h1 h2 h3. cbn [map]. rewrite !length_take, !length_drop, Hlen. reflexivity.
    + subst h1 h2 h3.
      replace (drop 200 msgs0) with (drop 50 (drop 150 msgs0))
        by (rewrite drop_drop; reflexivity).
      rewrite take_drop.
      replace (drop 150 msgs0) with (drop 50 (drop 100 msgs0))
        by (rewrite drop_drop; reflexivity).
      rewrite take_drop. reflexivity.
  - assert (Hloop :
        retry_Do batch_config (batch_retryableFunc base baseTx) (batch_vars msgs0, s1)
        = retry_loop batch_config (batch_retryableFunc base baseTx) 2 1 1
            [Some (GetError RootCodespace TxTooLarge); None; None]
            ({| msgs := drop 100 msgs0; batch := 50; batchAddress := ""; rs := [res1] |},
             record (EvRemoveCache "") (ext_removeCache "" (world s7)) s7)).
    { unfold retry_Do. change (attempts batch_config) with 3%nat.
      rewrite (retry_loop_unfold batch_config _ 2 0 0).
      change (0 <? attempts batch_config)%nat with true. cbv iota.
      rewrite Hfirst.
      change (retryIf batch_config) with batch_retryIf.
      rewrite batch_retryIf_too_large. reflexivity. }
    unfold SendBatch.
    replace (length msgs0 =? 0)%nat with false by (rewrite Hlen; reflexivity).
    rewrite (validateMsgs_all_valid _ Hvalid).
    fold s1. rewrite Hloop.
    destruct (batch_loop_starts base baseTx 1 1 1
                [Some (GetError RootCodespace TxTooLarge); None; None]
                {| msgs := drop 100 msgs0; batch := 50; batchAddress := ""; rs := [res1] |}
                (record (EvRemoveCache "") (ext_removeCache "" (world s7)) s7)
                ltac:(lia))
      as (evs & more & Htr & Hrs).
    destruct (retry_loop batch_config (batch_retryableFunc base baseTx) 2 1 1 _ _)
      as [out [v' s']].
    cbn [fst snd batch msgs rs trace record] in Htr, Hrs.
    rewrite Hp2 in Htr.
    exists (evs ++ [EvUnlock (Locker.shardIndex (l base) (From baseTx))]), more.
    split.
    + assert (Htr' : trace (Unlock (l base) (From baseTx) s')
                     = trace s7 ++ EvRemoveCache ""
                         :: EvSubArray 50 [h1; h2; h3]
                         :: evs ++ [EvUnlock (Locker.shardIndex (l base) (From baseTx))]).
      { cbn [Unlock trace record]. rewrite Htr, <- !app_assoc. reflexivity. }
      destruct out; exact Htr'.
    + destruct out; cbn [fst]; rewrite Hrs; reflexivity.
Qed.

End Facts.
End BaseFacts.

Module ScenarioFacts.
Import Base Scenario.

(** C1, the code at the failing input.  The batch stops at the refused
    broadcast and returns the result of the first group, but the error it
    returns is nil. *)
Theorem SendBatch_drops_broadcast_error :
  fst refusedBatch
  = Val ([{| Hash := "tx"; Code := 0; Log := ""; Height := 1 |}], None)
  /\ failures (trace (snd refusedBatch)) = [unauthorized]
  /\ @batch_retryIf simX unauthorized = false
  /\ buildCount (trace (snd refusedBatch)) = 2%nat
  /\ partitionSizes (trace (snd refusedBatch)) = [100]
  /\ last (trace (snd refusedBatch)) = Some (EvUnlock 3).
Proof. vm_compute. repeat split. Qed.

Lemma SendBatch_first_invalid_witness :
  @SendBatch simX (simBase simConfig) fiveMsgs simTx (sim [] [] 150 101)
  = (Val ([], Some (@Wrap simX (PlainError "invalid request"))), sim [] [] 150 101).
Proof.
  apply (BaseFacts.SendBatch_first_invalid (X := simX) (simBase simConfig) simTx
           (sim [] [] 150 101) (numbered "service" 1 2) (numbered "service" 4 2)
           (invalidMsg "invalid request" 3) (PlainError "invalid request")).
  - repeat constructor.
  - reflexivity.
Defined.

Lemma prepare_default_fee_witness :
  fst (@prepare simX (simBase badFeeConfig) zeroFeeTx (sim [] [] 150 101))
  = Panic (SdkError "sdk" 10 "invalid coins")
  /\ exists factory,
      fst (@prepare simX (simBase simConfig) zeroFeeTx (sim [] [] 150 101))
      = Val (inl factory)
      /\ fFee factory = [{| Denom := "uirita"; Amount := 4 |}].
Proof.
  split.
  - refine (proj1 (proj2 (BaseFacts.prepare_default_fee (X := simX)
                            (simBase badFeeConfig) zeroFeeTx (sim [] [] 150 101)
                            signer {| AccountNumber := 7; Sequence := 1 |}
                            (world (sim [] [] 150 101)) (world (sim [] [] 150 101))
                            _ _ _)) _ (world (sim [] [] 150 101)) _).
    + reflexivity.
    + reflexivity.
    + right. reflexivity.
    + reflexivity.
  - refine (proj2 (proj2 (BaseFacts.prepare_default_fee (X := simX)
                            (simBase simConfig) zeroFeeTx (sim [] [] 150 101)
                            signer {| AccountNumber := 7; Sequence := 1 |}
                            (world (sim [] [] 150 101)) (world (sim [] [] 150 101))
                            _ _ _)) _ (world (sim [] [] 150 101)) _).
    + reflexivity.
    + reflexivity.
    + right. reflexivity.
    + reflexivity.
Defined.


Lemma BuildAndSend_exhausted_returns_log_witness :
  exists r,
    fst exhaustedSend
    = Val (r, Some (@Wrap simX (RetryError [Some stale1; Some stale2; Some stale3])))
    /\ sdkCode (@Wrap simX (RetryError [Some stale1; Some stale2; Some stale3])) = Some 1
    /\ Error_text (@Wrap simX (RetryError [Some stale1; Some stale2; Some stale3]))
       = ("All attempts fail:" ++ newline ++ "#1: " ++ Error_text stale1 ++ newline
            ++ "#2: " ++ Error_text stale2 ++ newline ++ "#3: " ++ Error_text stale3)%string.
Proof.
  apply (BaseFacts.BuildAndSend_exhausted_returns_log (X := simX) (simBase simConfig)
           (numbered "bank" 1 1) simTx staleWorld stale1 stale2 stale3).
  - vm_compute. reflexivity.
  - reflexivity.
  - reflexivity.
  - reflexivity.
Defined.

(** C8, counterexample.  The three broadcasts are refused with the
    stale-sequence errors [stale1], [stale2], [stale3]; what [BuildAndSend]
    returns is the wrapped log of the three, which is neither the third
    error nor the third error wrapped: its text names all three. *)
Lemma BuildAndSend_exhausted_not_third_error :
  failures (trace (snd exhaustedSend)) = [stale1; stale2; stale3]
  /\ @send_retryIfFunc simX stale3 = true
  /\ fst exhaustedSend
     = Val (zeroResultTx,
            Some (@Wrap simX (RetryError [Some stale1; Some stale2; Some stale3])))
  /\ (forall r, fst exhaustedSend <> Val (r, Some (@Wrap simX stale3)))
  /\ (forall r, fst exhaustedSend <> Val (r, Some stale3)).
Proof.
  split; [vm_compute; reflexivity|]. split; [reflexivity|].
  split; [vm_compute; reflexivity|].
  split; intros r H; vm_compute in H; discriminate H.
Qed.

Lemma SendBatch_too_large_regroups_witness :
  exists evs more,
    trace (snd batchRun)
    = trace batch_s7 ++ EvRemoveCache ""
        :: EvSubArray 50 [take 50 (drop 100 batch250); take 50 (drop 150 batch250);
                          drop 200 batch250] :: evs
    /\ fst batchRun = Val (batch_res1 :: more, None).
Proof.
  refine (proj2 (proj2 (proj2
            (BaseFacts.SendBatch_too_large_regroups (X := simX) batchBase batch250 simTx
               batchWorld batch_s3 batch_s4 batch_s5 batch_s6 batch_s7
               batch_tx1 batch_tx2 simFactory simFactory batch_res1 _ _ _ _ _ _ _)))).
  - vm_compute. reflexivity.
  - vm_compute. repeat constructor.
  - vm_compute. reflexivity.
  - vm_compute. reflexivity.
  - vm_compute. reflexivity.
  - vm_compute. reflexivity.
  - vm_compute. reflexivity.
Defined.

(** C2, counterexample.  With the second group of 100 rejected as too
    large, the messages regrouped are those numbered 101 to 250, into three
    groups of 50 (101-150, 151-200, 201-250), not those numbered 151 to 250
    into two groups: the rejected group has not been sent, and is sent as
    the first two of the three groups.  All 250 messages are sent in the
    end, in four transactions. *)
Lemma SendBatch_250_regroups_from_101 :
  partitionSizes (trace (snd batchRun)) = [100; 50]
  /\ partitions (trace (snd batchRun))
     = [[numbered "service" 1 100; numbered "service" 101 100; numbered "service" 201 50];
        [numbered "service" 101 50; numbered "service" 151 50; numbered "service" 201 50]]
  /\ partitions (trace (snd batchRun)) !! 1%nat
     <> Some [numbered "service" 151 50; numbered "service" 201 50]
  /\ numbered "service" 101 50 ++ numbered "service" 151 50 ++ numbered "service" 201 50
     = numbered "service" 101 150
  /\ numbered "service" 101 150 <> numbered "service" 151 100
  /\ (exists more, fst batchRun = Val (batch_res1 :: more, None) /\ length more = 3%nat).
Proof.
  split; [vm_compute; reflexivity|]. split; [vm_compute; reflexivity|].
  split.
  { intros H. apply (f_equal (fun o => option_map (@length _) o)) in H.
    vm_compute in H. discriminate H. }
  split; [vm_compute; reflexivity|].
  split.
  { intros H. apply (f_equal (@length _)) in H. vm_compute in H. discriminate H. }
  eexists. split; vm_compute; reflexivity.
Qed.


Lemma SendBatch_group_size_at_least_one_witness :
  50 = Z.quot (sized (take 5 (trace (snd batchRun)))) 2.
Proof.
  refine (proj2 (proj2 (proj2 (proj2 (proj2 (proj2
            (BaseFacts.SendBatch_group_size_at_least_one (X := simX) batchBase batch250
               simTx batchWorld))))))
            (take 5 (trace (snd batchRun))) (take 100 (drop 100 batch250)) batch_tx2
            simFactory 150 ""
            50 [take 50 (drop 100 batch250); take 50 (drop 150 batch250); drop 200 batch250]
            (drop 9 (trace (snd batchRun))) _ _).
  - vm_compute. reflexivity.
  - vm_compute. reflexivity.
Defined.

End ScenarioFacts.

Module LockerMore.
Import Locker LockerFacts.

Lemma bytes_of_app (k1 k2 : string) :
  bytes_of (k1 ++ k2)%string = bytes_of k1 ++ bytes_of k2.
Proof.
  unfold bytes_of. induction k1 as [|c k1 IH]; [reflexivity|].
  change (list_ascii_of_string (String c k1 ++ k2)%string)
    with (c :: list_ascii_of_string (k1 ++ k2)%string).
  cbn [list_ascii_of_string map app]. f_equal. exact IH.
Qed.

(** The hash of a key goes on from the hash of any of its prefixes: hashing
    [k1 ++ k2] is hashing the bytes of [k2] starting from the hash of [k1].
    The hash of the empty key is the offset 2166136261, and one more byte [c]
    changes the hash [h] of the key into [((h * 16777619) mod 2^32) xor c]. *)
Theorem indexFor_app (k1 k2 : string) :
  indexFor (k1 ++ k2)%string = fold_left hash_step (bytes_of k2) (indexFor k1)
  /\ indexFor "" = 2166136261
  /\ (forall c : ascii,
        indexFor (k1 ++ String c "")%string
        = Z.lxor ((indexFor k1 * 16777619) mod 2 ^ 32) (Z.of_N (N_of_ascii c))).
Proof.
  assert (Happ : forall a b,
             indexFor (a ++ b)%string = fold_left hash_step (bytes_of b) (indexFor a)).
  { intros a b. rewrite !indexFor_spec. unfold hash_spec.
    rewrite bytes_of_app, fold_left_app. reflexivity. }
  split; [apply Happ|]. split; [reflexivity|].
  intros c. rewrite Happ. reflexivity.
Qed.

Lemma uint_size (l : locker) : wellFormed l -> uint (size l) = size l.
Proof.
  intros (Hs & _ & _). unfold uint. apply Z.mod_small.
  split; [lia|]. eapply Z.lt_trans; [apply Hs|]. reflexivity.
Qed.

(** On a well-formed locker [getShard] never panics, and the position it
    finds is the remainder of the hash by the number of shards. *)
Lemma getShard_wellFormed (l : locker) (key : string) :
  wellFormed l ->
  getShard l key = Some (Z.to_nat (shardIndex l key))
  /\ (Z.to_nat (shardIndex l key) < length (shards l))%nat.
Proof.
  intros Hwf. pose proof (uint_size l Hwf) as Hu.
  destruct Hwf as (Hs & Hlen & _).
  assert (Hidx : 0 <= shardIndex l key < size l).
  { unfold shardIndex. apply Z.mod_pos_bound. lia. }
  assert (Hlt : (Z.to_nat (shardIndex l key) < length (shards l))%nat).
  { rewrite Hlen. apply Z2Nat.inj_lt; lia. }
  split; [|exact Hlt].
  unfold getShard. rewrite Hu.
  destruct (Z.eqb_spec (size l) 0) as [|_]; [lia|].
  fold (shardIndex l key).
  destruct (Nat.ltb_spec (Z.to_nat (shardIndex l key)) (length (shards l))); [reflexivity | lia].
Qed.

Lemma shardIndex_nat_inj (l : locker) (a b : string) :
  wellFormed l ->
  Z.to_nat (shardIndex l a) = Z.to_nat (shardIndex l b) -> shardIndex l a = shardIndex l b.
Proof.
  intros (Hs & _ & _) H.
  assert (0 <= shardIndex l a) by (unfold shardIndex; apply Z.mod_pos_bound; lia).
  assert (0 <= shardIndex l b) by (unfold shardIndex; apply Z.mod_pos_bound; lia).
  apply Z2Nat.inj; assumption.
Qed.

Lemma shardIndex_shards (sh : list nat) (l : locker) (key : string) :
  shardIndex {| shards := sh; size := size l |} key = shardIndex l key.
Proof. reflexivity. Qed.

Lemma NewLocker_wellFormed (n : Z) : 0 < n < 2 ^ 63 -> wellFormed (NewLocker n).
Proof.
  intros Hn. unfold wellFormed, NewLocker. cbn [size shards].
  split; [exact Hn|]. split; [apply length_replicate|].
  apply Forall_replicate. lia.
Qed.

Lemma Lock_wellFormed (l l' : locker) (key : string) :
  wellFormed l -> Lock l key = Proceeds l' -> wellFormed l'.
Proof.
  intros Hwf H. unfold Lock in H.
  destruct (getShard l key) as [i|]; [|discriminate].
  destruct (shards l !! i) as [[|n]|]; try discriminate.
  injection H as <-. destruct Hwf as (Hs & Hlen & Hall).
  unfold wellFormed. cbn [size shards].
  split; [exact Hs|]. split; [rewrite length_insert; exact Hlen|].
  apply Forall_insert; [exact Hall | lia].
Qed.

(** A new locker is free: every key can be locked at once, and unlocking a
    key that nobody locked blocks (a receive on an empty channel). *)
Theorem NewLocker_all_free (n : Z) (key : string) :
  0 < n < 2 ^ 63 ->
  length (shards (NewLocker n)) = Z.to_nat n
  /\ (exists l', Lock (NewLocker n) key = Proceeds l' /\ wellFormed l'
                 /\ shards l' = <[Z.to_nat (shardIndex (NewLocker n) key) := 1%nat]>
                                  (replicate (Z.to_nat n) 0%nat))
  /\ Unlock (NewLocker n) key = Blocks.
Proof.
  intros Hn. pose proof (NewLocker_wellFormed n Hn) as Hwf.
  destruct (getShard_wellFormed _ key Hwf) as [Hg Hlt].
  assert (Hfree : shards (NewLocker n) !! Z.to_nat (shardIndex (NewLocker n) key) = Some 0%nat).
  { cbn [NewLocker shards] in Hlt |- *. rewrite length_replicate in Hlt.
    apply lookup_replicate_2. exact Hlt. }
  split; [apply length_replicate|]. split.
  - assert (HL : Lock (NewLocker n) key
                 = Proceeds {| shards := <[Z.to_nat (shardIndex (NewLocker n) key) := 1%nat]>
                                           (shards (NewLocker n));
                               size := size (NewLocker n) |}).
    { unfold Lock. rewrite Hg, Hfree. reflexivity. }
    eexists. split; [exact HL|]. split; [exact (Lock_wellFormed _ _ _ Hwf HL) | reflexivity].
  - unfold Unlock. rewrite Hg, Hfree. reflexivity.
Qed.

(** Mutual exclusion by shard.  Once a key is locked, locking any key of the
    same shard blocks, the key itself included, whether or not the two keys
    are equal; and the locker stays well formed. *)
Theorem Lock_excludes_shard (l l1 : locker) (a b : string) :
  wellFormed l ->
  Lock l a = Proceeds l1 ->
  shardIndex l b = shardIndex l a ->
  Lock l1 b = Blocks /\ Lock l1 a = Blocks /\ wellFormed l1.
Proof.
  intros Hwf HL Hsame.
  pose proof (Lock_wellFormed _ _ _ Hwf HL) as Hwf1.
  destruct (getShard_wellFormed l a Hwf) as [Hga Hlt].
  unfold Lock in HL. rewrite Hga in HL.
  destruct (shards l !! Z.to_nat (shardIndex l a)) as [[|n]|] eqn:Hsh; try discriminate.
  injection HL as <-.
  assert (Hblock : forall k, shardIndex l k = shardIndex l a ->
             Lock {| shards := <[Z.to_nat (shardIndex l a) := 1%nat]> (shards l);
                     size := size l |} k = Blocks).
  { intros k Hk.
    destruct (getShard_wellFormed _ k Hwf1) as [Hgk _].
    unfold Lock. rewrite Hgk. unfold shardIndex in Hk |- *. cbn [size shards].
    rewrite Hk. fold (shardIndex l a).
    rewrite list_lookup_insert_eq by exact Hlt. reflexivity. }
  split; [apply Hblock; exact Hsame|]. split; [apply Hblock; reflexivity | exact Hwf1].
Qed.

(** The lock belongs to the shard, not to the key or the caller: after a key
    is locked, unlocking any key of the same shard goes through and gives
    back the locker as it was before the lock. *)
Theorem Unlock_releases_shard (l l1 : locker) (a b : string) :
  wellFormed l ->
  Lock l a = Proceeds l1 ->
  shardIndex l b = shardIndex l a ->
  Unlock l1 b = Proceeds l.
Proof.
  intros Hwf HL Hsame.
  pose proof (Lock_wellFormed _ _ _ Hwf HL) as Hwf1.
  destruct (getShard_wellFormed l a Hwf) as [Hga Hlt].
  unfold Lock in HL. rewrite Hga in HL.
  destruct (shards l !! Z.to_nat (shardIndex l a)) as [[|n]|] eqn:Hsh; try discriminate.
  injection HL as <-.
  destruct (getShard_wellFormed _ b Hwf1) as [Hgb _].
  unfold Unlock. rewrite Hgb. unfold shardIndex in Hsame |- *. cbn [size shards].
  rewrite Hsame. fold (shardIndex l a).
  rewrite list_lookup_insert_eq by exact Hlt.
  rewrite list_insert_insert_eq, (list_insert_id _ _ _ Hsh).
  destruct l; reflexivity.
Qed.

(** Keys of different shards do not see each other: locking one leaves the
    other as lockable as it was, and the two locks can be taken in either
    order with the same result. *)
Theorem Lock_other_shard_independent (l la lb : locker) (a b : string) :
  wellFormed l ->
  Lock l a = Proceeds la ->
  Lock l b = Proceeds lb ->
  shardIndex l a <> shardIndex l b ->
  exists lab, Lock la b = Proceeds lab /\ Lock lb a = Proceeds lab.
Proof.
  intros Hwf HLa HLb Hne.
  pose proof (Lock_wellFormed _ _ _ Hwf HLa) as Hwfa.
  pose proof (Lock_wellFormed _ _ _ Hwf HLb) as Hwfb.
  destruct (getShard_wellFormed l a Hwf) as [Hga Hlta].
  destruct (getShard_wellFormed l b Hwf) as [Hgb Hltb].
  assert (Hnat : Z.to_nat (shardIndex l a) <> Z.to_nat (shardIndex l b)).
  { intros H. apply Hne. apply (shardIndex_nat_inj l a b Hwf H). }
  unfold Lock in HLa, HLb. rewrite Hga in HLa. rewrite Hgb in HLb.
  destruct (shards l !! Z.to_nat (shardIndex l a)) as [[|n]|] eqn:Hsa; try discriminate.
  destruct (shards l !! Z.to_nat (shardIndex l b)) as [[|n']|] eqn:Hsb; try discriminate.
  injection HLa as <-. injection HLb as <-.
  destruct (getShard_wellFormed _ b Hwfa) as [Hgb' _].
  destruct (getShard_wellFormed _ a Hwfb) as [Hga' _].
  rewrite shardIndex_shards in Hgb', Hga'.
  exists {| shards := <[Z.to_nat (shardIndex l b) := 1%nat]>
                        (<[Z.to_nat (shardIndex l a) := 1%nat]> (shards l));
            size := size l |}.
  split.
  - unfold Lock. rewrite Hgb'. cbn [size shards].
    rewrite list_lookup_insert_ne by exact Hnat. rewrite Hsb. reflexivity.
  - unfold Lock. rewrite Hga'. cbn [size shards].
    rewrite list_lookup_insert_ne by (intros H; apply Hnat; symmetry; exact H).
    rewrite Hsa. f_equal. f_equal.
    apply list_insert_insert_ne. exact Hnat.
Qed.

End LockerMore.

Module GrpcMore.
Import Grpc.

(** The connection is made once per process.  After a first call of
    [NewGRPCClient] has dialled, every later call returns without dialling
    and leaves the connection as it is, whatever address and project it is
    given: [GenConn] keeps handing out the first connection, with the first
    project's credential, and never an error. *)
Theorem NewGRPCClient_first_connection_kept
        (dial : string -> list DialOption -> option string)
        (url1 url2 : string) (info1 info2 : BSNProjectInfo) (g g1 : Globals) :
  onceDone g = false ->
  NewGRPCClient dial url1 info1 g = (Returned tt, g1) ->
  NewGRPCClient dial url2 info2 g1 = (Returned tt, g1)
  /\ GenConn g1
     = (Some {| target := url1;
                dialOpts := [WithInsecure; WithPerRPCCredentials (NewBsnToken info1)] |},
        None)
  /\ GenConn (snd (NewGRPCClient dial url2 info2 g1)) = GenConn g1.
Proof.
  intros Honce H1. unfold NewGRPCClient in H1. rewrite Honce in H1.
  destruct (dial url1 _) as [err|]; [discriminate|].
  injection H1 as <-.
  split; [reflexivity|]. split; reflexivity.
Qed.

(** A failed first dial is never retried.  [NewGRPCClient] panics, and from
    then on every call returns normally without dialling, even for an
    address that could be reached: [GenConn] then hands out a nil connection
    together with a nil error. *)
Theorem NewGRPCClient_failed_dial_sticks
        (dial : string -> list DialOption -> option string)
        (url1 url2 : string) (info1 info2 : BSNProjectInfo) (g g1 : Globals) (err : string) :
  onceDone g = false ->
  clientConnSingleton g = None ->
  NewGRPCClient dial url1 info1 g = (Panicked err, g1) ->
  dial url1 [WithInsecure; WithPerRPCCredentials (NewBsnToken info1)] = Some err
  /\ NewGRPCClient dial url2 info2 g1 = (Returned tt, g1)
  /\ GenConn g1 = (None, None).
Proof.
  intros Honce Hnil H1. unfold NewGRPCClient in H1. rewrite Honce in H1.
  destruct (dial url1 _) as [err'|] eqn:Hd; [|discriminate].
  injection H1 as <- <-.
  split; [reflexivity|]. split; [reflexivity|].
  unfold GenConn. cbn. rewrite Hnil. reflexivity.
Qed.

End GrpcMore.

Module BaseMore.
Import Base BaseFacts.
Local Open Scope go_scope.

Section More.
Context `{X : Externals}.

Ltac run_cases H :=
  inversion H; subst; clear H;
  repeat match goal with
         | Hf : send_failed _ _ _ _ _ |- _ => inversion Hf; subst; clear Hf
         | Hlt : (_ < _)%nat |- _ => first [ exfalso; clear -Hlt; lia | clear Hlt ]
         | Heq : @eq nat _ _ |- _ => first [ exfalso; clear -Heq; lia | clear Heq ]
         | Hr : send_run _ _ _ _ _ _ _ |- _ => inversion Hr; subst; clear Hr
         end.

Ltac cut_at H pre :=
  destruct pre as [|? pre];
  [ cbn [app] in H; simplify_eq
  | cbn [app] in H; first [ discriminate H | injection H as ? H; subst; cut_at H pre ] ].

(** [BuildAndSend] takes the lock of the sender's shard first and releases it
    last, on every path, a panic of the build included; in between it only
    builds, broadcasts and invalidates a cached account.  It never broadcasts successfully twice: a broadcast that
    goes through is the last call before the unlock, and [BuildAndSend]
    returns a nil error exactly when one did, with the result of that
    broadcast. *)
Theorem BuildAndSend_locks_once_sends_once (base : baseClient) (msg : list Msg)
        (baseTx : BaseTx) (s : St) :
  let out := fst (BuildAndSend base msg baseTx s) in
  let evs := newEvents s (snd (BuildAndSend base msg baseTx s)) in
  let k := Locker.shardIndex (l base) (From baseTx) in
  (exists mid, evs = EvLock k :: mid ++ [EvUnlock k] /\ Forall sendCall mid)
  /\ (length (successes evs) <= 1)%nat
  /\ (forall r, out = Val (r, None) <-> successes evs = [r])
  /\ (forall pre txByte mode r post,
        evs = pre ++ EvBroadcastTx txByte mode r None :: post -> post = [EvUnlock k]).
Proof.
  intros out evs k.
  destruct (BuildAndSend_run base msg baseTx s) as (evs' & out' & v' & Hrun & Hev & Hout).
  subst out evs k. rewrite Hev, Hout. clear Hev Hout.
  split; [|split; [|split]].
  - exists evs'. split; [reflexivity|].
    run_cases Hrun; cbn [app]; repeat constructor.
  - run_cases Hrun; cbn; lia.
  - intros r. run_cases Hrun; cbn; split; intros H; simplify_eq; reflexivity.
  - intros pre txByte mode r post Hsplit.
    run_cases Hrun; cbn [app] in Hsplit; cut_at Hsplit pre; reflexivity.
Qed.

(** *** The batch loop, call by call *)

(** Where a cut of [A ++ B] falls. *)
Lemma failures_app (a b : list Event) : failures (a ++ b) = failures a ++ failures b.
Proof. unfold failures. apply omap_app. Qed.

Lemma successes_app (a b : list Event) : successes (a ++ b) = successes a ++ successes b.
Proof. unfold successes. apply omap_app. Qed.

Lemma failures_none (evs pre post : list Event) (failed : Event) (e : error) :
  failures evs = [] -> evs = pre ++ failed :: post -> failureOf failed = Some e -> False.
Proof.
  intros Hnone -> Hf. rewrite failures_app in Hnone. cbn in Hnone.
  rewrite Hf in Hnone. destruct (failures pre); discriminate.
Qed.

(** [ValidateTxSize] makes no call, or the one size query. *)
Lemma ValidateTxSize_events (base : baseClient) (txSize : Z) (mss : list Msg) (s : St) :
  exists evs,
    trace (snd (ValidateTxSize base txSize mss s)) = trace s ++ evs
    /\ (evs = [] \/ exists r, evs = [EvTxSizeLimit r]).
Proof.
  unfold ValidateTxSize.
  destruct (existsb _ mss).
  - unfold Grpc.GenConn, mbind, serviceParams, mret, record.
    destruct (ext_serviceParams _ (world s)) as [[lim|e] w]; cbn.
    + destruct (uint64 txSize >? lim); cbn; eexists; (split; [reflexivity|]); right; eauto.
    + eexists; (split; [reflexivity|]); right; eauto.
  - exists []. cbn. rewrite app_nil_r. split; [reflexivity | left; reflexivity].
Qed.

Lemma pass_trace_quiet (r : Res (option error)) (evs : list Event) :
  Forall loopCall evs -> failures evs = [] -> pass_trace r evs.
Proof. intros H1 H2. split; [exact H1 | left; exact H2]. Qed.

Lemma pass_trace_failed (pre : list Event) (failed : Event) (e : error) :
  Forall loopCall (pre ++ [failed]) -> failures pre = [] -> failureOf failed = Some e ->
  pass_trace (Val (Some e)) (pre ++ [failed]).
Proof.
  intros H1 H2 H3. split; [exact H1|]. right. exists pre, failed, e. repeat split; assumption.
Qed.

Lemma pass_trace_prefix (r : Res (option error)) (pre evs : list Event) :
  Forall loopCall pre -> failures pre = [] -> pass_trace r evs -> pass_trace r (pre ++ evs).
Proof.
  intros Hc Hf [Hall Hcase]. split; [apply Forall_app; split; assumption|].
  destruct Hcase as [Hnone | (p & failed & e & -> & Hfe & Hp & Hr)].
  - left. rewrite failures_app, Hf, Hnone. reflexivity.
  - right. exists (pre ++ p), failed, e. rewrite app_assoc.
    split; [reflexivity|]. split; [exact Hfe|]. split; [|exact Hr].
    rewrite failures_app, Hf, Hp. reflexivity.
Qed.

(** A pass over the groups: its calls, and the results it adds. *)
Lemma sendGroups_trace (base : baseClient) (baseTx : BaseTx) (groups : list (list Msg)) :
  forall i v s r v' s',
    sendGroups base baseTx groups i (v, s) = (r, (v', s')) ->
    exists evs,
      trace s' = trace s ++ evs /\ pass_trace r evs /\ rs v' = rs v ++ successes evs.
Proof.
  induction groups as [|mss rest IH]; intros i v s r v' s' H.
  - injection H as <- <- <-. exists []. rewrite !app_nil_r.
    split; [reflexivity|]. split; [apply pass_trace_quiet; [constructor | reflexivity]|].
    reflexivity.
  - cbn [sendGroups] in H. unfold mbind, lift, buildTx, getL, putL, mret in H.
    cbn [fst snd] in H.
    destruct (ext_buildTx mss baseTx (world s)) as [[txByte ctx|e|e] w].
    + set (s1 := record (EvBuildTx mss (Built txByte ctx)) w s) in H.
      destruct (ValidateTxSize_events base (Z.of_nat (length txByte)) mss s1)
        as (evs & Htr & Hevs).
      assert (Htr1 : trace s1 = trace s ++ [EvBuildTx mss (Built txByte ctx)])
        by reflexivity.
      assert (Hq : Forall loopCall ([EvBuildTx mss (Built txByte ctx)] ++ evs)
                   /\ failures ([EvBuildTx mss (Built txByte ctx)] ++ evs) = []
                   /\ successes ([EvBuildTx mss (Built txByte ctx)] ++ evs) = []).
      { destruct Hevs as [-> | (r0 & ->)]; cbn; repeat constructor. }
      destruct Hq as (Hq1 & Hq2 & Hq3).
      clearbody s1. rewrite Htr1, <- app_assoc in Htr. clear Htr1 Hevs.
      set (pfx := [EvBuildTx mss (Built txByte ctx)] ++ evs) in *. clearbody pfx.
      destruct (ValidateTxSize base (Z.of_nat (length txByte)) mss s1)
        as [[[valid [e|]]|e] s2] eqn:EV; cbn [fst snd] in Htr, H.
      all: try rewrite EV in H.
      * assert (H' : (Val (Some e), (v, s2)) = (r, (v', s'))) by (destruct valid; exact H).
        clear H. injection H' as <- <- <-.
        exists pfx. split; [exact Htr|]. split; [apply pass_trace_quiet; assumption|].
        rewrite Hq3, app_nil_r. reflexivity.
      * destruct valid.
        -- unfold broadcastTx in H. cbn [fst snd] in H.
           destruct (ext_broadcastTx txByte (FactoryMode ctx) (world s2))
             as [[r0 [e|]] w'] eqn:EB.
           all: try rewrite EB in H.
           all: simpl in H.
           ++ injection H as <- <- <-.
              exists (pfx ++ [EvBroadcastTx txByte (FactoryMode ctx) r0 (Some e)]).
              split; [cbn [trace record]; rewrite Htr, <- !app_assoc; reflexivity|].
              split.
              ** apply pass_trace_failed; [|exact Hq2 | reflexivity].
                 apply Forall_app. split; [exact Hq1 | repeat constructor].
              ** cbn [rs]. rewrite successes_app, Hq3. cbn. rewrite app_nil_r. reflexivity.
           ++ apply IH in H. destruct H as (evs' & Htr' & Hpass & Hrs).
              cbn [batch rs trace record] in *.
              exists ((pfx ++ [EvBroadcastTx txByte (FactoryMode ctx) r0 None]) ++ evs').
              split; [rewrite Htr', Htr, <- !app_assoc; reflexivity|].
              split.
              ** apply pass_trace_prefix; [| |exact Hpass].
                 --- apply Forall_app. split; [exact Hq1 | repeat constructor].
                 --- rewrite failures_app, Hq2. reflexivity.
              ** rewrite Hrs, !successes_app, Hq3. cbn. rewrite <- app_assoc. reflexivity.
        -- unfold sliceFrom, mpanic, mret in H. cbn [fst snd] in H.
           destruct ((i * batch v <? 0) || (Z.of_nat (length (msgs v)) <? i * batch v))
             eqn:ES.
           all: try rewrite ES in H.
           all: simpl in H; injection H as <- <- <-.
           all: exists pfx; (split; [exact Htr|]);
             (split; [apply pass_trace_quiet; assumption|]);
             cbn [rs]; rewrite Hq3, app_nil_r; reflexivity.
      * injection H as <- <- <-.
        exists pfx. split; [exact Htr|]. split; [apply pass_trace_quiet; assumption|].
        rewrite Hq3, app_nil_r. reflexivity.
    + injection H as <- <- <-.
      exists ([] ++ [EvBuildTx mss (BuildFailed e)]).
      split; [reflexivity|]. split.
      * apply pass_trace_failed; [repeat constructor | reflexivity | reflexivity].
      * cbn. rewrite app_nil_r. reflexivity.
    + injection H as <- <- <-.
      exists [EvBuildTx mss (BuildPanicked e)].
      split; [reflexivity|]. split.
      * apply pass_trace_quiet; [repeat constructor | reflexivity].
      * cbn. rewrite app_nil_r. reflexivity.
Qed.
Lemma batch_attempt_trace (base : baseClient) (baseTx : BaseTx) v s r v' s' :
  batch_retryableFunc base baseTx (v, s) = (r, (v', s')) ->
  exists evs,
    trace s' = trace s ++ evs /\ pass_trace r evs /\ rs v' = rs v ++ successes evs.
Proof.
  intros H. unfold batch_retryableFunc, mbind, getL, lift in H. cbn [fst snd] in H.
  apply sendGroups_trace in H. destruct H as (evs & Htr & Hpass & Hrs).
  exists ([EvSubArray (batch v) (SubArray (batch v) (msgs v))] ++ evs).
  cbn [trace record] in Htr. rewrite <- app_assoc in Htr.
  split; [exact Htr|]. split.
  - apply pass_trace_prefix; [repeat constructor | reflexivity | exact Hpass].
  - rewrite Hrs, successes_app. reflexivity.
Qed.

Lemma settled_nil : settled [].
Proof. intros pre failed e post H. destruct pre; discriminate H. Qed.

Lemma settled_app_quiet (a b : list Event) :
  settled a -> failures b = [] -> settled (a ++ b).
Proof.
  intros Ha Hb pre failed e post Hcut Hf.
  destruct (app_cut _ _ _ _ _ Hcut) as [(post1 & Heq & ->) | (pre2 & _ & Heq)].
  - destruct (Ha _ _ _ _ Heq Hf) as (Hr & a0 & post' & ->).
    split; [exact Hr|]. exists a0, (post' ++ b). reflexivity.
  - exfalso. exact (failures_none _ _ _ _ _ Hb Heq Hf).
Qed.

Lemma settled_retried (a : list Event) (failed : Event) (e : error) (addr : string) :
  settled a -> failureOf failed = Some e -> batch_retryIf e = true ->
  settled (a ++ [failed; EvRemoveCache addr]).
Proof.
  intros Ha Hfe Hr pre f e' post Hcut Hf.
  destruct (app_cut _ _ _ _ _ Hcut) as [(post1 & Heq & ->) | (pre2 & _ & Heq)].
  - destruct (Ha _ _ _ _ Heq Hf) as (Hr' & a0 & post' & ->).
    split; [exact Hr'|]. exists a0, (post' ++ [failed; EvRemoveCache addr]). reflexivity.
  - destruct pre2 as [|x [|y pre2]]; cbn in Heq.
    + injection Heq as <- <-. rewrite Hfe in Hf. injection Hf as <-.
      split; [exact Hr|]. exists addr, []. reflexivity.
    + injection Heq as _ <- _. discriminate Hf.
    + injection Heq as _ _ Heq. destruct pre2; discriminate Heq.
Qed.

(** The whole loop of [SendBatch], from the state [s] in which the lock is
    taken: its calls are loop calls, [rs] holds the results of the broadcasts
    that went through, and the failed calls are settled, but for a last one
    whose error the loop does not retry. *)
Lemma batch_run_trace (base : baseClient) (msgs0 : list Msg) (baseTx : BaseTx) (s : St) :
  let fin := retry_Do batch_config (batch_retryableFunc base baseTx)
                      (batch_vars msgs0, Lock (l base) (From baseTx) s) in
  exists evs,
    trace (snd (snd fin))
    = trace s ++ EvLock (Locker.shardIndex (l base) (From baseTx)) :: evs
    /\ Forall loopCall evs
    /\ rs (fst (snd fin)) = successes evs
    /\ (settled evs
        \/ exists pre failed e,
            evs = pre ++ [failed] /\ settled pre /\ failureOf failed = Some e
            /\ batch_retryIf e = false).
Proof.
  intros fin.
  set (k := Locker.shardIndex (l base) (From baseTx)) in *.
  set (P := fun (n : nat) (vs : BatchVars * St) =>
              exists evs,
                trace (snd vs) = trace s ++ EvLock k :: evs
                /\ Forall loopCall evs /\ rs (fst vs) = successes evs /\ settled evs).
  set (Q := fun (n : nat) (r : Res (option error)) (vs : BatchVars * St) =>
              exists evs,
                trace (snd vs) = trace s ++ EvLock k :: evs
                /\ Forall loopCall evs /\ rs (fst vs) = successes evs
                /\ (settled evs
                    \/ exists pre failed e,
                        evs = pre ++ [failed] /\ settled pre /\ failureOf failed = Some e
                        /\ r = Val (Some e))).
  destruct (retry_loop_rule_result batch_config (batch_retryableFunc base baseTx) P Q)
    with (fuel := attempts batch_config) (n := 0%nat) (idx := 0%nat)
         (log := replicate (if lastErrorOnly batch_config then 1%nat
                            else attempts batch_config) (@None error))
         (s := (batch_vars msgs0, Lock (l base) (From baseTx) s))
    as [(m & r & _ & HQ & Hstop) | (m & _ & HP)].
  - intros n [v st] _ (evs & Htr & Hall & Hrs & Hset). cbn [fst snd] in *.
    destruct (batch_retryableFunc base baseTx (v, st)) as [r [v' st']] eqn:E.
    apply batch_attempt_trace in E. destruct E as (evs' & Htr' & [Hall' Hcase] & Hrs').
    exists (evs ++ evs'). cbn [fst snd].
    split; [rewrite Htr', Htr, <- app_assoc; reflexivity|].
    split; [apply Forall_app; split; assumption|].
    split; [rewrite Hrs', Hrs, successes_app; reflexivity|].
    destruct Hcase as [Hnone | (pre & failed & e & -> & Hfe & Hpre & ->)].
    + left. apply settled_app_quiet; assumption.
    + right. exists (evs ++ pre), failed, e. rewrite app_assoc.
      split; [reflexivity|]. split; [apply settled_app_quiet; assumption|].
      split; [exact Hfe | reflexivity].
  - intros n e [v st] _ (evs & Htr & Hall & Hrs & Hcase) Hif. cbn [fst snd] in *.
    change (retryIf batch_config e) with (batch_retryIf e) in Hif.
    exists (evs ++ [EvRemoveCache (batchAddress v)]). cbn.
    split; [rewrite Htr, <- app_assoc; reflexivity|].
    split; [apply Forall_app; split; [exact Hall | repeat constructor]|].
    split; [rewrite successes_app; cbn; rewrite app_nil_r; exact Hrs|].
    destruct Hcase as [Hset | (pre & failed & e' & -> & Hpre & Hfe & Heq)].
    + apply settled_app_quiet; [exact Hset | reflexivity].
    + injection Heq as Heq. subst e'. rewrite <- app_assoc.
      apply (settled_retried pre failed e); assumption.
  - lia.
  - exists []. cbn. split; [reflexivity|]. split; [constructor|].
    split; [reflexivity | apply settled_nil].
  - destruct HQ as (evs & Htr & Hall & Hrs & Hcase).
    exists evs. split; [exact Htr|]. split; [exact Hall|]. split; [exact Hrs|].
    destruct Hcase as [Hset | (pre & failed & e & -> & Hpre & Hfe & ->)].
    + left. exact Hset.
    + right. exists pre, failed, e.
      split; [reflexivity|]. split; [exact Hpre|]. split; [exact Hfe | exact Hstop].
  - destruct HP as (evs & Htr & Hall & Hrs & Hset).
    exists evs. split; [exact Htr|]. split; [exact Hall|]. split; [exact Hrs|].
    left. exact Hset.
Qed.

(** What [SendBatch] does once the messages are validated, in terms of
    [batch_run_trace]. *)
Lemma SendBatch_trace (base : baseClient) (msgs0 : list Msg) (baseTx : BaseTx) (s : St) :
  msgs0 <> [] -> Forall (fun m => ValidateBasic m = None) msgs0 ->
  exists mid,
    newEvents s (snd (SendBatch base msgs0 baseTx s))
    = EvLock (Locker.shardIndex (l base) (From baseTx))
        :: mid ++ [EvUnlock (Locker.shardIndex (l base) (From baseTx))]
    /\ Forall loopCall mid
    /\ fst (SendBatch base msgs0 baseTx s) = Val (successes mid, None)
    /\ (settled mid
        \/ exists pre failed e,
            mid = pre ++ [failed] /\ settled pre /\ failureOf failed = Some e
            /\ batch_retryIf e = false).
Proof.
  intros Hne Hvalid.
  destruct (batch_run_trace base msgs0 baseTx s) as (mid & Htr & Hall & Hrs & Hcase).
  exists mid. unfold SendBatch.
  destruct msgs0 as [|m0 rest0] eqn:Hm; [contradiction|]. rewrite <- Hm in *.
  replace (length msgs0 =? 0)%nat with false by (rewrite Hm; reflexivity).
  rewrite (validateMsgs_all_valid _ Hvalid).
  destruct (retry_Do batch_config (batch_retryableFunc base baseTx) _) as [out [v' s2]].
  cbn [fst snd] in Htr, Hrs.
  assert (Hnew : newEvents s (Unlock (l base) (From baseTx) s2)
                 = EvLock (Locker.shardIndex (l base) (From baseTx))
                     :: mid ++ [EvUnlock (Locker.shardIndex (l base) (From baseTx))]).
  { apply newEvents_app. cbn. rewrite Htr, <- app_assoc. reflexivity. }
  split; [destruct out; exact Hnew|]. split; [exact Hall|].
  split; [destruct out; cbn [fst]; rewrite Hrs; reflexivity | exact Hcase].
Qed.

(** Once the messages are validated, [SendBatch] takes the lock of the
    sender's shard first and releases it last, whether the loop ends well,
    gives up or panics, and touches no lock in between. *)
Theorem SendBatch_locks_once (base : baseClient) (msgs0 : list Msg) (baseTx : BaseTx)
        (s : St) :
  msgs0 <> [] -> Forall (fun m => ValidateBasic m = None) msgs0 ->
  exists mid,
    newEvents s (snd (SendBatch base msgs0 baseTx s))
    = EvLock (Locker.shardIndex (l base) (From baseTx))
        :: mid ++ [EvUnlock (Locker.shardIndex (l base) (From baseTx))]
    /\ Forall loopCall mid.
Proof.
  intros Hne Hvalid.
  destruct (SendBatch_trace base msgs0 baseTx s Hne Hvalid) as (mid & Hnew & Hall & _).
  exists mid. split; assumption.
Qed.

(** The results [SendBatch] returns are those of the broadcasts that went
    through, one for each and in their order, over all the attempts; and
    they come with a nil error. *)
Theorem SendBatch_returns_every_success (base : baseClient) (msgs0 : list Msg)
        (baseTx : BaseTx) (s : St) :
  msgs0 <> [] -> Forall (fun m => ValidateBasic m = None) msgs0 ->
  fst (SendBatch base msgs0 baseTx s)
  = Val (successes (newEvents s (snd (SendBatch base msgs0 baseTx s))), None).
Proof.
  intros Hne Hvalid.
  destruct (SendBatch_trace base msgs0 baseTx s Hne Hvalid) as (mid & Hnew & _ & Hres & _).
  rewrite Hnew, Hres.
  change (EvLock ?k :: mid ++ ?u) with ([EvLock k] ++ mid ++ u).
  rewrite !successes_app. cbn. rewrite app_nil_r. reflexivity.
Qed.

(** Every failed build or broadcast in a run of [SendBatch] is dealt with in
    one of two ways.  If its error carries [InvalidSequence] or [TxTooLarge],
    the next call invalidates a cached account; otherwise nothing follows it
    but the unlock: no group is built or broadcast after it. *)
Theorem SendBatch_failure_discipline (base : baseClient) (msgs0 : list Msg)
        (baseTx : BaseTx) (s : St) (pre post : list Event) (failed : Event) (e : error) :
  msgs0 <> [] -> Forall (fun m => ValidateBasic m = None) msgs0 ->
  newEvents s (snd (SendBatch base msgs0 baseTx s)) = pre ++ failed :: post ->
  failureOf failed = Some e ->
  (batch_retryIf e = true /\ exists a post', post = EvRemoveCache a :: post')
  \/ (batch_retryIf e = false
      /\ post = [EvUnlock (Locker.shardIndex (l base) (From baseTx))]).
Proof.
  intros Hne Hvalid Hcut Hf.
  destruct (SendBatch_trace base msgs0 baseTx s Hne Hvalid) as (mid & Hnew & _ & _ & Hcase).
  rewrite Hnew in Hcut.
  destruct pre as [|x pre]; cbn in Hcut; injection Hcut as <- Hcut; [discriminate Hf|].
  destruct (app_cut _ _ _ _ _ Hcut) as [(post1 & Heq & ->) | (pre2 & _ & Heq)].
  2:{ destruct pre2 as [|y pre2]; cbn in Heq.
      - injection Heq as <- _. discriminate Hf.
      - injection Heq as _ Heq. destruct pre2; discriminate Heq. }
  destruct Hcase as [Hset | (pre' & failed' & e' & -> & Hpre & Hfe & Hif)].
  - left. destruct (Hset _ _ _ _ Heq Hf) as (Hr & a & post' & ->).
    split; [exact Hr|]. exists a, (post' ++ [EvUnlock (Locker.shardIndex (l base) (From baseTx))]).
    reflexivity.
  - destruct (app_cut _ _ _ _ _ Heq) as [(post2 & Heq' & ->) | (pre3 & _ & Heq')].
    + left. destruct (Hpre _ _ _ _ Heq' Hf) as (Hr & a & post' & ->).
      split; [exact Hr|].
      exists a, ((post' ++ [failed']) ++ [EvUnlock (Locker.shardIndex (l base) (From baseTx))]).
      rewrite <- !app_assoc. reflexivity.
    + destruct pre3 as [|y pre3]; cbn in Heq'.
      * injection Heq' as <- <-. rewrite Hfe in Hf. injection Hf as <-.
        right. split; [exact Hif | reflexivity].
      * injection Heq' as _ Heq'. destruct pre3; discriminate Heq'.
Qed.
Lemma sendGroups_extends (base : baseClient) (baseTx : BaseTx) (groups : list (list Msg))
      (i : Z) (vs : BatchVars * St) :
  extends vs (snd (sendGroups base baseTx groups i vs)).
Proof.
  destruct vs as [v s].
  destruct (sendGroups base baseTx groups i (v, s)) as [r [v' s']] eqn:E.
  apply sendGroups_pass in E. destruct E as ((evs & Htr & _) & _ & Hrs).
  split; cbn [fst snd]; [exists evs; exact Htr | exact Hrs].
Qed.

(** A group that is built, passes the size check and is broadcast: its
    result is appended to [rs] and the loop goes on with the next group. *)
Lemma sendGroups_sent_head (base : baseClient) (baseTx : BaseTx) (g : list Msg)
      (rest : list (list Msg)) (i : Z) (v : BatchVars) (s sa sb sc : St)
      (tx : list Byte.byte) (ctx : Factory) (r : ResultTx) :
  buildTx g baseTx s = (Val (inl (tx, ctx)), sa) ->
  ValidateTxSize base (Z.of_nat (length tx)) g sa = (Val (true, None), sb) ->
  broadcastTx tx (FactoryMode ctx) sb = (Val (r, None), sc) ->
  sendGroups base baseTx (g :: rest) i (v, s)
  = sendGroups base baseTx rest (i + 1)
      ({| msgs := msgs v; batch := batch v; batchAddress := batchAddress v;
          rs := rs v ++ [r] |}, sc).
Proof.
  intros Hb Hv Hs. cbn [sendGroups].
  unfold mbind at 1, lift at 1. cbn [fst snd]. rewrite Hb.
  unfold mbind at 1, lift at 1. cbn [fst snd]. rewrite Hv.
  unfold mbind at 1, lift at 1. cbn [fst snd]. rewrite Hs.
  unfold mbind at 1, getL at 1. cbn [fst snd].
  unfold mbind at 1, putL at 1. cbn [fst snd]. reflexivity.
Qed.

(** A group that is built and passes the size check, and whose broadcast
    fails: the closure ends with the error, having noted the signer's
    address; [msgs], [batch] and [rs] are as they were. *)
Lemma sendGroups_failed_head (base : baseClient) (baseTx : BaseTx) (g : list Msg)
      (rest : list (list Msg)) (i : Z) (v : BatchVars) (s sa sb sc : St)
      (tx : list Byte.byte) (ctx : Factory) (r : ResultTx) (e : error) :
  buildTx g baseTx s = (Val (inl (tx, ctx)), sa) ->
  ValidateTxSize base (Z.of_nat (length tx)) g sa = (Val (true, None), sb) ->
  broadcastTx tx (FactoryMode ctx) sb = (Val (r, Some e), sc) ->
  sendGroups base baseTx (g :: rest) i (v, s)
  = (Val (Some e),
     ({| msgs := msgs v; batch := batch v; batchAddress := Address ctx; rs := rs v |}, sc)).
Proof.
  intros Hb Hv Hs. cbn [sendGroups].
  unfold mbind at 1, lift at 1. cbn [fst snd]. rewrite Hb.
  unfold mbind at 1, lift at 1. cbn [fst snd]. rewrite Hv.
  unfold mbind at 1, lift at 1. cbn [fst snd]. rewrite Hs.
  unfold mbind at 1, getL at 1. cbn [fst snd].
  unfold mbind at 1, putL at 1. cbn [fst snd]. reflexivity.
Qed.

(** The loop, with an attempt left, runs the closure: its final state comes
    after the state the closure ends in. *)
Lemma batch_loop_after_attempt (base : baseClient) (baseTx : BaseTx) (fuel n idx : nat)
      (log : list (option error)) (vs : BatchVars * St) :
  (n < 3)%nat ->
  extends (snd (batch_retryableFunc base baseTx vs))
          (snd (retry_loop batch_config (batch_retryableFunc base baseTx)
                           (Datatypes.S fuel) n idx log vs)).
Proof.
  intros Hn. rewrite retry_loop_unfold.
  change (attempts batch_config) with 3%nat.
  destruct (Nat.ltb_spec n 3) as [_|]; [|lia].
  destruct (batch_retryableFunc base baseTx vs) as [[[e|]|e] vs1]; cbn [snd];
    try apply extends_refl.
  destruct (negb (retryIf batch_config e)); [apply extends_refl|].
  pose proof (batch_onRetry_extends n e vs1) as H2.
  change (onRetry batch_config n e vs1) with (batch_onRetry n e vs1).
  destruct (batch_onRetry n e vs1) as [[[]|e'] vs2]; cbn [snd] in H2 |- *.
  - destruct (n =? 3 - 1)%nat; [exact H2|].
    eapply extends_trans; [exact H2 | apply batch_loop_extends].
  - exact H2.
Qed.

(** A batch of at least two groups.  The first group is broadcast; the
    broadcast of the second fails with an error the loop retries (a stale
    sequence number, say).  The closure leaves [msgs] and [batch] as they
    were, so the second attempt partitions the whole list again and builds
    the first group anew; if that goes through once more, the first group
    has been broadcast twice and [SendBatch] returns both results. *)
Theorem SendBatch_retry_resends_first_group (base : baseClient) (msgs0 : list Msg)
        (baseTx : BaseTx) (g1 g2 : list Msg) (rest : list (list Msg))
        (s s3 s4 s5 s6 s7 s8 s10 s11 s12 : St) (tx1 tx2 tx1' : list Byte.byte)
        (ctx1 ctx2 ctx1' : Factory) (res1 res2 res1' : ResultTx) (e : error) :
  let s1 := Lock (l base) (From baseTx) s in
  let s2 := record (EvSubArray maxBatch (g1 :: g2 :: rest)) (world s1) s1 in
  let s9 := record (EvSubArray maxBatch (g1 :: g2 :: rest))
                   (ext_removeCache (Address ctx2) (world s8))
                   (record (EvRemoveCache (Address ctx2))
                           (ext_removeCache (Address ctx2) (world s8)) s8) in
  msgs0 <> [] ->
  Forall (fun m => ValidateBasic m = None) msgs0 ->
  SubArray maxBatch msgs0 = g1 :: g2 :: rest ->
  buildTx g1 baseTx s2 = (Val (inl (tx1, ctx1)), s3) ->
  ValidateTxSize base (Z.of_nat (length tx1)) g1 s3 = (Val (true, None), s4) ->
  broadcastTx tx1 (FactoryMode ctx1) s4 = (Val (res1, None), s5) ->
  buildTx g2 baseTx s5 = (Val (inl (tx2, ctx2)), s6) ->
  ValidateTxSize base (Z.of_nat (length tx2)) g2 s6 = (Val (true, None), s7) ->
  broadcastTx tx2 (FactoryMode ctx2) s7 = (Val (res2, Some e), s8) ->
  batch_retryIf e = true ->
  buildTx g1 baseTx s9 = (Val (inl (tx1', ctx1')), s10) ->
  ValidateTxSize base (Z.of_nat (length tx1')) g1 s10 = (Val (true, None), s11) ->
  broadcastTx tx1' (FactoryMode ctx1') s11 = (Val (res1', None), s12) ->
  batch_retryableFunc base baseTx (batch_vars msgs0, s1)
  = (Val (Some e),
     ({| msgs := msgs0; batch := maxBatch; batchAddress := Address ctx2; rs := [res1] |}, s8))
  /\ exists evs more,
      trace (snd (SendBatch base msgs0 baseTx s)) = trace s12 ++ evs
      /\ fst (SendBatch base msgs0 baseTx s) = Val (res1 :: res1' :: more, None).
Proof.
  intros s1 s2 s9 Hne Hvalid Hp Hb1 Hv1 Hs1 Hb2 Hv2 Hs2 Hif Hb1' Hv1' Hs1'.
  assert (Hfirst : batch_retryableFunc base baseTx (batch_vars msgs0, s1)
     = (Val (Some e),
        ({| msgs := msgs0; batch := maxBatch; batchAddress := Address ctx2; rs := [res1] |},
         s8))).
  { unfold batch_vars, batch_retryableFunc, mbind at 1, getL at 1. cbn [fst snd batch msgs].
    rewrite Hp. unfold mbind at 1, lift at 1. cbn [fst snd]. fold s2.
    rewrite (sendGroups_sent_head base baseTx g1 (g2 :: rest) 0 _ s2 s3 s4 s5 tx1 ctx1 res1
               Hb1 Hv1 Hs1).
    cbn [msgs batch batchAddress rs app].
    rewrite (sendGroups_failed_head base baseTx g2 rest (0 + 1) _ s5 s6 s7 s8 tx2 ctx2 res2 e
               Hb2 Hv2 Hs2).
    reflexivity. }
  split; [exact Hfirst|].
  set (v8 := {| msgs := msgs0; batch := maxBatch; batchAddress := Address ctx2;
                rs := [res1] |}) in *.
  set (s8' := record (EvRemoveCache (Address ctx2))
                     (ext_removeCache (Address ctx2) (world s8)) s8).
  assert (Hloop :
      retry_Do batch_config (batch_retryableFunc base baseTx) (batch_vars msgs0, s1)
      = retry_loop batch_config (batch_retryableFunc base baseTx) 2 1 1
          [Some e; None; None] (v8, s8')).
  { unfold retry_Do. change (attempts batch_config) with 3%nat.
    rewrite (retry_loop_unfold batch_config _ 2 0 0).
    change (0 <? attempts batch_config)%nat with true. cbv iota.
    rewrite Hfirst.
    change (retryIf batch_config) with batch_retryIf.
    rewrite Hif. reflexivity. }
  assert (Hsecond : extends
            ({| msgs := msgs0; batch := maxBatch; batchAddress := Address ctx2;
                rs := [res1; res1'] |}, s12)
            (snd (batch_retryableFunc base baseTx (v8, s8')))).
  { unfold batch_retryableFunc, mbind at 1, getL at 1. cbn [fst snd batch msgs v8].
    rewrite Hp. unfold mbind at 1, lift at 1. cbn [fst snd].
    change (record (EvSubArray maxBatch (g1 :: g2 :: rest)) (world s8') s8') with s9.
    rewrite (sendGroups_sent_head base baseTx g1 (g2 :: rest) 0 _ s9 s10 s11 s12
               tx1' ctx1' res1' Hb1' Hv1' Hs1').
    cbn [msgs batch batchAddress rs app].
    apply sendGroups_extends. }
  pose proof (batch_loop_after_attempt base baseTx 1 1 1 [Some e; None; None] (v8, s8')
                ltac:(lia)) as Hafter.
  pose proof (extends_trans _ _ _ Hsecond Hafter) as [(evs & Htr) (more & Hrs)].
  cbn [fst snd rs] in Htr, Hrs.
  unfold SendBatch.
  destruct msgs0 as [|m0 rest0] eqn:Hm; [contradiction|]. rewrite <- Hm in *.
  replace (length msgs0 =? 0)%nat with false by (rewrite Hm; reflexivity).
  rewrite (validateMsgs_all_valid _ Hvalid).
  fold s1. rewrite Hloop.
  destruct (retry_loop batch_config (batch_retryableFunc base baseTx) 2 1 1
              [Some e; None; None] (v8, s8')) as [out [v' sf]].
  cbn [fst snd] in Htr, Hrs.
  exists (evs ++ [EvUnlock (Locker.shardIndex (l base) (From baseTx))]), more.
  split.
  - destruct out; cbn; rewrite Htr, <- app_assoc; reflexivity.
  - destruct out; cbn [fst]; rewrite Hrs; reflexivity.
Qed.

(** The size limit concerns the service module alone.  Among messages none
    of which is routed to it, [ValidateTxSize] accepts any size, and asks
    the node nothing: the state is as it was. *)
Theorem ValidateTxSize_skips_other_modules (base : baseClient) (txSize : Z)
        (mss : list Msg) (s : St) :
  Forall (fun m => Route m <> serviceModuleName) mss ->
  ValidateTxSize base txSize mss s = (Val (true, None), s).
Proof.
  intros Hall. unfold ValidateTxSize.
  replace (existsb (fun msg => String.eqb (Route msg) serviceModuleName) mss) with false;
    [reflexivity|].
  symmetry. induction Hall as [|m ms Hm _ IH]; cbn; [reflexivity|].
  rewrite IH, orb_false_r. apply String.eqb_neq. exact Hm.
Qed.

(** With a message of the service module anywhere in the list, the limit is
    asked for once, from the connection [GenConn] hands out.  If the query
    fails, its error is returned wrapped, with the verdict [false].  If it
    answers, no error is returned, and a size between 0 and 2^64 is accepted
    exactly when it does not exceed the limit. *)
Theorem ValidateTxSize_service_verdict (base : baseClient) (txSize : Z)
        (pre post : list Msg) (m : Msg) (s : St) :
  Route m = serviceModuleName ->
  0 <= txSize < 2 ^ 64 ->
  exists r,
    newEvents s (snd (ValidateTxSize base txSize (pre ++ m :: post) s)) = [EvTxSizeLimit r]
    /\ fst (ext_serviceParams (Grpc.clientConnSingleton (conn base)) (world s)) = r
    /\ fst (ValidateTxSize base txSize (pre ++ m :: post) s)
       = match r with
         | inl limit => Val (txSize <=? limit, None)
         | inr err => Val (false, Some (Wrap err))
         end.
Proof.
  intros Hm Hsize. unfold ValidateTxSize.
  replace (existsb (fun msg => String.eqb (Route msg) serviceModuleName) (pre ++ m :: post))
    with true.
  2:{ symmetry. rewrite existsb_app. cbn.
      replace (Route m =? serviceModuleName)%string with true
        by (symmetry; apply String.eqb_eq; exact Hm).
      rewrite orb_true_r. reflexivity. }
  unfold Grpc.GenConn, mbind, serviceParams, mret, record.
  destruct (ext_serviceParams _ (world s)) as [[lim|e] w]; cbn.
  - exists (inl lim). unfold uint64. rewrite Z.mod_small by exact Hsize.
    destruct (Z.gtb_spec txSize lim) as [Hgt|Hle]; cbn.
    + split; [unfold newEvents; cbn; apply drop_app_length|]. split; [reflexivity|].
      replace (txSize <=? lim) with false by (symmetry; apply Z.leb_gt; lia). reflexivity.
    + split; [unfold newEvents; cbn; apply drop_app_length|]. split; [reflexivity|].
      replace (txSize <=? lim) with true by (symmetry; apply Z.leb_le; lia). reflexivity.
  - exists (inr e).
    split; [unfold newEvents; cbn; apply drop_app_length|]. split; reflexivity.
Qed.

(** The paths of [prepare]. *)
Ltac prepare_paths base baseTx s :=
  unfold prepare, mbind, QueryAddress, QueryAndRefreshAccount, ToMinCoin, mret, mpanic, record;
  let addr := fresh "addr" in
  let e1 := fresh "e1" in
  let w1 := fresh "w1" in
  let Ha := fresh "Ha" in
  destruct (ext_QueryAddress (From baseTx) (Password baseTx) (world s))
    as [[addr|e1] w1] eqn:Ha; simpl;
  [ let acc := fresh "acc" in
    let e2 := fresh "e2" in
    let w2 := fresh "w2" in
    let Hacc := fresh "Hacc" in
    destruct (ext_QueryAndRefreshAccount addr w1) as [[acc|e2] w2] eqn:Hacc; simpl;
    [ let Hc := fresh "Hc" in
      destruct (negb (Empty (Fee baseTx)) && IsValid (Fee baseTx)) eqn:Hc; simpl;
      [ let fees := fresh "fees" in
        let e3 := fresh "e3" in
        let w3 := fresh "w3" in
        let Hf := fresh "Hf" in
        destruct (ext_ToMinCoin (Fee baseTx) w2) as [[fees|e3] w3] eqn:Hf; simpl
      | let fees := fresh "fees" in
        let e3 := fresh "e3" in
        let w3 := fresh "w3" in
        let Hf := fresh "Hf" in
        destruct (ext_ToMinCoin (cfg_Fee (cfg base)) w2) as [[fees|e3] w3] eqn:Hf; simpl ]
    | ]
  | ].

(** [prepare] returns an error in three cases and no other: the sender's
    address is not found, the account is not found, or the request carries a
    fee that is not empty and valid and cannot be converted.  The error is
    the one of the failed call, as it is. *)
Theorem prepare_error_iff (base : baseClient) (baseTx : BaseTx) (s : St) (e : error) :
  fst (prepare base baseTx s) = Val (inr e)
  <-> (exists w1,
         ext_QueryAddress (From baseTx) (Password baseTx) (world s) = (inr e, w1))
      \/ (exists addr w1 w2,
            ext_QueryAddress (From baseTx) (Password baseTx) (world s) = (inl addr, w1)
            /\ ext_QueryAndRefreshAccount addr w1 = (inr e, w2))
      \/ (exists addr w1 account w2 w3,
            ext_QueryAddress (From baseTx) (Password baseTx) (world s) = (inl addr, w1)
            /\ ext_QueryAndRefreshAccount addr w1 = (inl account, w2)
            /\ Empty (Fee baseTx) = false /\ IsValid (Fee baseTx) = true
            /\ ext_ToMinCoin (Fee baseTx) w2 = (inr e, w3)).
Proof.
  prepare_paths base baseTx s.
  - split; [discriminate|].
    intros [(w & [=]) | [(a & wa & wb & [= <- <-] & Hb) | (a & wa & ac & wb & wc & [= <- <-] & Hb & _ & _ & Hd)]].
    + rewrite Hacc in Hb. discriminate Hb.
    + rewrite Hacc in Hb. injection Hb as <- <-. rewrite Hf in Hd. discriminate Hd.
  - split.
    + intros [= <-]. right. right. apply andb_prop in Hc. destruct Hc as [Hc1 Hc2].
      exists addr, w1, acc, w2, w3. split; [reflexivity|]. split; [exact Hacc|].
      split; [apply negb_true_iff; exact Hc1|]. split; [exact Hc2 | exact Hf].
    + intros [(w & [=]) | [(a & wa & wb & [= <- <-] & Hb) | (a & wa & ac & wb & wc & [= <- <-] & Hb & _ & _ & Hd)]].
      * rewrite Hacc in Hb. discriminate Hb.
      * rewrite Hacc in Hb. injection Hb as <- <-. rewrite Hf in Hd.
        injection Hd as <- _. reflexivity.
  - split; [discriminate|].
    intros [(w & [=]) | [(a & wa & wb & [= <- <-] & Hb) | (a & wa & ac & wb & wc & [= <- <-] & Hb & He & Hv & Hd)]].
    + rewrite Hacc in Hb. discriminate Hb.
    + rewrite He, Hv in Hc. discriminate Hc.
  - split; [discriminate|].
    intros [(w & [=]) | [(a & wa & wb & [= <- <-] & Hb) | (a & wa & ac & wb & wc & [= <- <-] & Hb & He & Hv & Hd)]].
    + rewrite Hacc in Hb. discriminate Hb.
    + rewrite He, Hv in Hc. discriminate Hc.
  - split.
    + intros [= <-]. right. left. exists addr, w1, w2. split; [reflexivity | exact Hacc].
    + intros [(w & [=]) | [(a & wa & wb & [= <- <-] & Hb) | (a & wa & ac & wb & wc & [= <- <-] & Hb & _)]].
      * rewrite Hacc in Hb. injection Hb as <- _. reflexivity.
      * rewrite Hacc in Hb. discriminate Hb.
  - split.
    + intros [= <-]. left. exists w1. reflexivity.
    + intros [(w & [= <- _]) | [(a & wa & wb & [=] & _) | (a & wa & ac & wb & wc & [=] & _)]].
      reflexivity.
Qed.

(** [prepare] panics in one case and no other: the address and the account
    are found, the fee of the request is empty or not valid, and the default
    fee of the configuration cannot be converted. *)
Lemma prepare_panic_cases (base : baseClient) (baseTx : BaseTx) (s : St) (e : error) :
  fst (prepare base baseTx s) = Panic e
  <-> exists addr w1 account w2 w3,
        ext_QueryAddress (From baseTx) (Password baseTx) (world s) = (inl addr, w1)
        /\ ext_QueryAndRefreshAccount addr w1 = (inl account, w2)
        /\ (Empty (Fee baseTx) = true \/ IsValid (Fee baseTx) = false)
        /\ ext_ToMinCoin (cfg_Fee (cfg base)) w2 = (inr e, w3).
Proof.
  prepare_paths base baseTx s.
  - split; [discriminate|].
    intros (a & wa & ac & wb & wc & [= <- <-] & Hb & Hfee & Hd).
    rewrite Hacc in Hb. injection Hb as <- <-.
    destruct Hfee as [He | Hv]; [rewrite He in Hc | rewrite Hv, andb_false_r in Hc];
      discriminate Hc.
  - split; [discriminate|].
    intros (a & wa & ac & wb & wc & [= <- <-] & Hb & Hfee & Hd).
    rewrite Hacc in Hb. injection Hb as <- <-.
    destruct Hfee as [He | Hv]; [rewrite He in Hc | rewrite Hv, andb_false_r in Hc];
      discriminate Hc.
  - split; [discriminate|].
    intros (a & wa & ac & wb & wc & [= <- <-] & Hb & Hfee & Hd).
    rewrite Hacc in Hb. injection Hb as <- <-. rewrite Hf in Hd. discriminate Hd.
  - split.
    + intros [= <-]. exists addr, w1, acc, w2, w3.
      split; [reflexivity|]. split; [exact Hacc|]. split; [|exact Hf].
      apply andb_false_iff in Hc. destruct Hc as [Hc | Hc]; [left | right; exact Hc].
      apply negb_false_iff. exact Hc.
    + intros (a & wa & ac & wb & wc & [= <- <-] & Hb & Hfee & Hd).
      rewrite Hacc in Hb. injection Hb as <- <-. rewrite Hf in Hd.
      injection Hd as <- _. reflexivity.
  - split; [discriminate|].
    intros (a & wa & ac & wb & wc & [= <- <-] & Hb & _).
    rewrite Hacc in Hb. discriminate Hb.
  - split; [discriminate|].
    intros (a & wa & ac & wb & wc & [=] & _).
Qed.

(** What the factory [prepare] returns holds.  The chain comes from the
    configuration; the password and the simulate flag from the request; the
    address, the account number and the sequence from the two lookups; the
    fee from the conversion of the request's fee, or of the configured one
    when the request's is empty or not valid.  The mode, the gas, the gas
    adjustment and the memo are the request's when it sets them (non-empty,
    positive), the configuration's -- for the memo, the new factory's --
    otherwise. *)
Theorem prepare_success_fields (base : baseClient) (baseTx : BaseTx) (s : St) (f : Factory) :
  fst (prepare base baseTx s) = Val (inl f) ->
  fChainID f = cfg_ChainID (cfg base)
  /\ fSimulateAndExecute f = SimulateAndExecute baseTx
  /\ fPassword f = Password baseTx
  /\ fMode f = (if 0 <? Z.of_nat (String.length (Mode baseTx))
                then Mode baseTx else cfg_Mode (cfg base))
  /\ fGas f = (if 0 <? Gas baseTx then Gas baseTx else cfg_Gas (cfg base))
  /\ fGasAdjustment f = (if PrimFloat.ltb 0%float (GasAdjustment baseTx)
                         then GasAdjustment baseTx else cfg_GasAdjustment (cfg base))
  /\ fMemo f = (if 0 <? Z.of_nat (String.length (Memo baseTx))
                then Memo baseTx else fMemo NewFactory)
  /\ exists addr w1 account w2 w3,
      ext_QueryAddress (From baseTx) (Password baseTx) (world s) = (inl addr, w1)
      /\ ext_QueryAndRefreshAccount addr w1 = (inl account, w2)
      /\ ext_ToMinCoin (if negb (Empty (Fee baseTx)) && IsValid (Fee baseTx)
                        then Fee baseTx else cfg_Fee (cfg base)) w2
         = (inl (fFee f), w3)
      /\ fAddress f = addr
      /\ fAccountNumber f = AccountNumber account
      /\ fSequence f = Sequence account.
Proof.
  prepare_paths base baseTx s; try discriminate.
  all: intros [= <-].
  all: (split; [|split; [|split; [|split; [|split; [|split; [|split]]]]]]).
  all: try (exists addr, w1, acc, w2, w3; split; [reflexivity|]; split; [exact Hacc|];
            split; [|split; [|split]]).
  all: repeat match goal with |- context [if ?c then _ else _] => destruct c end.
  all: try reflexivity.
  all: exact Hf.
Qed.
(** [BuildAndSign] returns the bytes the factory's signer gives for the
    factory [prepare] returned, the sender's name and the messages, and then
    no error.  It never returns bytes beside an error, and the error is
    always a wrapped one: that of [prepare], or that of the signer.  Apart
    from what [prepare] does, it makes no call that is recorded: it takes no
    lock and broadcasts nothing. *)
Theorem BuildAndSign_result
        (sign : Factory -> string -> list Msg -> World -> (list Byte.byte + error) * World)
        (base : baseClient) (msg : list Msg) (baseTx : BaseTx) (s : St) :
  let out := fst (BuildAndSign sign base msg baseTx s) in
  let s1 := snd (prepare base baseTx s) in
  (forall txByte,
      out = Val (txByte, None)
      <-> exists builder,
            fst (prepare base baseTx s) = Val (inl builder)
            /\ fst (sign builder (From baseTx) msg (world s1)) = inl txByte)
  /\ (forall txByte e,
        out = Val (txByte, Some e) ->
        txByte = []
        /\ exists e0,
            e = Wrap e0
            /\ (fst (prepare base baseTx s) = Val (inr e0)
                \/ exists builder,
                    fst (prepare base baseTx s) = Val (inl builder)
                    /\ fst (sign builder (From baseTx) msg (world s1)) = inr e0))
  /\ trace (snd (BuildAndSign sign base msg baseTx s)) = trace s1.
Proof.
  intros out s1. subst out s1. unfold BuildAndSign, mbind, mret.
  destruct (prepare base baseTx s) as [[[builder|e0]|v] s1]; simpl.
  - destruct (sign builder (From baseTx) msg (world s1)) as [[bytes|e1] w] eqn:Hsg; simpl.
    + split; [|split; [|reflexivity]].
      * intros txByte. split.
        -- intros [= <-]. exists builder. split; [reflexivity | rewrite Hsg; reflexivity].
        -- intros (b & [= <-] & Hs). rewrite Hsg in Hs. injection Hs as <-. reflexivity.
      * intros txByte e [=].
    + split; [|split; [|reflexivity]].
      * intros txByte. split; [discriminate|].
        intros (b & [= <-] & Hs). rewrite Hsg in Hs. discriminate Hs.
      * intros txByte e [= <- <-]. split; [reflexivity|].
        exists e1. split; [reflexivity|]. right. exists builder.
        split; [reflexivity | rewrite Hsg; reflexivity].
  - cbn. split; [|split; [|reflexivity]].
    + intros txByte. split; [discriminate|]. intros (b & [=] & _).
    + intros txByte e [= <- <-]. split; [reflexivity|].
      exists e0. split; [reflexivity|]. left. reflexivity.
  - split; [|split; [|reflexivity]].
    + intros txByte. split; [discriminate|]. intros (b & [=] & _).
    + intros txByte e [=].
Qed.

(** [BuildAndSign] recovers nothing and its signer is never what panics:
    it panics exactly when [prepare] does, with the same value.  And
    [prepare] panics in one case and no other: the address and the account
    are found, the fee of the request is empty or not valid, and the
    configured fee cannot be converted; the panic carries the conversion
    error. *)
Theorem BuildAndSign_panics_with_prepare
        (sign : Factory -> string -> list Msg -> World -> (list Byte.byte + error) * World)
        (base : baseClient) (msg : list Msg) (baseTx : BaseTx) (s : St) (e : error) :
  (fst (BuildAndSign sign base msg baseTx s) = Panic e
   <-> fst (prepare base baseTx s) = Panic e)
  /\ (fst (prepare base baseTx s) = Panic e
      <-> exists addr w1 account w2 w3,
            ext_QueryAddress (From baseTx) (Password baseTx) (world s) = (inl addr, w1)
            /\ ext_QueryAndRefreshAccount addr w1 = (inl account, w2)
            /\ (Empty (Fee baseTx) = true \/ IsValid (Fee baseTx) = false)
            /\ ext_ToMinCoin (cfg_Fee (cfg base)) w2 = (inr e, w3)).
Proof.
  split; [|apply prepare_panic_cases].
  unfold BuildAndSign, mbind, mret.
  destruct (prepare base baseTx s) as [[[builder|e0]|v] s1]; simpl.
  - destruct (sign builder (From baseTx) msg (world s1)) as [[bytes|e1] w]; simpl;
      split; discriminate.
  - split; discriminate.
  - split; intros [= <-]; reflexivity.
Qed.

(** A second client made in the same process does not dial: it gets the
    connection of the first, to the first configuration's address and with
    the first project's credential, whatever its own configuration says and
    whether or not its own address could be reached.  Its configuration is
    its own, and so is its locker, new and with [concurrency] free shards:
    two clients do not exclude each other. *)
Theorem NewBaseClient_second_shares_connection
        (dial : string -> list Grpc.DialOption -> option string)
        (c1 c2 : ClientConfig) (base1 : baseClient) :
  NewBaseClient dial c1 Grpc.initGlobals = Grpc.Returned base1 ->
  exists base2,
    NewBaseClient dial c2 (conn base1) = Grpc.Returned base2
    /\ cfg base2 = c2
    /\ conn base2 = conn base1
    /\ Grpc.GenConn (conn base2)
       = (Some {| Grpc.target := cfg_GRPCAddr c1;
                  Grpc.dialOpts :=
                    [Grpc.WithInsecure;
                     Grpc.WithPerRPCCredentials (Grpc.NewBsnToken (cfg_BSNProject c1))] |},
          None)
    /\ l base2 = Locker.NewLocker Locker.concurrency
    /\ Forall (fun n => n = 0%nat) (Locker.shards (l base2))
    /\ length (Locker.shards (l base2)) = 16%nat.
Proof.
  unfold NewBaseClient, Grpc.NewGRPCClient. cbn [Grpc.onceDone Grpc.initGlobals].
  destruct (dial (cfg_GRPCAddr c1) _) as [err|] eqn:Hd; [discriminate|].
  intros [= <-]. cbn.
  eexists. split; [reflexivity|]. cbn.
  split; [reflexivity|]. split; [reflexivity|]. split; [reflexivity|].
  split; [reflexivity|]. split; [|reflexivity].
  vm_compute. repeat constructor.
Qed.

Lemma panics_app (a b : list Event) : panics (a ++ b) = panics a ++ panics b.
Proof. unfold panics. apply omap_app. Qed.

Lemma panics_none (evs pre post : list Event) (ev : Event) (p : error) :
  panics evs = [] -> evs = pre ++ ev :: post -> panicOf ev = Some p -> False.
Proof.
  intros Hnone -> Hp. rewrite panics_app in Hnone. cbn in Hnone.
  rewrite Hp in Hnone. destruct (panics pre); discriminate.
Qed.

Lemma pass_panics_prefix (r : Res (option error)) (pre evs : list Event) :
  panics pre = [] -> pass_panics r evs -> pass_panics r (pre ++ evs).
Proof.
  intros Hp [Hnone | (p0 & g & p & -> & Hp0 & Hr)].
  - left. rewrite panics_app, Hp, Hnone. reflexivity.
  - right. exists (pre ++ p0), g, p. rewrite app_assoc.
    split; [reflexivity|]. split; [|exact Hr].
    rewrite panics_app, Hp, Hp0. reflexivity.
Qed.

Lemma sendGroups_panics (base : baseClient) (baseTx : BaseTx) (groups : list (list Msg)) :
  forall i v s r v' s',
    sendGroups base baseTx groups i (v, s) = (r, (v', s')) ->
    exists evs, trace s' = trace s ++ evs /\ pass_panics r evs.
Proof.
  induction groups as [|mss rest IH]; intros i v s r v' s' H.
  - injection H as <- <- <-. exists []. rewrite !app_nil_r.
    split; [reflexivity | left; reflexivity].
  - cbn [sendGroups] in H. unfold mbind, lift, buildTx, getL, putL, mret in H.
    cbn [fst snd] in H.
    destruct (ext_buildTx mss baseTx (world s)) as [[txByte ctx|e|e] w].
    + set (s1 := record (EvBuildTx mss (Built txByte ctx)) w s) in H.
      destruct (ValidateTxSize_events base (Z.of_nat (length txByte)) mss s1)
        as (evs & Htr & Hevs).
      assert (Htr1 : trace s1 = trace s ++ [EvBuildTx mss (Built txByte ctx)])
        by reflexivity.
      assert (Hq : panics ([EvBuildTx mss (Built txByte ctx)] ++ evs) = []).
      { destruct Hevs as [-> | (r0 & ->)]; reflexivity. }
      clearbody s1. rewrite Htr1, <- app_assoc in Htr. clear Htr1 Hevs.
      set (pfx := [EvBuildTx mss (Built txByte ctx)] ++ evs) in *. clearbody pfx.
      destruct (ValidateTxSize base (Z.of_nat (length txByte)) mss s1)
        as [[[valid [e|]]|e] s2] eqn:EV; cbn [fst snd] in Htr, H.
      all: try rewrite EV in H.
      * assert (H' : (Val (Some e), (v, s2)) = (r, (v', s'))) by (destruct valid; exact H).
        clear H. injection H' as <- <- <-.
        exists pfx. split; [exact Htr | left; exact Hq].
      * destruct valid.
        -- unfold broadcastTx in H. cbn [fst snd] in H.
           destruct (ext_broadcastTx txByte (FactoryMode ctx) (world s2))
             as [[r0 [e|]] w'] eqn:EB.
           all: try rewrite EB in H.
           all: simpl in H.
           ++ injection H as <- <- <-.
              exists (pfx ++ [EvBroadcastTx txByte (FactoryMode ctx) r0 (Some e)]).
              split; [cbn [trace record]; rewrite Htr, <- !app_assoc; reflexivity|].
              left. rewrite panics_app, Hq. reflexivity.
           ++ apply IH in H. destruct H as (evs' & Htr' & Hpass).
              cbn [batch rs trace record] in *.
              exists ((pfx ++ [EvBroadcastTx txByte (FactoryMode ctx) r0 None]) ++ evs').
              split; [rewrite Htr', Htr, <- !app_assoc; reflexivity|].
              apply pass_panics_prefix; [|exact Hpass].
              rewrite panics_app, Hq. reflexivity.
        -- unfold sliceFrom, mpanic, mret in H. cbn [fst snd] in H.
           destruct ((i * batch v <? 0) || (Z.of_nat (length (msgs v)) <? i * batch v))
             eqn:ES.
           all: try rewrite ES in H.
           all: simpl in H; injection H as <- <- <-.
           all: exists pfx; (split; [exact Htr | left; exact Hq]).
      * injection H as <- <- <-.
        exists pfx. split; [exact Htr | left; exact Hq].
    + injection H as <- <- <-.
      exists [EvBuildTx mss (BuildFailed e)].
      split; [reflexivity | left; reflexivity].
    + injection H as <- <- <-.
      exists ([] ++ [EvBuildTx mss (BuildPanicked e)]).
      split; [reflexivity|]. right. exists [], mss, e.
      split; [reflexivity|]. split; reflexivity.
Qed.

Lemma batch_run_panics (base : baseClient) (msgs0 : list Msg) (baseTx : BaseTx) (s : St) :
  let fin := retry_Do batch_config (batch_retryableFunc base baseTx)
                      (batch_vars msgs0, Lock (l base) (From baseTx) s) in
  exists evs r,
    trace (snd (snd fin))
    = trace s ++ EvLock (Locker.shardIndex (l base) (From baseTx)) :: evs
    /\ pass_panics r evs.
Proof.
  intros fin.
  set (k := Locker.shardIndex (l base) (From baseTx)) in *.
  set (P := fun (n : nat) (vs : BatchVars * St) =>
              exists evs, trace (snd vs) = trace s ++ EvLock k :: evs /\ panics evs = []).
  set (Q := fun (n : nat) (r : Res (option error)) (vs : BatchVars * St) =>
              exists evs, trace (snd vs) = trace s ++ EvLock k :: evs /\ pass_panics r evs).
  destruct (retry_loop_rule_result batch_config (batch_retryableFunc base baseTx) P Q)
    with (fuel := attempts batch_config) (n := 0%nat) (idx := 0%nat)
         (log := replicate (if lastErrorOnly batch_config then 1%nat
                            else attempts batch_config) (@None error))
         (s := (batch_vars msgs0, Lock (l base) (From baseTx) s))
    as [(m & r & _ & HQ & _) | (m & _ & HP)].
  - intros n [v st] _ (evs & Htr & Hnone). cbn [fst snd] in *.
    destruct (batch_retryableFunc base baseTx (v, st)) as [r [v' st']] eqn:E.
    unfold batch_retryableFunc, mbind, getL, lift in E. cbn [fst snd] in E.
    apply sendGroups_panics in E. destruct E as (evs' & Htr' & Hpass).
    cbn [trace record] in Htr'. rewrite <- app_assoc in Htr'.
    exists (evs ++ [EvSubArray (batch v) (SubArray (batch v) (msgs v))] ++ evs').
    cbn [fst snd].
    split; [rewrite Htr', Htr, <- app_assoc; reflexivity|].
    apply pass_panics_prefix; [exact Hnone|].
    apply pass_panics_prefix; [reflexivity | exact Hpass].
  - intros n e [v st] _ (evs & Htr & Hcase) _. cbn [fst snd] in *.
    exists (evs ++ [EvRemoveCache (batchAddress v)]). cbn.
    split; [rewrite Htr, <- app_assoc; reflexivity|].
    destruct Hcase as [Hnone | (pre & g & p & _ & _ & [=])].
    rewrite panics_app, Hnone. reflexivity.
  - lia.
  - exists []. cbn. split; reflexivity.
  - destruct HQ as (evs & Htr & Hpass). exists evs, r. split; assumption.
  - destruct HP as (evs & Htr & Hnone). exists evs, (Val None). split; [exact Htr | left; exact Hnone].
Qed.

(** [SendBatch] recovers a panic of the build (that of [prepare], when the
    configured fee cannot be converted): nothing is attempted after it, the
    lock is released, and the caller gets the results of the broadcasts made
    before it, with a nil error, as after a run without failure. *)
Theorem SendBatch_recovers_build_panic (base : baseClient) (msgs0 : list Msg)
        (baseTx : BaseTx) (s : St) (pre post : list Event) (g : list Msg) (p : error) :
  msgs0 <> [] -> Forall (fun m => ValidateBasic m = None) msgs0 ->
  newEvents s (snd (SendBatch base msgs0 baseTx s))
  = pre ++ EvBuildTx g (BuildPanicked p) :: post ->
  post = [EvUnlock (Locker.shardIndex (l base) (From baseTx))]
  /\ fst (SendBatch base msgs0 baseTx s) = Val (successes pre, None).
Proof.
  intros Hne Hvalid Hcut.
  destruct (SendBatch_trace base msgs0 baseTx s Hne Hvalid) as (mid & Hnew & _ & Hres & _).
  destruct (batch_run_panics base msgs0 baseTx s) as (evs & r & Htr & Hpass).
  assert (Hmid : evs = mid).
  { revert Hnew. unfold SendBatch.
    destruct msgs0 as [|m0 rest0] eqn:Hm; [contradiction|]. rewrite <- Hm in *.
    replace (length msgs0 =? 0)%nat with false by (rewrite Hm; reflexivity).
    rewrite (validateMsgs_all_valid _ Hvalid).
    destruct (retry_Do batch_config (batch_retryableFunc base baseTx) _) as [out [v' s2]].
    cbn [fst snd] in Htr. intros Hnew.
    assert (Hnew' : newEvents s (Unlock (l base) (From baseTx) s2)
                    = EvLock (Locker.shardIndex (l base) (From baseTx))
                        :: evs ++ [EvUnlock (Locker.shardIndex (l base) (From baseTx))]).
    { apply newEvents_app. cbn. rewrite Htr, <- app_assoc. reflexivity. }
    assert (Hsame : EvLock (Locker.shardIndex (l base) (From baseTx))
                      :: evs ++ [EvUnlock (Locker.shardIndex (l base) (From baseTx))]
                    = EvLock (Locker.shardIndex (l base) (From baseTx))
                        :: mid ++ [EvUnlock (Locker.shardIndex (l base) (From baseTx))]).
    { rewrite <- Hnew'. destruct out; exact Hnew. }
    injection Hsame as Hsame. apply app_inv_tail in Hsame. exact Hsame. }
  subst evs. rewrite Hnew in Hcut. rewrite Hres.
  destruct pre as [|x pre]; cbn in Hcut; [discriminate Hcut|].
  injection Hcut as <- Hcut.
  destruct (app_cut _ _ _ _ _ Hcut) as [(post1 & Heq & ->) | (pre2 & _ & Heq)].
  2:{ destruct pre2 as [|y pre2]; cbn in Heq.
      - discriminate Heq.
      - injection Heq as _ Heq. destruct pre2; discriminate Heq. }
  destruct Hpass as [Hnone | (pre' & g' & p' & Hshape & Hpre & _)].
  - exfalso. exact (panics_none _ _ _ _ _ Hnone Heq eq_refl).
  - rewrite Hshape in Heq.
    destruct (app_cut _ _ _ _ _ Heq) as [(post2 & Heq' & _) | (pre3 & Hpre3 & Heq')].
    + exfalso. exact (panics_none _ _ _ _ _ Hpre Heq' eq_refl).
    + destruct pre3 as [|y pre3]; cbn in Heq'.
      * injection Heq' as Hg Hp' Hpost. rewrite app_nil_r in Hpre3. subst pre' post1.
        split; [reflexivity|].
        rewrite Hshape, successes_app. cbn. rewrite app_nil_r. reflexivity.
      * injection Heq' as _ Heq'. destruct pre3; discriminate Heq'.
Qed.

(** [BuildAndSend] recovers nothing.  It panics exactly when a build does,
    with the same value; that build is then the last call before the lock is
    released. *)
Theorem BuildAndSend_panics_with_build (base : baseClient) (msg : list Msg)
        (baseTx : BaseTx) (s : St) (p : error) :
  fst (BuildAndSend base msg baseTx s) = Panic p
  <-> exists pre,
        newEvents s (snd (BuildAndSend base msg baseTx s))
        = pre ++ [EvBuildTx msg (BuildPanicked p);
                  EvUnlock (Locker.shardIndex (l base) (From baseTx))].
Proof.
  destruct (BuildAndSend_run base msg baseTx s) as (evs' & out' & v' & Hrun & Hev & Hout).
  rewrite Hev, Hout. clear Hev Hout.
  split.
  - intros Hp. run_cases Hrun; try discriminate Hp; injection Hp as ->; cbn [app];
      match goal with
      | |- exists pre, ?L = _ => exists (take (length L - 2) L); reflexivity
      end.
  - intros (pre & Hcut).
    apply (f_equal (fun evs => List.rev evs !! 1%nat)) in Hcut.
    rewrite List.rev_app_distr in Hcut.
    run_cases Hrun; cbn in Hcut; simplify_eq; reflexivity.
Qed.

(** A pass over the groups invalidates nothing, and leaves in [address] what
    the scan of its calls notes. *)
Lemma sendGroups_noted (base : baseClient) (baseTx : BaseTx) (groups : list (list Msg)) :
  forall i v s r v' s',
    sendGroups base baseTx groups i (v, s) = (r, (v', s')) ->
    exists evs,
      trace s' = trace s ++ evs
      /\ Forall (fun ev => forall a, ev <> EvRemoveCache a) evs
      /\ forall c0, snd (fold_left note evs (c0, batchAddress v)) = batchAddress v'.
Proof.
  induction groups as [|mss rest IH]; intros i v s r v' s' H.
  - injection H as <- <- <-. exists []. rewrite !app_nil_r.
    split; [reflexivity|]. split; [constructor | reflexivity].
  - cbn [sendGroups] in H. unfold mbind, lift, buildTx, getL, putL, mret in H.
    cbn [fst snd] in H.
    destruct (ext_buildTx mss baseTx (world s)) as [[txByte ctx|e|e] w].
    + set (s1 := record (EvBuildTx mss (Built txByte ctx)) w s) in H.
      destruct (ValidateTxSize_events base (Z.of_nat (length txByte)) mss s1)
        as (evs & Htr & Hevs).
      assert (Htr1 : trace s1 = trace s ++ [EvBuildTx mss (Built txByte ctx)])
        by reflexivity.
      assert (Hq : Forall (fun ev => forall a, ev <> EvRemoveCache a)
                          ([EvBuildTx mss (Built txByte ctx)] ++ evs)
                   /\ forall st, fold_left note ([EvBuildTx mss (Built txByte ctx)] ++ evs) st
                                 = (Some ctx, snd st)).
      { destruct Hevs as [-> | (r0 & ->)]; cbn; split; try reflexivity;
          repeat constructor; intros a; discriminate. }
      destruct Hq as (Hq1 & Hq2).
      clearbody s1. rewrite Htr1, <- app_assoc in Htr. clear Htr1 Hevs.
      set (pfx := [EvBuildTx mss (Built txByte ctx)] ++ evs) in *. clearbody pfx.
      destruct (ValidateTxSize base (Z.of_nat (length txByte)) mss s1)
        as [[[valid [e|]]|e] s2] eqn:EV; cbn [fst snd] in Htr, H.
      all: try rewrite EV in H.
      * assert (H' : (Val (Some e), (v, s2)) = (r, (v', s'))) by (destruct valid; exact H).
        clear H. injection H' as <- <- <-.
        exists pfx. split; [exact Htr|]. split; [exact Hq1|].
        intros c0. rewrite Hq2. reflexivity.
      * destruct valid.
        -- unfold broadcastTx in H. cbn [fst snd] in H.
           destruct (ext_broadcastTx txByte (FactoryMode ctx) (world s2))
             as [[r0 [e|]] w'] eqn:EB.
           all: try rewrite EB in H.
           all: simpl in H.
           ++ injection H as <- <- <-.
              exists (pfx ++ [EvBroadcastTx txByte (FactoryMode ctx) r0 (Some e)]).
              split; [cbn [trace record]; rewrite Htr, <- !app_assoc; reflexivity|].
              split.
              ** apply Forall_app. split; [exact Hq1|].
                 repeat constructor. intros a. discriminate.
              ** intros c0. rewrite fold_left_app, Hq2. reflexivity.
           ++ apply IH in H. destruct H as (evs' & Htr' & Hno & Hnote).
              cbn [batch rs trace record batchAddress] in *.
              exists ((pfx ++ [EvBroadcastTx txByte (FactoryMode ctx) r0 None]) ++ evs').
              split; [rewrite Htr', Htr, <- !app_assoc; reflexivity|].
              split.
              ** apply Forall_app. split; [|exact Hno].
                 apply Forall_app. split; [exact Hq1|].
                 repeat constructor. intros a. discriminate.
              ** intros c0. rewrite !fold_left_app, Hq2. cbn. apply Hnote.
        -- unfold sliceFrom, mpanic, mret in H. cbn [fst snd] in H.
           destruct ((i * batch v <? 0) || (Z.of_nat (length (msgs v)) <? i * batch v))
             eqn:ES.
           all: try rewrite ES in H.
           all: simpl in H; injection H as <- <- <-.
           all: exists pfx; (split; [exact Htr|]); (split; [exact Hq1|]);
             intros c0; rewrite Hq2; reflexivity.
      * injection H as <- <- <-.
        exists pfx. split; [exact Htr|]. split; [exact Hq1|].
        intros c0. rewrite Hq2. reflexivity.
    + injection H as <- <- <-.
      exists [EvBuildTx mss (BuildFailed e)].
      split; [reflexivity|]. split; [|reflexivity].
      repeat constructor. intros a. discriminate.
    + injection H as <- <- <-.
      exists [EvBuildTx mss (BuildPanicked e)].
      split; [reflexivity|]. split; [|reflexivity].
      repeat constructor. intros a. discriminate.
Qed.

Lemma no_invalidation (evs pre post : list Event) (a : string) :
  Forall (fun ev => forall a, ev <> EvRemoveCache a) evs ->
  evs = pre ++ EvRemoveCache a :: post -> False.
Proof.
  intros Hall ->. apply Forall_app in Hall. destruct Hall as [_ Hall].
  apply Forall_cons in Hall. destruct Hall as [Hev _]. exact (Hev a eq_refl).
Qed.

Lemma batch_run_noted (base : baseClient) (msgs0 : list Msg) (baseTx : BaseTx) (s : St) :
  let fin := retry_Do batch_config (batch_retryableFunc base baseTx)
                      (batch_vars msgs0, Lock (l base) (From baseTx) s) in
  exists evs,
    trace (snd (snd fin))
    = trace s ++ EvLock (Locker.shardIndex (l base) (From baseTx)) :: evs
    /\ forall pre a post, evs = pre ++ EvRemoveCache a :: post -> a = noted pre.
Proof.
  intros fin.
  set (k := Locker.shardIndex (l base) (From baseTx)) in *.
  set (P := fun (n : nat) (vs : BatchVars * St) =>
              exists evs,
                trace (snd vs) = trace s ++ EvLock k :: evs
                /\ batchAddress (fst vs) = noted evs
                /\ forall pre a post, evs = pre ++ EvRemoveCache a :: post -> a = noted pre).
  destruct (retry_loop_rule_result batch_config (batch_retryableFunc base baseTx) P
              (fun n r vs => P n vs))
    with (fuel := attempts batch_config) (n := 0%nat) (idx := 0%nat)
         (log := replicate (if lastErrorOnly batch_config then 1%nat
                            else attempts batch_config) (@None error))
         (s := (batch_vars msgs0, Lock (l base) (From baseTx) s))
    as [(m & r & _ & HQ & _) | (m & _ & HP)].
  - intros n [v st] _ (evs & Htr & Haddr & Hinv). cbn [fst snd] in *.
    destruct (batch_retryableFunc base baseTx (v, st)) as [r [v' st']] eqn:E.
    unfold batch_retryableFunc, mbind, getL, lift in E. cbn [fst snd] in E.
    apply sendGroups_noted in E. destruct E as (evs' & Htr' & Hno & Hnote).
    cbn [trace record] in Htr'. rewrite <- app_assoc in Htr'.
    set (sub := EvSubArray (batch v) (SubArray (batch v) (msgs v))) in *.
    exists (evs ++ [sub] ++ evs'). cbn [fst snd].
    split; [rewrite Htr', Htr, <- app_assoc; reflexivity|]. split.
    + unfold noted. rewrite !fold_left_app. cbn [fold_left note].
      unfold noted in Haddr.
      destruct (fold_left note evs (None, "")) as [c0 a0] eqn:Ef. cbn [snd] in Haddr.
      subst a0. subst sub. cbn [note]. symmetry. apply Hnote.
    + intros pre a post Hcut.
      destruct (app_cut _ _ _ _ _ Hcut) as [(post1 & Heq & _) | (pre2 & _ & Heq)].
      * exact (Hinv _ _ _ Heq).
      * exfalso. apply (no_invalidation ([sub] ++ evs') pre2 post a); [|exact Heq].
        apply Forall_app. split; [|exact Hno].
        repeat constructor. intros a'. subst sub. discriminate.
  - intros n e [v st] _ (evs & Htr & Haddr & Hinv) _. cbn [fst snd] in *.
    exists (evs ++ [EvRemoveCache (batchAddress v)]). cbn.
    split; [rewrite Htr, <- app_assoc; reflexivity|]. split.
    + unfold noted. rewrite fold_left_app. cbn. exact Haddr.
    + intros pre a post Hcut.
      destruct (app_cut _ _ _ _ _ Hcut) as [(post1 & Heq & _) | (pre2 & Hpre & Heq)].
      * exact (Hinv _ _ _ Heq).
      * destruct pre2 as [|y pre2]; cbn in Heq.
        -- injection Heq as <- _. rewrite app_nil_r in Hpre. subst pre. exact Haddr.
        -- injection Heq as _ Heq. destruct pre2; discriminate Heq.
  - lia.
  - exists []. cbn. split; [reflexivity|]. split; [reflexivity|].
    intros pre a post Hcut. destruct pre; discriminate Hcut.
  - destruct HQ as (evs & Htr & _ & Hinv). exists evs. split; assumption.
  - destruct HP as (evs & Htr & _ & Hinv). exists evs. split; assumption.
Qed.

(** The account [SendBatch] invalidates before a retry is the one noted at
    the latest failed broadcast so far, the signer of the transaction that
    broadcast was for; and the empty address when no broadcast has failed
    yet, as after a group found too large or a failed build. *)
Theorem SendBatch_invalidates_noted_address (base : baseClient) (msgs0 : list Msg)
        (baseTx : BaseTx) (s : St) (pre post : list Event) (a : string) :
  msgs0 <> [] -> Forall (fun m => ValidateBasic m = None) msgs0 ->
  newEvents s (snd (SendBatch base msgs0 baseTx s)) = pre ++ EvRemoveCache a :: post ->
  a = noted pre
  /\ (Forall (fun ev => forall txByte mode r e, ev <> EvBroadcastTx txByte mode r (Some e)) pre ->
      a = "").
Proof.
  intros Hne Hvalid Hcut.
  assert (Ha : a = noted pre).
  { destruct (batch_run_noted base msgs0 baseTx s) as (evs & Htr & Hinv).
    revert Hcut. unfold SendBatch.
    destruct msgs0 as [|m0 rest0] eqn:Hm; [contradiction|]. rewrite <- Hm in *.
    replace (length msgs0 =? 0)%nat with false by (rewrite Hm; reflexivity).
    rewrite (validateMsgs_all_valid _ Hvalid).
    destruct (retry_Do batch_config (batch_retryableFunc base baseTx) _) as [out [v' s2]].
    cbn [fst snd] in Htr. intros Hcut.
    assert (Hnew : newEvents s (Unlock (l base) (From baseTx) s2)
                   = EvLock (Locker.shardIndex (l base) (From baseTx))
                       :: evs ++ [EvUnlock (Locker.shardIndex (l base) (From baseTx))]).
    { apply newEvents_app. cbn. rewrite Htr, <- app_assoc. reflexivity. }
    assert (Hcut' : EvLock (Locker.shardIndex (l base) (From baseTx))
                      :: evs ++ [EvUnlock (Locker.shardIndex (l base) (From baseTx))]
                    = pre ++ EvRemoveCache a :: post).
    { rewrite <- Hnew. destruct out; exact Hcut. }
    clear Hcut Hnew.
    destruct pre as [|x pre]; cbn in Hcut'; [discriminate Hcut'|].
    injection Hcut' as <- Hcut'.
    destruct (app_cut _ _ _ _ _ Hcut') as [(post1 & Heq & _) | (pre2 & _ & Heq)].
    - rewrite (Hinv _ _ _ Heq). reflexivity.
    - destruct pre2 as [|y pre2]; cbn in Heq; [discriminate Heq|].
      injection Heq as _ Heq. destruct pre2; discriminate Heq. }
  split; [exact Ha|].
  intros Hnone. rewrite Ha. apply noted_quiet. exact Hnone.
Qed.

End More.
End BaseMore.

(** ** The further properties on the scripted node *)

Module MoreScenarioFacts.
Import Base Scenario.

Lemma NewLocker_all_free_witness :
  length (Locker.shards (Locker.NewLocker 16)) = 16%nat
  /\ (exists l', Locker.Lock (Locker.NewLocker 16) "alice" = Locker.Proceeds l'
                 /\ Locker.wellFormed l'
                 /\ Locker.shards l'
                    = <[Z.to_nat (Locker.shardIndex (Locker.NewLocker 16) "alice") := 1%nat]>
                        (replicate (Z.to_nat 16) 0%nat))
  /\ Locker.Unlock (Locker.NewLocker 16) "alice" = Locker.Blocks.
Proof.
  apply (LockerMore.NewLocker_all_free 16 "alice"). lia.
Defined.

Lemma Lock_excludes_shard_witness :
  Locker.Lock (Locker.NewLocker 16) "carol"
  = Locker.Proceeds {| Locker.shards := <[4%nat := 1%nat]> (replicate 16 0%nat);
                       Locker.size := 16 |}
  /\ Locker.Lock {| Locker.shards := <[4%nat := 1%nat]> (replicate 16 0%nat);
                    Locker.size := 16 |} "heidi" = Locker.Blocks.
Proof.
  split; [vm_compute; reflexivity|].
  refine (proj1 (LockerMore.Lock_excludes_shard (Locker.NewLocker 16)
                   {| Locker.shards := <[4%nat := 1%nat]> (replicate 16 0%nat);
                      Locker.size := 16 |} "carol" "heidi" _ _ _)).
  - split; [vm_compute; split; reflexivity|]. split; [reflexivity|].
    vm_compute. repeat constructor.
  - vm_compute. reflexivity.
  - vm_compute. reflexivity.
Defined.

Lemma Unlock_releases_shard_witness :
  Locker.Unlock {| Locker.shards := <[4%nat := 1%nat]> (replicate 16 0%nat);
                   Locker.size := 16 |} "heidi"
  = Locker.Proceeds (Locker.NewLocker 16).
Proof.
  apply (LockerMore.Unlock_releases_shard (Locker.NewLocker 16)
           {| Locker.shards := <[4%nat := 1%nat]> (replicate 16 0%nat);
              Locker.size := 16 |} "carol" "heidi").
  - split; [vm_compute; split; reflexivity|]. split; [reflexivity|].
    vm_compute. repeat constructor.
  - vm_compute. reflexivity.
  - vm_compute. reflexivity.
Defined.

Lemma Lock_other_shard_independent_witness :
  exists lab,
    Locker.Lock {| Locker.shards := <[3%nat := 1%nat]> (replicate 16 0%nat);
                   Locker.size := 16 |} "bob" = Locker.Proceeds lab
    /\ Locker.Lock {| Locker.shards := <[10%nat := 1%nat]> (replicate 16 0%nat);
                      Locker.size := 16 |} "alice" = Locker.Proceeds lab.
Proof.
  apply (LockerMore.Lock_other_shard_independent (Locker.NewLocker 16)
           {| Locker.shards := <[3%nat := 1%nat]> (replicate 16 0%nat); Locker.size := 16 |}
           {| Locker.shards := <[10%nat := 1%nat]> (replicate 16 0%nat); Locker.size := 16 |}
           "alice" "bob").
  - split; [vm_compute; split; reflexivity|]. split; [reflexivity|].
    vm_compute. repeat constructor.
  - vm_compute. reflexivity.
  - vm_compute. reflexivity.
  - vm_compute. discriminate.
Defined.

Lemma NewGRPCClient_first_connection_kept_witness :
  Grpc.GenConn (snd (Grpc.NewGRPCClient simDial "localhost:9090" project Grpc.initGlobals))
  = (Some {| Grpc.target := "localhost:9090";
             Grpc.dialOpts := [Grpc.WithInsecure;
                               Grpc.WithPerRPCCredentials (Grpc.NewBsnToken project)] |},
     None).
Proof.
  refine (proj1 (proj2 (GrpcMore.NewGRPCClient_first_connection_kept simDial
                          "localhost:9090" "down:9090" project (cfg_BSNProject otherConfig)
                          Grpc.initGlobals
                          (snd (Grpc.NewGRPCClient simDial "localhost:9090" project
                                                   Grpc.initGlobals)) _ _))).
  - reflexivity.
  - vm_compute. reflexivity.
Defined.

Lemma NewGRPCClient_failed_dial_sticks_witness :
  Grpc.GenConn (snd (Grpc.NewGRPCClient simDial "down:9090" project Grpc.initGlobals))
  = (None, None).
Proof.
  refine (proj2 (proj2 (GrpcMore.NewGRPCClient_failed_dial_sticks simDial
                          "down:9090" "localhost:9090" project project
                          Grpc.initGlobals
                          (snd (Grpc.NewGRPCClient simDial "down:9090" project
                                                   Grpc.initGlobals))
                          "connection refused" _ _ _))).
  - reflexivity.
  - reflexivity.
  - vm_compute. reflexivity.
Defined.

Lemma SendBatch_locks_once_witness :
  exists mid,
    newEvents resendWorld (snd resendRun) = EvLock 3 :: mid ++ [EvUnlock 3]
    /\ Forall loopCall mid.
Proof.
  apply (BaseMore.SendBatch_locks_once (X := simX) batchBase resendMsgs simTx resendWorld).
  - vm_compute. discriminate.
  - vm_compute. repeat constructor.
Defined.

Lemma SendBatch_returns_every_success_witness :
  fst resendRun = Val (successes (newEvents resendWorld (snd resendRun)), None).
Proof.
  apply (BaseMore.SendBatch_returns_every_success (X := simX) batchBase resendMsgs simTx
           resendWorld).
  - vm_compute. discriminate.
  - vm_compute. repeat constructor.
Defined.

Lemma SendBatch_failure_discipline_witness :
  (@batch_retryIf simX unauthorized = true
   /\ exists a post', [EvUnlock 3] = EvRemoveCache a :: post')
  \/ (@batch_retryIf simX unauthorized = false
      /\ [EvUnlock 3]
         = [EvUnlock (Locker.shardIndex (l (simBase simConfig)) (From simTx))]).
Proof.
  apply (BaseMore.SendBatch_failure_discipline (X := simX) (simBase simConfig)
           (numbered "bank" 1 150) simTx (sim [] [None; Some unauthorized] 150 101)
           (take 5 (trace (snd refusedBatch))) [EvUnlock 3]
           (EvBroadcastTx (txBytes (world (sim [] [] 150 101)) (numbered "bank" 101 50))
                          "commit" zeroResultTx (Some unauthorized))
           unauthorized).
  - vm_compute. discriminate.
  - vm_compute. repeat constructor.
  - vm_compute. reflexivity.
  - reflexivity.
Defined.

Lemma SendBatch_retry_resends_first_group_witness :
  exists evs more,
    trace (snd resendRun) = trace resend_s12 ++ evs
    /\ fst resendRun = Val (resend_res1 :: resend_res2 :: more, None).
Proof.
  refine (proj2 (BaseMore.SendBatch_retry_resends_first_group (X := simX) batchBase
                   resendMsgs simTx (take 100 resendMsgs) (drop 100 resendMsgs) []
                   resendWorld resend_s3 resend_s3 resend_s5 resend_s6 resend_s6 resend_s8
                   resend_s10 resend_s10 resend_s12 resend_tx1 resend_tx2 resend_tx1
                   simFactory simFactory simFactory resend_res1 zeroResultTx resend_res2
                   invalidSequence _ _ _ _ _ _ _ _ _ _ _ _ _)).
  - vm_compute. discriminate.
  - vm_compute. repeat constructor.
  - vm_compute. reflexivity.
  - vm_compute. reflexivity.
  - vm_compute. reflexivity.
  - vm_compute. reflexivity.
  - vm_compute. reflexivity.
  - vm_compute. reflexivity.
  - vm_compute. reflexivity.
  - vm_compute. reflexivity.
  - vm_compute. reflexivity.
  - vm_compute. reflexivity.
  - vm_compute. reflexivity.
Defined.

Lemma ValidateTxSize_skips_other_modules_witness :
  @ValidateTxSize simX batchBase 1000000 (numbered "bank" 1 3) (sim [] [] 150 101)
  = (Val (true, None), sim [] [] 150 101).
Proof.
  apply (BaseMore.ValidateTxSize_skips_other_modules (X := simX)).
  vm_compute. repeat (constructor; [discriminate|]). constructor.
Defined.

Lemma ValidateTxSize_service_verdict_witness :
  exists r,
    newEvents (sim [] [] 150 101)
              (snd (@ValidateTxSize simX batchBase 151
                      (numbered "bank" 1 2 ++ numbered "service" 3 1 ++ numbered "bank" 4 1)
                      (sim [] [] 150 101)))
    = [EvTxSizeLimit r]
    /\ fst (@ext_serviceParams simX (Grpc.clientConnSingleton (conn batchBase))
                               (world (sim [] [] 150 101))) = r
    /\ fst (@ValidateTxSize simX batchBase 151
              (numbered "bank" 1 2 ++ numbered "service" 3 1 ++ numbered "bank" 4 1)
              (sim [] [] 150 101))
       = match r with
         | inl limit => Val (151 <=? limit, None)
         | inr err => Val (false, Some (@Wrap simX err))
         end.
Proof.
  apply (BaseMore.ValidateTxSize_service_verdict (X := simX) batchBase 151
           (numbered "bank" 1 2) (numbered "bank" 4 1)
           {| Route := "service"; ValidateBasic := None; payload := 3 |}
           (sim [] [] 150 101)).
  - reflexivity.
  - lia.
Defined.

Lemma prepare_success_fields_witness :
  fMode customFactory = "async" /\ fGas customFactory = 50.
Proof.
  pose proof (BaseMore.prepare_success_fields (X := simX) (simBase simConfig) customTx
                (sim [] [] 150 101) customFactory) as H.
  assert (Hrun : fst (@prepare simX (simBase simConfig) customTx (sim [] [] 150 101))
                 = Val (inl customFactory)) by (vm_compute; reflexivity).
  destruct (H Hrun) as (_ & _ & _ & Hmode & Hgas & _).
  split; [exact Hmode | exact Hgas].
Defined.

Lemma NewBaseClient_second_shares_connection_witness :
  exists base2,
    NewBaseClient simDial otherConfig (conn (simBase simConfig)) = Grpc.Returned base2
    /\ cfg base2 = otherConfig
    /\ conn base2 = conn (simBase simConfig)
    /\ Grpc.GenConn (conn base2)
       = (Some {| Grpc.target := cfg_GRPCAddr simConfig;
                  Grpc.dialOpts :=
                    [Grpc.WithInsecure;
                     Grpc.WithPerRPCCredentials
                       (Grpc.NewBsnToken (cfg_BSNProject simConfig))] |},
          None)
    /\ l base2 = Locker.NewLocker Locker.concurrency
    /\ Forall (fun n => n = 0%nat) (Locker.shards (l base2))
    /\ length (Locker.shards (l base2)) = 16%nat.
Proof.
  apply (BaseMore.NewBaseClient_second_shares_connection simDial simConfig otherConfig
           (simBase simConfig)).
  vm_compute. reflexivity.
Defined.

Lemma SendBatch_recovers_build_panic_witness :
  [EvUnlock 3] = [EvUnlock (Locker.shardIndex (l batchBase) (From simTx))]
  /\ fst panicRun = Val (successes (take 4 (trace (snd panicRun))), None).
Proof.
  apply (BaseMore.SendBatch_recovers_build_panic (X := simPanicX) batchBase
           (numbered "bank" 1 150) simTx panicWorld (take 4 (trace (snd panicRun)))
           [EvUnlock 3] (numbered "bank" 101 50) invalidCoins).
  - vm_compute. discriminate.
  - vm_compute. repeat constructor.
  - vm_compute. reflexivity.
Defined.

Lemma SendBatch_invalidates_noted_address_witness :
  signer = noted (take 6 (trace (snd resendRun)))
  /\ (Forall (fun ev => forall txByte mode r e, ev <> EvBroadcastTx txByte mode r (Some e))
             (take 6 (trace (snd resendRun))) ->
      signer = "").
Proof.
  apply (BaseMore.SendBatch_invalidates_noted_address (X := simX) batchBase resendMsgs simTx
           resendWorld (take 6 (trace (snd resendRun))) (drop 7 (trace (snd resendRun)))
           signer).
  - vm_compute. discriminate.
  - vm_compute. repeat constructor.
  - vm_compute. reflexivity.
Defined.

End MoreScenarioFacts.
